(** * Smoothie: fixed-step logic clock with render interpolation

    A shallow embedding of [src/vendor/smoothie.ts].

    Numbers.  A JavaScript number is modelled as a rational, with two
    extra values: [NaN] and [undefined]; the infinities are not modelled.
    The arithmetic comes twice.  [jsadd], [jssub], [jsmul] and [jsdiv]
    give the exact rational result; the walks over the scene and the
    statements that do not turn on a rounding use them.  [Double] is the
    logic clock computed as the program computes it, every result rounded
    to a double; the statements that turn on a rounding are made there:
    the count of callback calls against the floor formula, the cadence of
    the renders under a cap, the catching up after a pause.

    Display objects.  The attributes of a node are independent cells in
    the walks as first given; [Pixi] reads the same nodes as sprites of
    the rendering library, whose width and height are accessors over the
    scale.

    Effects.  The class mutates itself, the scene tree rooted at [stage]
    and whatever the [update] callback owns.  The embedding threads a
    [Machine]: the object's fields, the callback's own state, and a trace
    of the calls made to the outside (requestAnimationFrame, the callback,
    the renderer's draw call with the tree as it was drawn).  What
    [Date.now()] returns is an argument of the operation that reads it.
    The callback and the renderer do not call back into the object, and
    the renderer leaves the attributes of the tree alone.

    Termination.  The [while] loop of [doInterpolate] does not end for
    every state (a negative tick duration), so it takes a bound on the
    number of turns and ends in [Diverge] when the bound is reached. *)

From Stdlib Require Import QArith Qround Qabs Qpower ZArith List Bool String
  Lia Lqa.
Import ListNotations.

Set Warnings "-register-all".

(* ------------------------------------------------------------------ *)
(** ** JavaScript numbers *)

Inductive jsnum : Type :=
| Num (q : Q)
| NaN
| undefined.

Definition is_undefined (v : jsnum) : bool :=
  match v with undefined => true | _ => false end.

(** [!!v] on a number-or-undefined: [0], [NaN] and [undefined] are falsy. *)
Definition truthy (v : jsnum) : bool :=
  match v with
  | Num q => negb (Qeq_bool q 0)
  | _ => false
  end.

(** Binary arithmetic: an operand that is not a finite number gives NaN. *)
Definition jsarith (f : Q -> Q -> Q) (a b : jsnum) : jsnum :=
  match a, b with
  | Num p, Num q => Num (f p q)
  | _, _ => NaN
  end.

Definition jsadd := jsarith Qplus.
Definition jssub := jsarith Qminus.
Definition jsmul := jsarith Qmult.

(** Division.  JavaScript gives an infinity (or NaN) on a zero divisor;
    the model has no infinities and gives [NaN] there. *)
Definition jsdiv (a b : jsnum) : jsnum :=
  match a, b with
  | Num p, Num q => if Qeq_bool q 0 then NaN else Num (p / q)
  | _, _ => NaN
  end.

(** [a >= b] and [a > b]: false as soon as one side is not a number. *)
Definition jsge (a b : jsnum) : bool :=
  match a, b with
  | Num p, Num q => Qle_bool q p
  | _, _ => false
  end.

Definition jsgt (a b : jsnum) : bool :=
  match a, b with
  | Num p, Num q => negb (Qle_bool p q)
  | _, _ => false
  end.

(** Equality of numbers as values (rationals up to [==]). *)
Definition jseq (a b : jsnum) : Prop :=
  match a, b with
  | Num p, Num q => p == q
  | NaN, NaN => True
  | undefined, undefined => True
  | _, _ => False
  end.

(* ------------------------------------------------------------------ *)
(** ** The scene tree *)

(** [SmoothieProperties]: [position] and [rotation] are required flags,
    the other three are optional ([None] is an absent field). *)
Module Properties.
Record t : Type := mk {
  position : bool;
  rotation : bool;
  size : option bool;
  scale : option bool;
  alpha : option bool
}.
End Properties.
Definition SmoothieProperties : Type := Properties.t.

(** [if (this.properties.size)]: an absent flag is falsy. *)
Definition flag (o : option bool) : bool :=
  match o with Some b => b | None => false end.

(** One interpolated attribute of a display object: the live value and
    the two shadow slots the class crams into the object for it
    ([_currentX] and [_previousX] for [x], and so on). *)
Record Attr : Type := mkAttr {
  live : jsnum;
  _current : jsnum;
  _previous : jsnum
}.

(** The attributes of one display object that the class reads and writes.
    [scale_x] and [scale_y] are [sprite.scale.x] and [sprite.scale.y].
    They are independent fields here, as the class treats them; the
    rendering library's own coupling of attributes is outside [src] and
    is taken up in [Pixi] below. *)
Record Fields : Type := mkFields {
  x : Attr;
  y : Attr;
  rotation : Attr;
  width : Attr;
  height : Attr;
  scale_x : Attr;
  scale_y : Attr;
  alpha : Attr
}.

(** A display object: [isSprite] is the answer of
    [sprite instanceof this.Sprite]. *)
Inductive Node : Type :=
| mkNode (isSprite : bool) (fields : Fields) (children : list Node).

Definition isSprite (n : Node) : bool := let (b, _, _) := n in b.
Definition fields (n : Node) : Fields := let (_, f, _) := n in f.
Definition children (n : Node) : list Node := let (_, _, c) := n in c.

(** Induction over the tree, with the hypothesis for every child. *)
Fixpoint Node_forall_ind (P : Node -> Prop)
    (step : forall b f cs, Forall P cs -> P (mkNode b f cs))
    (n : Node) {struct n} : P n :=
  match n with
  | mkNode b f cs =>
      step b f cs
        ((fix all (l : list Node) : Forall P l :=
            match l with
            | [] => @Forall_nil Node P
            | c :: l' =>
                @Forall_cons Node P c l' (Node_forall_ind P step c) (all l')
            end) cs)
  end.

(** The observable part of a tree: its shape and the live values. *)
Definition live_fields (f : Fields) : list jsnum :=
  [live (x f); live (y f); live (rotation f); live (width f);
   live (height f); live (scale_x f); live (scale_y f); live (alpha f)].

Inductive LiveTree : Type :=
| LiveNode (sprite : bool) (values : list jsnum) (kids : list LiveTree).

Fixpoint observe (n : Node) : LiveTree :=
  match n with
  | mkNode b f cs => LiveNode b (live_fields f) (map observe cs)
  end.

(* ------------------------------------------------------------------ *)
(** ** The three tree walks *)

(** [sprite._previousX = sprite.x] *)
Definition capture (a : Attr) : Attr :=
  {| live := live a; _current := _current a; _previous := live a |}.

(** [(sprite.x - sprite._previousX) * tick + sprite._previousX] *)
Definition blend (v prev tick : jsnum) : jsnum :=
  jsadd (jsmul (jssub v prev) tick) prev.

(** [sprite._currentX = sprite.x;
     if (sprite._previousX !== undefined) sprite.x = ...] *)
Definition interpolateAttr (tick : jsnum) (a : Attr) : Attr :=
  {| live := if is_undefined (_previous a) then live a
             else blend (live a) (_previous a) tick;
     _current := live a;
     _previous := _previous a |}.

(** [sprite.x = sprite._currentX] *)
Definition restore (a : Attr) : Attr :=
  {| live := _current a; _current := _current a; _previous := _previous a |}.

Definition on (b : bool) (f : Attr -> Attr) (a : Attr) : Attr :=
  if b then f a else a.

(** The body of [setProperties] in [capturePreviousSpriteProperties]. *)
Definition captureFields (p : SmoothieProperties) (f : Fields) : Fields :=
  {| x := on (Properties.position p) capture (x f);
     y := on (Properties.position p) capture (y f);
     rotation := on (Properties.rotation p) capture (rotation f);
     width := on (flag (Properties.size p)) capture (width f);
     height := on (flag (Properties.size p)) capture (height f);
     scale_x := on (flag (Properties.scale p)) capture (scale_x f);
     scale_y := on (flag (Properties.scale p)) capture (scale_y f);
     alpha := on (flag (Properties.alpha p)) capture (alpha f) |}.

Fixpoint setProperties (p : SmoothieProperties) (sprite : Node) : Node :=
  match sprite with
  | mkNode b f cs => mkNode b (captureFields p f) (map (setProperties p) cs)
  end.

(** The loops over [this.stage.children]: the root itself is not visited. *)
Definition overStage (visit : Node -> Node) (stage : Node) : Node :=
  match stage with
  | mkNode b f cs => mkNode b f (map visit cs)
  end.

Definition capturePreviousSpriteProperties
    (p : SmoothieProperties) (stage : Node) : Node :=
  overStage (setProperties p) stage.

(** The body of [interpolateSprite]; size only for [this.Sprite]s. *)
Definition interpolateFields (p : SmoothieProperties) (tick : jsnum)
    (sprite : bool) (f : Fields) : Fields :=
  {| x := on (Properties.position p) (interpolateAttr tick) (x f);
     y := on (Properties.position p) (interpolateAttr tick) (y f);
     rotation := on (Properties.rotation p) (interpolateAttr tick) (rotation f);
     width := on (flag (Properties.size p) && sprite)
                 (interpolateAttr tick) (width f);
     height := on (flag (Properties.size p) && sprite)
                  (interpolateAttr tick) (height f);
     scale_x := on (flag (Properties.scale p)) (interpolateAttr tick) (scale_x f);
     scale_y := on (flag (Properties.scale p)) (interpolateAttr tick) (scale_y f);
     alpha := on (flag (Properties.alpha p)) (interpolateAttr tick) (alpha f) |}.

Fixpoint interpolateSprite (p : SmoothieProperties) (tick : jsnum)
    (sprite : Node) : Node :=
  match sprite with
  | mkNode b f cs =>
      mkNode b (interpolateFields p tick b f) (map (interpolateSprite p tick) cs)
  end.

(** The body of [restoreSpriteProperties]. *)
Definition restoreFields (p : SmoothieProperties)
    (sprite : bool) (f : Fields) : Fields :=
  {| x := on (Properties.position p) restore (x f);
     y := on (Properties.position p) restore (y f);
     rotation := on (Properties.rotation p) restore (rotation f);
     width := on (flag (Properties.size p) && sprite) restore (width f);
     height := on (flag (Properties.size p) && sprite) restore (height f);
     scale_x := on (flag (Properties.scale p)) restore (scale_x f);
     scale_y := on (flag (Properties.scale p)) restore (scale_y f);
     alpha := on (flag (Properties.alpha p)) restore (alpha f) |}.

Fixpoint restoreSpriteProperties (p : SmoothieProperties) (sprite : Node)
    : Node :=
  match sprite with
  | mkNode b f cs =>
      mkNode b (restoreFields p b f) (map (restoreSpriteProperties p) cs)
  end.

(* ------------------------------------------------------------------ *)
(** ** The scheduler *)

(** What an operation can end in: a value, a thrown [Error], or a loop
    that did not finish within the given number of iterations. *)
Inductive Outcome (A : Type) : Type :=
| Done (a : A)
| Throw (msg : string)
| Diverge.
Arguments Done {A} a.
Arguments Throw {A} msg.
Arguments Diverge {A}.

Definition bind {A B : Type} (o : Outcome A) (k : A -> Outcome B)
    : Outcome B :=
  match o with
  | Done a => k a
  | Throw msg => Throw msg
  | Diverge => Diverge
  end.

Notation "'do' a <- o ; k" := (bind o (fun a => k))
  (at level 10, a name, o at level 100, k at level 200).

(** Calls that leave the class, in the order they are made. *)
Inductive Event : Type :=
| RequestFrame            (* requestAnimationFrame(this.gameLoop) *)
| Update                  (* this.update() *)
| Draw (tree : Node).     (* this.renderer.render(this.stage) *)

Definition count_updates (t : list Event) : nat :=
  List.length (filter (fun e => match e with Update => true | _ => false end) t).

Definition count_draws (t : list Event) : nat :=
  List.length (filter (fun e => match e with Draw _ => true | _ => false end) t).

Section Scheduler.

(** [W] is whatever the logic callback owns besides the scene tree;
    [Engine] and [Renderer] are the rendering library's handles. *)
Context {W Engine Renderer : Type}.

(** The logic callback: it reads and writes its own state and the tree. *)
Definition Callback : Type := W -> Node -> W * Node.

Record SmoothieOptions : Type := mkOptions {
  o_engine : option Engine;
  o_renderer : option Renderer;
  o_root : option Node;
  o_update : option Callback;
  o_interpolate : option bool;
  o_fps : jsnum;
  o_renderFps : jsnum;
  o_properties : option SmoothieProperties
}.

Record Smoothie : Type := mkSmoothie {
  properties : SmoothieProperties;
  stage : Node;
  renderer : Renderer;
  update : Callback;
  interpolate : bool;
  paused : bool;
  _fps : jsnum;
  _frameDuration : jsnum;
  _lag : jsnum;
  _tick : jsnum;
  _startTime : jsnum;
  _renderStartTime : jsnum;
  _renderFps : jsnum;
  _renderDuration : jsnum
}.

(** [!!fps ? 1000 / fps : undefined] *)
Definition duration (rate : jsnum) : jsnum :=
  if truthy rate then jsdiv (Num 1000) rate else undefined.

(** The constructor; [now] is what [Date.now()] returns in it. *)
Definition new_Smoothie (now : Q) (options : SmoothieOptions)
    : Outcome Smoothie :=
  match o_engine options with
  | None =>
      Throw "Please assign a rendering engine as Smoothie's engine option"
  | Some _ =>
  match o_renderer options with
  | None =>
      Throw "Please assign a renderer object as Smoothie's renderer option"
  | Some r =>
  match o_root options with
  | None =>
      Throw "Please assign a root container object (the stage) as Smoothie's rootr option"
  | Some root =>
  match o_update options with
  | None =>
      Throw "Please assign a function that you want to update on each frame as Smoothie's update option"
  | Some u =>
      Done {|
        properties :=
          match o_properties options with
          | None => Properties.mk true true None None None
          | Some p => p
          end;
        stage := root;
        renderer := r;
        update := u;
        interpolate :=
          match o_interpolate options with
          | Some false => false
          | _ => true
          end;
        paused := false;
        _fps := o_fps options;
        _frameDuration := duration (o_fps options);
        _lag := Num 0;
        _tick := Num 0;
        _startTime := Num now;
        _renderStartTime := Num 0;
        _renderFps := o_renderFps options;
        _renderDuration := duration (o_renderFps options)
      |}
  end end end end.

(** Field updates. *)
Definition with_stage (s : Smoothie) (t : Node) : Smoothie :=
  mkSmoothie (properties s) t (renderer s) (update s) (interpolate s)
    (paused s) (_fps s) (_frameDuration s) (_lag s) (_tick s) (_startTime s)
    (_renderStartTime s) (_renderFps s) (_renderDuration s).

Definition with_paused (s : Smoothie) (b : bool) : Smoothie :=
  mkSmoothie (properties s) (stage s) (renderer s) (update s) (interpolate s)
    b (_fps s) (_frameDuration s) (_lag s) (_tick s) (_startTime s)
    (_renderStartTime s) (_renderFps s) (_renderDuration s).

Definition with_lag (s : Smoothie) (v : jsnum) : Smoothie :=
  mkSmoothie (properties s) (stage s) (renderer s) (update s) (interpolate s)
    (paused s) (_fps s) (_frameDuration s) v (_tick s) (_startTime s)
    (_renderStartTime s) (_renderFps s) (_renderDuration s).

Definition with_tick (s : Smoothie) (v : jsnum) : Smoothie :=
  mkSmoothie (properties s) (stage s) (renderer s) (update s) (interpolate s)
    (paused s) (_fps s) (_frameDuration s) (_lag s) v (_startTime s)
    (_renderStartTime s) (_renderFps s) (_renderDuration s).

Definition with_startTime (s : Smoothie) (v : jsnum) : Smoothie :=
  mkSmoothie (properties s) (stage s) (renderer s) (update s) (interpolate s)
    (paused s) (_fps s) (_frameDuration s) (_lag s) (_tick s) v
    (_renderStartTime s) (_renderFps s) (_renderDuration s).

Definition with_renderStartTime (s : Smoothie) (v : jsnum) : Smoothie :=
  mkSmoothie (properties s) (stage s) (renderer s) (update s) (interpolate s)
    (paused s) (_fps s) (_frameDuration s) (_lag s) (_tick s) (_startTime s)
    v (_renderFps s) (_renderDuration s).

(** The accessors and mutators. *)
Definition fps (s : Smoothie) : jsnum := _fps s.

Definition set_fps (s : Smoothie) (value : jsnum) : Smoothie :=
  mkSmoothie (properties s) (stage s) (renderer s) (update s) (interpolate s)
    (paused s) value (duration value) (_lag s) (_tick s) (_startTime s)
    (_renderStartTime s) (_renderFps s) (_renderDuration s).

Definition renderFps (s : Smoothie) : jsnum := _renderFps s.

Definition set_renderFps (s : Smoothie) (value : jsnum) : Smoothie :=
  mkSmoothie (properties s) (stage s) (renderer s) (update s) (interpolate s)
    (paused s) (_fps s) (_frameDuration s) (_lag s) (_tick s) (_startTime s)
    (_renderStartTime s) value (duration value).

Definition dt (s : Smoothie) : jsnum := _tick s.

Definition pause (s : Smoothie) : Smoothie := with_paused s true.
Definition resume (s : Smoothie) : Smoothie := with_paused s false.

(** The object together with the callback's state and the calls made. *)
Record Machine : Type := mkMachine {
  self : Smoothie;
  world : W;
  trace : list Event
}.

Definition on_self (f : Smoothie -> Smoothie) (m : Machine) : Machine :=
  mkMachine (f (self m)) (world m) (trace m).

Definition emit (e : Event) (m : Machine) : Machine :=
  mkMachine (self m) (world m) (trace m ++ [e]).

(** [this.update()] *)
Definition callUpdate (m : Machine) : Machine :=
  let (w, t) := update (self m) (world m) (stage (self m)) in
  mkMachine (with_stage (self m) t) w (trace m ++ [Update]).

(** The parameter [tick = 1]: an argument that is [undefined] takes the
    default. *)
Definition tick_or_default (tick : jsnum) : jsnum :=
  if is_undefined tick then Num 1 else tick.

(** [render(tick = 1)] *)
Definition render (tick : jsnum) (m : Machine) : Machine :=
  let tick := tick_or_default tick in
  let p := properties (self m) in
  let m1 :=
    if interpolate (self m)
    then on_self (fun s => with_stage s
                    (overStage (interpolateSprite p tick) (stage s))) m
    else m in
  let m2 := emit (Draw (stage (self m1))) m1 in
  if interpolate (self m2)
  then on_self (fun s => with_stage s
                  (overStage (restoreSpriteProperties p) (stage s))) m2
  else m2.

(** The tree the renderer is given by [render tick] on a machine. *)
Definition drawn (tick : jsnum) (m : Machine) : Node :=
  if interpolate (self m)
  then overStage (interpolateSprite (properties (self m))
                    (tick_or_default tick)) (stage (self m))
  else stage (self m).

(** One turn of the [while] loop of [doInterpolate]. *)
Definition catchUp (frameDuration : jsnum) (m : Machine) : Machine :=
  let m1 := on_self (fun s => with_stage s
              (capturePreviousSpriteProperties (properties s) (stage s))) m in
  let m2 := callUpdate m1 in
  on_self (fun s => with_lag s (jssub (_lag s) frameDuration)) m2.

(** [while (this._lag >= frameDuration) { ... }], at most [fuel] turns. *)
Fixpoint drain (fuel : nat) (frameDuration : jsnum) (m : Machine)
    : Outcome Machine :=
  if jsge (_lag (self m)) frameDuration then
    match fuel with
    | O => Diverge
    | S fuel' => drain fuel' frameDuration (catchUp frameDuration m)
    end
  else Done m.

(** [doInterpolate]; [now] is what [Date.now()] returns in it. *)
Definition doInterpolate (fuel : nat) (now : Q) (m : Machine)
    : Outcome Machine :=
  let frameDuration := _frameDuration (self m) in
  let current := Num now in
  let elapsed := jssub current (_startTime (self m)) in
  let elapsed := if jsgt elapsed (Num 1000) then frameDuration else elapsed in
  let m := on_self (fun s => with_startTime s current) m in
  let m := on_self (fun s => with_lag s (jsadd (_lag s) elapsed)) m in
  do m <- drain fuel frameDuration m;
  let m := on_self (fun s => with_tick s (jsdiv (_lag s) frameDuration)) m in
  Done (render (_tick (self m)) m).

(** [gameLoop(timestamp)] *)
Definition gameLoop (fuel : nat) (timestamp now : Q) (m : Machine)
    : Outcome Machine :=
  let m := emit RequestFrame m in
  if negb (paused (self m)) then
    if is_undefined (_fps (self m)) then
      Done (render undefined (callUpdate m))
    else if is_undefined (_renderFps (self m))
            || is_undefined (_renderDuration (self m)) then
      doInterpolate fuel now m
    else if jsge (Num timestamp) (_renderStartTime (self m)) then
      do m <- doInterpolate fuel now m;
      Done (on_self (fun s => with_renderStartTime s
                      (jsadd (Num timestamp) (_renderDuration s))) m)
    else Done m
  else Done m.

(** The fields only the constructor and the mutators write, and the
    scheduler clock state. *)
Definition settings (s : Smoothie) :=
  (properties s, update s, interpolate s, paused s,
   (_fps s, _frameDuration s, _renderFps s, _renderDuration s)).

Definition clock (s : Smoothie) : jsnum * jsnum * jsnum * jsnum :=
  (_startTime s, _lag s, _tick s, _renderStartTime s).

(** Drains fed one clock reading each. *)
Fixpoint drains (fuel : nat) (readings : list Q) (m : Machine)
    : Outcome Machine :=
  match readings with
  | [] => Done m
  | now :: rest =>
      do m' <- doInterpolate fuel now m;
      drains fuel rest m'
  end.

(** [start()] *)
Definition start (m : Machine) : Machine := emit RequestFrame m.

End Scheduler.

(* ------------------------------------------------------------------ *)
(** ** Elapsed time *)

(** The clock readings that make the given elapsed times, from [t0]. *)
Fixpoint clock_readings (t0 : Q) (deltas : list Q) : list Q :=
  match deltas with
  | [] => []
  | d :: rest => (t0 + d) :: clock_readings (t0 + d) rest
  end.

(** [if (elapsed > 1000) elapsed = frameDuration] *)
Definition clamp (frameDuration elapsed : Q) : Q :=
  if Qle_bool elapsed 1000 then elapsed else frameDuration.

Definition Qsum (l : list Q) : Q := fold_right Qplus 0 l.

(* ------------------------------------------------------------------ *)
(** ** Reading the trees *)

(** The three walks visit the same nodes: each is one traversal
    applying a function to the fields of every node. *)
Fixpoint walk (g : bool -> Fields -> Fields) (n : Node) : Node :=
  match n with
  | mkNode b f cs => mkNode b (g b f) (map (walk g) cs)
  end.

(** The node reached from [n] by following child indexes. *)
Fixpoint descend (path : list nat) (n : Node) : option Node :=
  match path with
  | [] => Some n
  | i :: rest =>
      match nth_error (children n) i with
      | Some c => descend rest c
      | None => None
      end
  end.

(** No attribute of the node or of its descendants has a previous
    shadow value. *)
Definition fresh (f : Fields) : Prop :=
  _previous (x f) = undefined /\ _previous (y f) = undefined /\
  _previous (rotation f) = undefined /\ _previous (width f) = undefined /\
  _previous (height f) = undefined /\ _previous (scale_x f) = undefined /\
  _previous (scale_y f) = undefined /\ _previous (alpha f) = undefined.

Inductive no_previous : Node -> Prop :=
| no_previous_node b f cs :
    fresh f -> Forall no_previous cs -> no_previous (mkNode b f cs).

(** The nodes the walks visit are the descendants of the root. *)
Definition stage_no_previous (stage : Node) : Prop :=
  Forall no_previous (children stage).

(** Live values that are the same numbers. *)
Inductive live_equiv : LiveTree -> LiveTree -> Prop :=
| live_equiv_node b vs vs' ks ks' :
    Forall2 jseq vs vs' ->
    Forall2 live_equiv ks ks' ->
    live_equiv (LiveNode b vs ks) (LiveNode b vs' ks').

(** An attribute the blend formula is meant for: the live value is a
    number and the previous one is a number or absent. *)
Definition numeric_attr (a : Attr) : Prop :=
  (exists q, live a = Num q) /\ _previous a <> NaN.

Definition numeric_fields (f : Fields) : Prop :=
  numeric_attr (x f) /\ numeric_attr (y f) /\ numeric_attr (rotation f) /\
  numeric_attr (width f) /\ numeric_attr (height f) /\
  numeric_attr (scale_x f) /\ numeric_attr (scale_y f) /\
  numeric_attr (alpha f).

Inductive numeric : Node -> Prop :=
| numeric_node b f cs :
    numeric_fields f -> Forall numeric cs -> numeric (mkNode b f cs).

(** The attribute categories of [SmoothieProperties], the flag of each
    and the attributes each one covers. *)
Inductive Category : Type := Position | Rotation | Size | Scale | Alpha.

Definition enabled (p : SmoothieProperties) (c : Category) : bool :=
  match c with
  | Position => Properties.position p
  | Rotation => Properties.rotation p
  | Size => flag (Properties.size p)
  | Scale => flag (Properties.scale p)
  | Alpha => flag (Properties.alpha p)
  end.

Definition attrs_of (c : Category) (f : Fields) : list Attr :=
  match c with
  | Position => [x f; y f]
  | Rotation => [rotation f]
  | Size => [width f; height f]
  | Scale => [scale_x f; scale_y f]
  | Alpha => [alpha f]
  end.

(** The categories [interpolateSprite] and [restoreSpriteProperties]
    work on for a node: the enabled ones, size only on a [Sprite]. *)
Definition interpolated (p : SmoothieProperties) (sprite : bool)
    (c : Category) : bool :=
  match c with
  | Size => enabled p Size && sprite
  | _ => enabled p c
  end.

(** The tree of one slot of every attribute, as [observe] is for the
    live values. *)
Definition slot_fields (slot : Attr -> jsnum) (f : Fields) : list jsnum :=
  [slot (x f); slot (y f); slot (rotation f); slot (width f);
   slot (height f); slot (scale_x f); slot (scale_y f); slot (alpha f)].

Fixpoint slots (slot : Attr -> jsnum) (n : Node) : LiveTree :=
  match n with
  | mkNode b f cs => LiveNode b (slot_fields slot f) (map (slots slot) cs)
  end.


(* ------------------------------------------------------------------ *)
(** ** Runs of the scheduler *)

Section Runs.
Context {W Engine Renderer : Type}.

(** The host calls [gameLoop] once per display refresh; each call comes
    with its timestamp and with what [Date.now()] would return in it. *)
Fixpoint run (fuel : nat) (calls : list (Q * Q)) (m : @Machine W Renderer)
    : Outcome (@Machine W Renderer) :=
  match calls with
  | [] => Done m
  | (timestamp, now) :: rest =>
      do m' <- gameLoop fuel timestamp now m;
      run fuel rest m'
  end.

(** What a client can do with the object once it is constructed. *)
Inductive Op : Type :=
| CallGameLoop (timestamp now : Q)
| CallPause
| CallResume
| SetFps (value : jsnum)
| SetRenderFps (value : jsnum).

Definition perform1 (fuel : nat) (op : Op) (m : @Machine W Renderer)
    : Outcome (@Machine W Renderer) :=
  match op with
  | CallGameLoop timestamp now => gameLoop fuel timestamp now m
  | CallPause => Done (on_self pause m)
  | CallResume => Done (on_self resume m)
  | SetFps value => Done (on_self (fun s => set_fps s value) m)
  | SetRenderFps value => Done (on_self (fun s => set_renderFps s value) m)
  end.

Fixpoint perform (fuel : nat) (ops : list Op) (m : @Machine W Renderer)
    : Outcome (@Machine W Renderer) :=
  match ops with
  | [] => Done m
  | op :: rest => do m' <- perform1 fuel op m; perform fuel rest m'
  end.

(** The operation leaves the logic rate unset. *)
Definition keeps_fps_unset (op : Op) : Prop :=
  match op with
  | SetFps value => value = undefined
  | _ => True
  end.

(** The callback does not write previous shadow values itself. *)
Definition keeps_no_previous (u : @Callback W) : Prop :=
  forall w t, stage_no_previous t -> stage_no_previous (snd (u w t)).

(** The number of calls of the game loop among the operations, and the
    number of times the loop re-registered itself in a trace. *)
Definition game_loop_calls (ops : list Op) : nat :=
  List.length
    (filter (fun op => match op with CallGameLoop _ _ => true | _ => false end)
       ops).

Definition count_frames (t : list Event) : nat :=
  List.length
    (filter (fun e => match e with RequestFrame => true | _ => false end) t).


(** The callback leaves the previous shadow values and the shape of the
    tree alone. *)
Definition keeps_previous (u : @Callback W) : Prop :=
  forall w t, slots _previous (snd (u w t)) = slots _previous t.

(** What holds of the object as long as no logic rate is set. *)
Definition unset_invariant (m : @Machine W Renderer) : Prop :=
  _fps (self m) = undefined /\
  stage_no_previous (stage (self m)) /\
  keeps_no_previous (update (self m)).

(** A rate a client means: none, or a positive number. *)
Definition rate_ok (v : jsnum) : Prop :=
  v = undefined \/ exists f, v = Num f /\ 0 < f.

(** The clock does not go back over the calls, from reading [t] on, and
    the logic rates set are rates. *)
Fixpoint clock_ok (t : Q) (ops : list Op) : Prop :=
  match ops with
  | [] => True
  | CallGameLoop _ now :: rest => t <= now /\ clock_ok now rest
  | SetFps value :: rest => rate_ok value /\ clock_ok t rest
  | _ :: rest => clock_ok t rest
  end.

Fixpoint last_reading (t : Q) (ops : list Op) : Q :=
  match ops with
  | [] => t
  | CallGameLoop _ now :: rest => last_reading now rest
  | _ :: rest => last_reading t rest
  end.

(** What the drain relies on, [t] being the latest clock reading: the
    tick duration, when there is a logic rate, is a positive number; the
    lag is a number and not negative; the start time is not ahead of the
    clock. *)
Definition healthy (t : Q) (m : @Machine W Renderer) : Prop :=
  (_fps (self m) = undefined \/
   exists d, _frameDuration (self m) = Num d /\ 0 < d) /\
  exists l t0,
    _lag (self m) = Num l /\ 0 <= l /\
    _startTime (self m) = Num t0 /\ t0 <= t.

End Runs.

(* ------------------------------------------------------------------ *)
(** ** A small scene *)

(** An attribute that has never been captured. *)
Definition attr (v : Q) : Attr := mkAttr (Num v) undefined undefined.

(** A sprite at (10, 20) whose previous x and y were captured at 0. *)
Definition ball : Node :=
  mkNode true
    (mkFields (mkAttr (Num 10) undefined (Num 0))
              (mkAttr (Num 20) undefined (Num 0))
              (attr 0) (attr 80) (attr 80) (attr 1) (attr 1) (attr 1))
    [].

(** A sprite that has never been captured. *)
Definition new_ball : Node :=
  mkNode true
    (mkFields (attr 10) (attr 20) (attr 0) (attr 80) (attr 80)
              (attr 1) (attr 1) (attr 1))
    [].

Definition container (cs : list Node) : Node :=
  mkNode false
    (mkFields (attr 0) (attr 0) (attr 0) (attr 0) (attr 0)
              (attr 1) (attr 1) (attr 1))
    cs.

(** A callback with no state of its own that leaves the tree alone. *)
Definition idle : @Callback unit := fun w t => (w, t).

Definition demo_options (root : Node) (fps renderFps : jsnum)
    : @SmoothieOptions unit unit unit :=
  mkOptions (Some tt) (Some tt) (Some root) (Some idle) (Some true)
    fps renderFps None.

(** The object the constructor makes from [demo_options] at time 0, ready
    to run. *)
Definition demo (root : Node) (fps renderFps : jsnum)
    : @Machine unit unit :=
  match new_Smoothie 0 (demo_options root fps renderFps) with
  | Done s => mkMachine s tt []
  | _ => mkMachine
           (mkSmoothie (Properties.mk true true None None None) root tt idle
              true false undefined undefined NaN NaN NaN NaN undefined undefined)
           tt []
  end.

(** Logic at 60 steps per second, rendering uncapped. *)
Definition fixed_rate : @Machine unit unit :=
  demo (container [ball]) (Num 60) undefined.

(** Logic at 60 steps per second, rendering capped at 30 per second. *)
Definition capped : @Machine unit unit :=
  demo (container [ball]) (Num 60) (Num 30).

(** No logic rate, no render cap, a tree never captured. *)
Definition free_running : @Machine unit unit :=
  demo (container [container [new_ball]]) undefined undefined.

(** No logic rate, but a render cap of 30 per second. *)
Definition free_running_capped : @Machine unit unit :=
  demo (container [ball]) undefined (Num 30).

(** The numbers of callback calls of successive drains. *)
Fixpoint updates_per_drain {W Renderer : Type} (fuel : nat)
    (readings : list Q) (m : @Machine W Renderer) : list nat :=
  match readings with
  | [] => []
  | now :: rest =>
      match doInterpolate fuel now m with
      | Done m' =>
          (count_updates (trace m') - count_updates (trace m))%nat
          :: updates_per_drain fuel rest m'
      | _ => []
      end
  end.

(* ------------------------------------------------------------------ *)
(** ** The application: a ball on a board

    The client of the scheduler ([src/unnamed/part_000]): the logic
    callback [smoothie_update], the click handler and the handler of a
    pushed value.  [ball.sprite] is carried beside the ball, as the
    attributes of the sprite; [screen_width] and [screen_height] are
    [engine.renderer.width] and [engine.renderer.height]. *)

Definition jsle (a b : jsnum) : bool := jsge b a.

Module App.

Record BoardObject : Type := mkBoardObject {
  velX : jsnum;
  velY : jsnum;
  bounce : jsnum;
  friction : jsnum
}.

Record World : Type := mkWorld {
  ball : BoardObject;
  screen_width : jsnum;
  screen_height : jsnum
}.

(** [sprite.x = v]: the live value is written, the shadows are not. *)
Definition assign (a : Attr) (v : jsnum) : Attr :=
  mkAttr v (_current a) (_previous a).

(** [smoothie_update()] *)
Definition smoothie_update (w : World) (sprite : Fields) : World * Fields :=
  let b := ball w in
  let velX1 :=
    if jsge (jsadd (live (x sprite)) (jsdiv (live (width sprite)) (Num 2)))
            (screen_width w)
       || jsle (jssub (live (x sprite)) (jsdiv (live (width sprite)) (Num 2)))
               (Num 0)
    then jsmul (velX b) (Num (-1))
    else velX b in
  let velY1 :=
    if jsle (jssub (live (y sprite))
                   (jsmul (live (height sprite)) (Num (1 # 2))))
            (Num 0)
       || jsge (jsadd (live (y sprite))
                      (jsmul (live (height sprite)) (Num (1 # 2))))
               (screen_height w)
    then jsmul (velY b) (Num (-1))
    else velY b in
  let x1 := jsadd (live (x sprite)) velX1 in
  let y1 := jsadd (live (y sprite)) velY1 in
  let velX2 := jsmul velX1 (friction b) in
  let velY2 := jsmul velY1 (friction b) in
  let rotation1 := jsadd (live (rotation sprite)) (Num (1 # 10)) in
  (mkWorld (mkBoardObject velX2 velY2 (bounce b) (friction b))
     (screen_width w) (screen_height w),
   mkFields (assign (x sprite) x1) (assign (y sprite) y1)
     (assign (rotation sprite) rotation1)
     (width sprite) (height sprite) (scale_x sprite) (scale_y sprite)
     (alpha sprite)).

(** [n] logic steps in a row. *)
Fixpoint steps (n : nat) (w : World) (sprite : Fields) : World * Fields :=
  match n with
  | O => (w, sprite)
  | S k => let (w', sprite') := smoothie_update w sprite in steps k w' sprite'
  end.

(** The value a client pushes to the others: [pushedValue]. *)
Record pushedValue : Type := mkPushedValue {
  pushed_velX : jsnum;
  pushed_velY : jsnum;
  pushed_x : jsnum;
  pushed_y : jsnum
}.

(** [onClick()], with the pointer position; it returns the ball and the
    value it pushes. *)
Definition onClick (pointer_x pointer_y : jsnum) (b : BoardObject)
    (sprite : Fields) : BoardObject * pushedValue :=
  let X := jssub (live (x sprite)) pointer_x in
  let Y := jssub (live (y sprite)) pointer_y in
  let velX1 := jsadd (velX b) (jsmul (bounce b) (jsdiv X (Num 10))) in
  let velY1 := jsadd (velY b) (jsmul (bounce b) (jsdiv Y (Num 10))) in
  (mkBoardObject velX1 velY1 (bounce b) (friction b),
   mkPushedValue velX1 velY1 (live (x sprite)) (live (y sprite))).

(** [updateBall()], with the value read from the pusher. *)
Definition updateBall (value : pushedValue) (b : BoardObject)
    (sprite : Fields) : BoardObject * Fields :=
  (mkBoardObject (pushed_velX value) (pushed_velY value)
     (bounce b) (friction b),
   mkFields (assign (x sprite) (pushed_x value))
     (assign (y sprite) (pushed_y value))
     (rotation sprite) (width sprite) (height sprite)
     (scale_x sprite) (scale_y sprite) (alpha sprite)).

End App.

(** [q] to the power [n]. *)
Fixpoint Qpow (q : Q) (n : nat) : Q :=
  match n with
  | O => 1
  | S k => q * Qpow q k
  end.

(** The board of the application: a 600 by 600 screen, a ball with
    bounce 10 and friction 0.95 moving at (5, -4). *)
Definition board : App.World :=
  App.mkWorld
    (App.mkBoardObject (Num 5) (Num (-4)) (Num 10) (Num (95 # 100)))
    (Num 600) (Num 600).

(** The attributes of an 80 by 80 sprite at a given position. *)
Definition sprite_at (px py : Q) : Fields :=
  mkFields (attr px) (attr py) (attr 0) (attr 80) (attr 80)
    (attr 1) (attr 1) (attr 1).

(* ------------------------------------------------------------------ *)
(** ** Double precision

    The class computes its times in IEEE 754 doubles: every sum,
    difference and quotient is rounded to the nearest number with a
    53-bit significand, a tie going to the even one.  [round53] is that
    rounding, on the rationals.  Overflow to an infinity and the gradual
    underflow below 2^-1022 are not in it: it is the rounding of the
    program for a result that is zero or between 2^-1022 and 2^1024 in
    absolute value, and for every sum and difference of doubles below
    2^1024 (in the underflow range these are exact).

    [Double] is the logic clock of the class in this arithmetic: the two
    divisions of the constructor, the subtraction, the addition, the loop
    and the division of [doInterpolate], the addition of [gameLoop].
    Comparisons of doubles are exact.  The walks over the scene keep the
    arithmetic above. *)

Definition pow2 (k : Z) : Q := 2 ^ k.

(** The integer part of the binary logarithm of a positive rational. *)
Definition ilog2 (x : Q) : Z :=
  let k := (Z.log2 (Qnum x) - Z.log2 (Zpos (Qden x)))%Z in
  if Qle_bool (pow2 k) x then k else (k - 1)%Z.

(** The nearest integer, the even one of the two when [x] is half-way. *)
Definition nearest_even (x : Q) : Z :=
  let f := Qfloor x in
  match Qcompare (x - inject_Z f) (1 # 2) with
  | Lt => f
  | Gt => (f + 1)%Z
  | Eq => if Z.even f then f else (f + 1)%Z
  end.

(** The nearest number [m * 2^e] with [2^52 <= |m| <= 2^53]. *)
Definition round53 (x : Q) : Q :=
  let x := Qred x in
  if Qeq_bool x 0 then 0
  else let e := (ilog2 (Qabs x) - 52)%Z in
       Qred (inject_Z (nearest_even (x / pow2 e)) * pow2 e).

(** The largest relative error of one rounding, 2^-53. *)
Definition unit_roundoff : Q := 1 # 9007199254740992.

Module Double.

Definition jsadd := jsarith (fun p q => round53 (p + q)).
Definition jssub := jsarith (fun p q => round53 (p - q)).

(** As [jsdiv] above, the quotient rounded. *)
Definition jsdiv (a b : jsnum) : jsnum :=
  match a, b with
  | Num p, Num q => if Qeq_bool q 0 then NaN else Num (round53 (p / q))
  | _, _ => NaN
  end.

(** [!!fps ? 1000 / fps : undefined] *)
Definition duration (rate : jsnum) : jsnum :=
  if truthy rate then jsdiv (Num 1000) rate else undefined.

Section Scheduler.
Context {W Engine Renderer : Type}.

Definition with_durations (s : @Smoothie W Renderer) (fd rd : jsnum)
    : @Smoothie W Renderer :=
  mkSmoothie (properties s) (stage s) (renderer s) (update s) (interpolate s)
    (paused s) (_fps s) fd (_lag s) (_tick s) (_startTime s)
    (_renderStartTime s) (_renderFps s) rd.

(** The constructor: the one above, its two tick durations rounded. *)
Definition new_Smoothie (now : Q)
    (options : @SmoothieOptions W Engine Renderer)
    : Outcome (@Smoothie W Renderer) :=
  do s <- new_Smoothie now options;
  Done (with_durations s (duration (o_fps options))
          (duration (o_renderFps options))).

(** One turn of the [while] loop of [doInterpolate]. *)
Definition catchUp (frameDuration : jsnum) (m : @Machine W Renderer)
    : @Machine W Renderer :=
  let m1 := on_self (fun s => with_stage s
              (capturePreviousSpriteProperties (properties s) (stage s))) m in
  let m2 := callUpdate m1 in
  on_self (fun s => with_lag s (jssub (_lag s) frameDuration)) m2.

(** [while (this._lag >= frameDuration) { ... }], at most [fuel] turns. *)
Fixpoint drain (fuel : nat) (frameDuration : jsnum) (m : @Machine W Renderer)
    : Outcome (@Machine W Renderer) :=
  if jsge (_lag (self m)) frameDuration then
    match fuel with
    | O => Diverge
    | S fuel' => drain fuel' frameDuration (catchUp frameDuration m)
    end
  else Done m.

(** [doInterpolate]; [now] is what [Date.now()] returns in it. *)
Definition doInterpolate (fuel : nat) (now : Q) (m : @Machine W Renderer)
    : Outcome (@Machine W Renderer) :=
  let frameDuration := _frameDuration (self m) in
  let current := Num now in
  let elapsed := jssub current (_startTime (self m)) in
  let elapsed := if jsgt elapsed (Num 1000) then frameDuration else elapsed in
  let m := on_self (fun s => with_startTime s current) m in
  let m := on_self (fun s => with_lag s (jsadd (_lag s) elapsed)) m in
  do m <- drain fuel frameDuration m;
  let m := on_self (fun s => with_tick s (jsdiv (_lag s) frameDuration)) m in
  Done (render (_tick (self m)) m).

(** [gameLoop(timestamp)] *)
Definition gameLoop (fuel : nat) (timestamp now : Q) (m : @Machine W Renderer)
    : Outcome (@Machine W Renderer) :=
  let m := emit RequestFrame m in
  if negb (paused (self m)) then
    if is_undefined (_fps (self m)) then
      Done (render undefined (callUpdate m))
    else if is_undefined (_renderFps (self m))
            || is_undefined (_renderDuration (self m)) then
      doInterpolate fuel now m
    else if jsge (Num timestamp) (_renderStartTime (self m)) then
      do m <- doInterpolate fuel now m;
      Done (on_self (fun s => with_renderStartTime s
                      (jsadd (Num timestamp) (_renderDuration s))) m)
    else Done m
  else Done m.

(** Drains fed one clock reading each. *)
Fixpoint drains (fuel : nat) (readings : list Q) (m : @Machine W Renderer)
    : Outcome (@Machine W Renderer) :=
  match readings with
  | [] => Done m
  | now :: rest =>
      do m' <- doInterpolate fuel now m;
      drains fuel rest m'
  end.

(** Calls of the game loop by the host, one per display refresh. *)
Fixpoint run (fuel : nat) (calls : list (Q * Q)) (m : @Machine W Renderer)
    : Outcome (@Machine W Renderer) :=
  match calls with
  | [] => Done m
  | (timestamp, now) :: rest =>
      do m' <- gameLoop fuel timestamp now m;
      run fuel rest m'
  end.

End Scheduler.
End Double.

(** The tick duration [d] is not negligible against the times a drain
    adds and subtracts, lag [l] beforehand: one rounding of such a time is
    at most half a tick duration.  (A tick duration that is absorbed by
    the subtraction leaves the lag where it was, and the loop does not
    end.)  These times stay far below the overflow threshold. *)
Definition moderate (d l : Q) : Prop :=
  2 * ((l + 2 * d + 1000) * unit_roundoff) <= d /\
  l + 2 * d + 1000 <= pow2 1000.

(** The calls of the host from notification [a] on, [n] of them:
    notification [k] comes with the timestamp [ts k], and [reading k] is
    what [Date.now()] returns during it. *)
Definition notifications (ts reading : nat -> Q) (a n : nat)
    : list (Q * Q) :=
  map (fun k => (ts k, reading k)) (seq a n).

(** Where a capped object stands when a notification arrives: it
    rendered on the one before; or the next render time is reached by the
    next notification at the latest; or it is reached now. *)
Inductive Phase : Type := JustRendered | DueNext | DueNow.

Definition rendered (j : Phase) : nat :=
  match j with JustRendered => 1 | _ => 0 end.

Definition waited (j : Phase) : nat :=
  match j with JustRendered => 2 | DueNext => 1 | DueNow => 0 end.

(** Logic at 60 per second, rendering capped at 30 per second, in
    doubles: what holds of the object when notification [a] arrives. *)
Definition on_cadence {W Renderer : Type} (ts reading : nat -> Q) (a : nat)
    (j : Phase) (m : @Machine W Renderer) : Prop :=
  paused (self m) = false /\
  _fps (self m) = Num 60 /\
  _frameDuration (self m) = Num (round53 (1000 / 60)) /\
  _renderFps (self m) = Num 30 /\
  _renderDuration (self m) = Num (round53 (1000 / 30)) /\
  exists l t rs,
    _lag (self m) = Num l /\ 0 <= l /\ l < round53 (1000 / 60) /\
    _startTime (self m) = Num t /\ t <= reading a /\
    _renderStartTime (self m) = Num rs /\
    match j with
    | JustRendered => ts a < rs /\ rs <= ts (a + 2)%nat
    | DueNext => rs <= ts (a + 1)%nat
    | DueNow => rs <= ts a
    end.

(** The object the constructor makes from [demo_options] at time 0, in
    doubles. *)
Definition demo_in_doubles (root : Node) (fps renderFps : jsnum)
    : @Machine unit unit :=
  match Double.new_Smoothie 0 (demo_options root fps renderFps) with
  | Done s => mkMachine s tt []
  | _ => demo root fps renderFps
  end.

(** The numbers of renders of successive calls of the game loop. *)
Fixpoint draws_per_call {W Renderer : Type} (fuel : nat)
    (calls : list (Q * Q)) (m : @Machine W Renderer) : list nat :=
  match calls with
  | [] => []
  | (timestamp, now) :: rest =>
      match Double.gameLoop fuel timestamp now m with
      | Done m' =>
          (count_draws (trace m') - count_draws (trace m))%nat
          :: draws_per_call fuel rest m'
      | _ => []
      end
  end.

(* ------------------------------------------------------------------ *)
(** ** Sprites of the rendering library

    The class is written for the display objects of PIXI, whose [width]
    and [height] are accessors over the scale: the width of a sprite is
    the absolute value of [scale.x] times the width of its texture, and
    writing it sets [scale.x] to the value over the width of the texture,
    with the sign the scale had.  The comments of the class at its size
    blocks speak of this scaling.  The library is outside [src]; the
    accessors below are its documented behaviour.

    In this reading of a [Node] the live cells of [width] and [height]
    hold the size of the sprite's texture, which the walks never write,
    and the width a reader sees is computed by [get_width].  For a
    container the cells hold the size of its local bounds as they are
    when the width is read; these follow the children, and nothing is
    stated below of the width of a container after a walk has moved its
    children.  The three walks are the ones above with [sprite.width] and
    [sprite.height] going through the accessors, in the order of the
    source: the size block comes before the scale block. *)

Module Pixi.

Definition texture_width (f : Fields) : jsnum := live (width f).
Definition texture_height (f : Fields) : jsnum := live (height f).

(** [Math.abs] *)
Definition jsabs (v : jsnum) : jsnum :=
  match v with
  | Num q => Num (Qabs q)
  | _ => NaN
  end.

(** [sign(n) || 1], the library's [sign] being
    [if (n === 0) return 0; return n < 0 ? -1 : 1]. *)
Definition sign_or_1 (v : jsnum) : jsnum :=
  match v with
  | Num q => if Qle_bool 0 q then Num 1 else Num (-1)
  | _ => Num 1
  end.

Definition write (a : Attr) (v : jsnum) : Attr :=
  {| live := v; _current := _current a; _previous := _previous a |}.

Definition with_scale_x (f : Fields) (a : Attr) : Fields :=
  mkFields (x f) (y f) (rotation f) (width f) (height f) a (scale_y f)
    (alpha f).

Definition with_scale_y (f : Fields) (a : Attr) : Fields :=
  mkFields (x f) (y f) (rotation f) (width f) (height f) (scale_x f) a
    (alpha f).

Definition with_width (f : Fields) (a : Attr) : Fields :=
  mkFields (x f) (y f) (rotation f) a (height f) (scale_x f) (scale_y f)
    (alpha f).

Definition with_height (f : Fields) (a : Attr) : Fields :=
  mkFields (x f) (y f) (rotation f) (width f) a (scale_x f) (scale_y f)
    (alpha f).

(** [get width()]: of a sprite, [Math.abs(this.scale.x)] times the
    width of the texture; of a container, [this.scale.x] times the width
    of its local bounds. *)
Definition get_width (sprite : bool) (f : Fields) : jsnum :=
  if sprite
  then jsmul (jsabs (live (scale_x f))) (texture_width f)
  else jsmul (live (scale_x f)) (texture_width f).

Definition get_height (sprite : bool) (f : Fields) : jsnum :=
  if sprite
  then jsmul (jsabs (live (scale_y f))) (texture_height f)
  else jsmul (live (scale_y f)) (texture_height f).

(** [set width(value)] of a sprite:
    [this.scale.x = (sign(this.scale.x) || 1) * value / texture width]. *)
Definition set_width (value : jsnum) (f : Fields) : Fields :=
  with_scale_x f
    (write (scale_x f)
       (jsdiv (jsmul (sign_or_1 (live (scale_x f))) value) (texture_width f))).

Definition set_height (value : jsnum) (f : Fields) : Fields :=
  with_scale_y f
    (write (scale_y f)
       (jsdiv (jsmul (sign_or_1 (live (scale_y f))) value) (texture_height f))).

(** The attributes as a reader of the object finds them: the width and
    the height through the accessors. *)
Definition seen_fields (sprite : bool) (f : Fields) : Fields :=
  with_height (with_width f (write (width f) (get_width sprite f)))
    (write (height f) (get_height sprite f)).

Definition seen (n : Node) : Node := walk seen_fields n.

(** The body of [setProperties]: [sprite._previousWidth = sprite.width]
    reads the accessor, on every kind of node. *)
Definition captureFields (p : SmoothieProperties) (sprite : bool)
    (f : Fields) : Fields :=
  {| x := on (Properties.position p) capture (x f);
     y := on (Properties.position p) capture (y f);
     rotation := on (Properties.rotation p) capture (rotation f);
     width :=
       if flag (Properties.size p)
       then mkAttr (live (width f)) (_current (width f)) (get_width sprite f)
       else width f;
     height :=
       if flag (Properties.size p)
       then mkAttr (live (height f)) (_current (height f))
              (get_height sprite f)
       else height f;
     scale_x := on (flag (Properties.scale p)) capture (scale_x f);
     scale_y := on (flag (Properties.scale p)) capture (scale_y f);
     alpha := on (flag (Properties.alpha p)) capture (alpha f) |}.

(** The size block of [interpolateSprite], on a sprite:
    [sprite._currentWidth = sprite.width], the same for the height, then
    the two writes through the accessors. *)
Definition interpolateSize (tick : jsnum) (f : Fields) : Fields :=
  let f := with_width f
             (mkAttr (live (width f)) (get_width true f)
                (_previous (width f))) in
  let f := with_height f
             (mkAttr (live (height f)) (get_height true f)
                (_previous (height f))) in
  let f := if is_undefined (_previous (width f)) then f
           else set_width
                  (blend (get_width true f) (_previous (width f)) tick) f in
  if is_undefined (_previous (height f)) then f
  else set_height (blend (get_height true f) (_previous (height f)) tick) f.

(** The body of [interpolateSprite]: the scale block reads the scale
    the size block left. *)
Definition interpolateFields (p : SmoothieProperties) (tick : jsnum)
    (sprite : bool) (f : Fields) : Fields :=
  let g := if flag (Properties.size p) && sprite
           then interpolateSize tick f else f in
  {| x := on (Properties.position p) (interpolateAttr tick) (x f);
     y := on (Properties.position p) (interpolateAttr tick) (y f);
     rotation := on (Properties.rotation p) (interpolateAttr tick) (rotation f);
     width := width g;
     height := height g;
     scale_x := on (flag (Properties.scale p)) (interpolateAttr tick) (scale_x g);
     scale_y := on (flag (Properties.scale p)) (interpolateAttr tick) (scale_y g);
     alpha := on (flag (Properties.alpha p)) (interpolateAttr tick) (alpha f) |}.

(** The size block of [restoreSpriteProperties], on a sprite. *)
Definition restoreSize (f : Fields) : Fields :=
  set_height (_current (height f)) (set_width (_current (width f)) f).

(** The body of [restoreSpriteProperties]. *)
Definition restoreFields (p : SmoothieProperties) (sprite : bool)
    (f : Fields) : Fields :=
  let g := if flag (Properties.size p) && sprite then restoreSize f else f in
  {| x := on (Properties.position p) restore (x f);
     y := on (Properties.position p) restore (y f);
     rotation := on (Properties.rotation p) restore (rotation f);
     width := width g;
     height := height g;
     scale_x := on (flag (Properties.scale p)) restore (scale_x g);
     scale_y := on (flag (Properties.scale p)) restore (scale_y g);
     alpha := on (flag (Properties.alpha p)) restore (alpha f) |}.

Definition capturePreviousSpriteProperties (p : SmoothieProperties)
    (stage : Node) : Node :=
  overStage (walk (captureFields p)) stage.

(** The tree [render(tick)] hands to the renderer, and the tree it
    leaves. *)
Definition drawn (p : SmoothieProperties) (interpolate : bool) (tick : jsnum)
    (stage : Node) : Node :=
  if interpolate
  then overStage (walk (interpolateFields p (tick_or_default tick))) stage
  else stage.

Definition render (p : SmoothieProperties) (interpolate : bool) (tick : jsnum)
    (stage : Node) : Node :=
  if interpolate
  then overStage (walk (restoreFields p)) (drawn p interpolate tick stage)
  else stage.

End Pixi.

(** A category that is off on a node and not tied to one that is on.
    The size and the scale of a sprite are one quantity: its size is free
    when the scale is off as well, its scale when the size is.  The width
    of a container follows its children and is not counted; its scale is
    free whenever the scale is off, the size blocks passing containers
    by. *)
Definition untied (p : SmoothieProperties) (sprite : bool) (c : Category)
    : bool :=
  match c with
  | Size => sprite && negb (enabled p Size) && negb (enabled p Scale)
  | Scale => negb (enabled p Scale) && negb (enabled p Size && sprite)
  | _ => negb (enabled p c)
  end.

(** A sprite at (10, 20) with an 80 by 80 texture, at scale [s]. *)
Definition textured (s : Q) : Node :=
  mkNode true
    (mkFields (attr 10) (attr 20) (attr 0) (attr 80) (attr 80)
              (attr s) (attr s) (attr 1))
    [].

Definition every_category : SmoothieProperties :=
  Properties.mk true true (Some true) (Some true) (Some true).

(** A logic step that brings every object below the root to scale 1. *)
Definition grow (stage : Node) : Node :=
  overStage (walk (fun _ f =>
    Pixi.with_scale_y (Pixi.with_scale_x f (Pixi.write (scale_x f) (Num 1)))
      (Pixi.write (scale_y f) (Num 1)))) stage.

(** The width and the horizontal scale a reader finds on the first
    object below the root. *)
Definition size_and_scale (n : Node) : option (jsnum * jsnum) :=
  option_map (fun c => (live (width (fields c)), live (scale_x (fields c))))
    (descend [0%nat] (Pixi.seen n)).

(* ------------------------------------------------------------------ *)
(** ** Tree lemmas *)

Lemma setProperties_walk p n :
  setProperties p n = walk (fun _ => captureFields p) n.
Proof.
  induction n as [b f cs IH] using Node_forall_ind; simpl.
  f_equal. now apply map_ext_Forall.
Qed.

Lemma interpolateSprite_walk p tick n :
  interpolateSprite p tick n = walk (interpolateFields p tick) n.
Proof.
  induction n as [b f cs IH] using Node_forall_ind; simpl.
  f_equal. now apply map_ext_Forall.
Qed.

Lemma restoreSpriteProperties_walk p n :
  restoreSpriteProperties p n = walk (restoreFields p) n.
Proof.
  induction n as [b f cs IH] using Node_forall_ind; simpl.
  f_equal. now apply map_ext_Forall.
Qed.

Lemma walk_walk g h n :
  walk g (walk h n) = walk (fun b f => g b (h b f)) n.
Proof.
  induction n as [b f cs IH] using Node_forall_ind; simpl.
  f_equal. rewrite map_map. now apply map_ext_Forall.
Qed.

Lemma observe_walk g n :
  (forall b f, live_fields (g b f) = live_fields f) ->
  observe (walk g n) = observe n.
Proof.
  intros Hg.
  induction n as [b f cs IH] using Node_forall_ind; simpl.
  rewrite Hg, map_map. f_equal. now apply map_ext_Forall.
Qed.

Lemma descend_walk g path : forall n,
  descend path (walk g n) = option_map (walk g) (descend path n).
Proof.
  induction path as [|i rest IH]; intros [b f cs]; simpl; [reflexivity|].
  rewrite nth_error_map.
  destruct (nth_error cs i) as [c|]; simpl; [apply IH | reflexivity].
Qed.

Lemma descend_overStage visit i rest stage :
  descend (i :: rest) (overStage visit stage) =
  match nth_error (children stage) i with
  | Some c => descend rest (visit c)
  | None => None
  end.
Proof.
  destruct stage as [b f cs]; simpl. rewrite nth_error_map.
  now destruct (nth_error cs i).
Qed.

Lemma observe_overStage visit stage :
  (forall n, observe (visit n) = observe n) ->
  observe (overStage visit stage) = observe stage.
Proof.
  intros Hv. destruct stage as [b f cs]; simpl.
  rewrite map_map. f_equal. apply map_ext. exact Hv.
Qed.

Lemma overStage_overStage g h stage :
  overStage g (overStage h stage) = overStage (fun n => g (h n)) stage.
Proof. destruct stage as [b f cs]; simpl. now rewrite map_map. Qed.

(** Restoring what the interpolation pass left gives the live value the
    attribute had before the pass: the same flag guards both. *)
Lemma restore_interpolateAttr b tick a :
  live (on b restore (on b (interpolateAttr tick) a)) = live a.
Proof. now destruct b. Qed.

Lemma restore_interpolateFields p tick b f :
  live_fields (restoreFields p b (interpolateFields p tick b f)) =
  live_fields f.
Proof.
  unfold live_fields, restoreFields, interpolateFields; simpl.
  now rewrite !restore_interpolateAttr.
Qed.

Lemma restore_interpolateSprite p tick n :
  observe (restoreSpriteProperties p (interpolateSprite p tick n)) =
  observe n.
Proof.
  rewrite restoreSpriteProperties_walk, interpolateSprite_walk, walk_walk.
  apply observe_walk. intros. apply restore_interpolateFields.
Qed.

(* ------------------------------------------------------------------ *)
(** ** The render call *)

Section RenderFacts.
Context {W Renderer : Type}.
Implicit Types (m : @Machine W Renderer) (s : @Smoothie W Renderer).

Lemma with_stage_same s : with_stage s (stage s) = s.
Proof. now destruct s. Qed.

Lemma render_trace tick m :
  trace (render tick m) = trace m ++ [Draw (drawn tick m)].
Proof.
  unfold render, drawn, tick_or_default.
  destruct m as [s w t]; simpl.
  destruct (interpolate s) eqn:E; simpl; rewrite ?E; reflexivity.
Qed.

Lemma render_self tick m :
  self (render tick m) =
  with_stage (self m)
    (if interpolate (self m)
     then overStage (restoreSpriteProperties (properties (self m)))
            (drawn tick m)
     else stage (self m)).
Proof.
  unfold render, drawn, tick_or_default.
  destruct m as [s w t]; simpl.
  destruct (interpolate s) eqn:E; simpl; rewrite ?E; simpl.
  - reflexivity.
  - now rewrite with_stage_same.
Qed.

End RenderFacts.

(* ------------------------------------------------------------------ *)
(** ** Rational arithmetic *)

Lemma floor_div_bounds (v d : Q) :
  0 < d ->
  inject_Z (Qfloor (v / d)) * d <= v /\ v < (inject_Z (Qfloor (v / d)) + 1) * d.
Proof.
  intros Hd.
  assert (Hne : ~ d == 0) by (intro E; rewrite E in Hd; now apply Qlt_irrefl in Hd).
  pose proof (Qfloor_le (v / d)) as Hlo.
  pose proof (Qlt_floor (v / d)) as Hhi.
  rewrite inject_Z_plus in Hhi.
  assert (Hv : v == v / d * d) by (field; exact Hne).
  split.
  - rewrite Hv at 2. apply Qmult_le_compat_r; [exact Hlo | now apply Qlt_le_weak].
  - rewrite Hv at 1. apply Qmult_lt_compat_r; assumption.
Qed.

Lemma floor_unique (v : Q) (k : Z) :
  inject_Z k <= v -> v < inject_Z k + 1 -> Qfloor v = k.
Proof.
  intros Hlo Hhi.
  assert (H1 : (k <= Qfloor v)%Z).
  { rewrite <- (Qfloor_Z k). now apply Qfloor_resp_le. }
  assert (H2 : (Qfloor v < k + 1)%Z).
  { rewrite Zlt_Qlt, inject_Z_plus.
    eapply Qle_lt_trans; [apply Qfloor_le | exact Hhi]. }
  lia.
Qed.

Lemma floor_div_unique (v d : Q) (k : Z) :
  0 < d -> inject_Z k * d <= v -> v < (inject_Z k + 1) * d ->
  Qfloor (v / d) = k.
Proof.
  intros Hd Hlo Hhi.
  assert (Hne : ~ d == 0) by (intro E; rewrite E in Hd; now apply Qlt_irrefl in Hd).
  apply floor_unique.
  - apply Qle_shift_div_l; assumption.
  - apply Qlt_shift_div_r; assumption.
Qed.

Lemma clamp_nonneg d e : 0 < d -> 0 <= e -> 0 <= clamp d e.
Proof.
  intros Hd He. unfold clamp.
  destruct (Qle_bool e 1000); [exact He | now apply Qlt_le_weak].
Qed.

Lemma clamp_comp d e e' : e == e' -> clamp d e == clamp d e'.
Proof.
  intros E. unfold clamp.
  destruct (Qle_bool e 1000) eqn:A; destruct (Qle_bool e' 1000) eqn:B;
    try assumption; try reflexivity.
  - apply Qle_bool_iff in A. rewrite E in A. apply Qle_bool_iff in A. congruence.
  - apply Qle_bool_iff in B. rewrite <- E in B. apply Qle_bool_iff in B. congruence.
Qed.

(* ------------------------------------------------------------------ *)
(** ** The drain *)

Section DrainFacts.
Context {W Renderer : Type}.
Implicit Types (m : @Machine W Renderer) (s : @Smoothie W Renderer).

Lemma count_updates_app t u :
  count_updates (t ++ u) = (count_updates t + count_updates u)%nat.
Proof. unfold count_updates. now rewrite filter_app, length_app. Qed.

Lemma count_draws_app t u :
  count_draws (t ++ u) = (count_draws t + count_draws u)%nat.
Proof. unfold count_draws. now rewrite filter_app, length_app. Qed.

Lemma callUpdate_trace m : trace (callUpdate m) = trace m ++ [Update].
Proof. unfold callUpdate. now destruct (update _ _ _). Qed.

Lemma callUpdate_settings m :
  settings (self (callUpdate m)) = settings (self m).
Proof. unfold callUpdate. now destruct (update _ _ _). Qed.

Lemma callUpdate_clock m : clock (self (callUpdate m)) = clock (self m).
Proof. unfold callUpdate. now destruct (update _ _ _). Qed.

Lemma catchUp_trace d m : trace (catchUp d m) = trace m ++ [Update].
Proof. unfold catchUp, on_self; simpl. now rewrite callUpdate_trace. Qed.

Lemma catchUp_settings d m :
  settings (self (catchUp d m)) = settings (self m).
Proof.
  unfold catchUp, on_self; simpl.
  match goal with |- context [callUpdate ?a] =>
    pose proof (callUpdate_settings a) as H end.
  unfold settings in *; simpl in *. exact H.
Qed.

Lemma catchUp_clock d m :
  clock (self (catchUp d m)) =
  (_startTime (self m), jssub (_lag (self m)) d, _tick (self m),
   _renderStartTime (self m)).
Proof.
  unfold catchUp, on_self; simpl.
  match goal with |- context [callUpdate ?a] =>
    pose proof (callUpdate_clock a) as H end.
  unfold clock in *; simpl in *. now inversion H.
Qed.

(** The loop makes [k] turns when [k] tick durations fit in the lag and
    [k + 1] do not; each turn calls the callback once. *)
Lemma drain_turns (d : Q) (k : nat) : forall m (l : Q) (fuel : nat),
  0 < d ->
  _lag (self m) = Num l ->
  inject_Z (Z.of_nat k) * d <= l ->
  l < (inject_Z (Z.of_nat k) + 1) * d ->
  (k <= fuel)%nat ->
  exists m' l',
    drain fuel (Num d) m = Done m' /\
    settings (self m') = settings (self m) /\
    clock (self m') =
      (_startTime (self m), Num l', _tick (self m),
       _renderStartTime (self m)) /\
    l' == l - inject_Z (Z.of_nat k) * d /\
    trace m' = trace m ++ repeat Update k.
Proof.
  induction k as [|k IH]; intros m l fuel Hd Hl Hlo Hhi Hfuel.
  - exists m, l.
    change (inject_Z (Z.of_nat 0)) with 0 in Hlo, Hhi |- *.
    assert (E : jsge (_lag (self m)) (Num d) = false).
    { rewrite Hl; simpl. apply not_true_is_false. intro A.
      apply Qle_bool_iff in A. lra. }
    repeat split.
    + destruct fuel; simpl; now rewrite E.
    + unfold clock. now rewrite Hl.
    + lra.
    + simpl. now rewrite app_nil_r.
  - assert (Hk : inject_Z (Z.of_nat (S k)) == inject_Z (Z.of_nat k) + 1).
    { rewrite Nat2Z.inj_succ. unfold Z.succ. now rewrite inject_Z_plus. }
    rewrite Hk in Hlo, Hhi.
    assert (Hkpos : 0 <= inject_Z (Z.of_nat k)).
    { change 0 with (inject_Z 0). rewrite <- Zle_Qle. lia. }
    assert (E : jsge (_lag (self m)) (Num d) = true).
    { rewrite Hl; simpl. apply Qle_bool_iff. nra. }
    destruct fuel as [|fuel]; [lia|].
    pose proof (catchUp_clock (Num d) m) as Hc.
    pose proof (catchUp_settings (Num d) m) as Hs.
    pose proof (catchUp_trace (Num d) m) as Ht.
    rewrite Hl in Hc; simpl in Hc.
    destruct (IH (catchUp (Num d) m) (l - d) fuel Hd) as (m' & l' & R & S' & C & L & T).
    + unfold clock in Hc. now inversion Hc.
    + nra.
    + nra.
    + lia.
    + exists m', l'. repeat split.
      * simpl. now rewrite E.
      * now rewrite S'.
      * rewrite C. unfold clock in Hc. inversion Hc. reflexivity.
      * rewrite L, Hk. ring.
      * rewrite T, Ht, <- app_assoc. reflexivity.
Qed.

Lemma Qeq_bool_pos d : 0 < d -> Qeq_bool d 0 = false.
Proof.
  intros Hd. apply not_true_is_false. intro A.
  apply Qeq_bool_iff in A. rewrite A in Hd. now apply Qlt_irrefl in Hd.
Qed.

Lemma count_updates_repeat k : count_updates (repeat Update k) = k.
Proof. induction k; simpl; [reflexivity | unfold count_updates in *; simpl; now rewrite IHk]. Qed.

Lemma count_draws_repeat k : count_draws (repeat Update k) = 0%nat.
Proof. induction k; simpl; [reflexivity | exact IHk]. Qed.

(** One drain-and-render on a machine whose tick duration is a positive
    number, whose lag is a number and whose clock did not run into a
    negative lag. *)
Lemma doInterpolate_spec m (d l t0 now : Q) (fuel : nat) :
  _frameDuration (self m) = Num d -> 0 < d ->
  _lag (self m) = Num l ->
  _startTime (self m) = Num t0 ->
  0 <= l + clamp d (now - t0) ->
  (Z.to_nat (Qfloor ((l + clamp d (now - t0)) / d)) <= fuel)%nat ->
  exists m' l' t,
    doInterpolate fuel now m = Done m' /\
    settings (self m') = settings (self m) /\
    clock (self m') =
      (Num now, Num l', Num (l' / d), _renderStartTime (self m)) /\
    l' == l + clamp d (now - t0)
          - inject_Z (Qfloor ((l + clamp d (now - t0)) / d)) * d /\
    0 <= l' /\ l' < d /\
    trace m' =
      trace m
      ++ repeat Update (Z.to_nat (Qfloor ((l + clamp d (now - t0)) / d)))
      ++ [Draw t].
Proof.
  intros Hfd Hd Hl Ht0 Hnn Hfuel.
  set (L := l + clamp d (now - t0)) in *.
  destruct (floor_div_bounds L d Hd) as [Blo Bhi].
  assert (Kpos : (0 <= Qfloor (L / d))%Z).
  { rewrite <- (Qfloor_Z 0). apply Qfloor_resp_le.
    change (inject_Z 0) with 0.
    apply Qle_shift_div_l; [exact Hd | lra]. }
  set (k := Z.to_nat (Qfloor (L / d))) in *.
  assert (Hk : Z.of_nat k = Qfloor (L / d)) by (unfold k; lia).
  set (m0 := on_self (fun s => with_lag s (Num L))
               (on_self (fun s => with_startTime s (Num now)) m)).
  destruct (drain_turns d k m0 L fuel Hd eq_refl) as (m1 & l' & R & S1 & C1 & L1 & T1).
  { now rewrite Hk. } { now rewrite Hk. } { exact Hfuel. }
  rewrite Hk in L1.
  assert (Bl : 0 <= l' /\ l' < d) by (split; nra).
  exists (render (Num (l' / d))
            (on_self (fun s => with_tick s (Num (l' / d))) m1)), l'.
  eexists.
  assert (Hfd1 : _frameDuration (self m1) = Num d).
  { unfold settings in S1. simpl in S1. inversion S1. congruence. }
  assert (Hlag1 : _lag (self m1) = Num l').
  { unfold clock in C1. now inversion C1. }
  repeat split.
  - unfold doInterpolate. rewrite Hfd, Ht0. simpl.
    replace (on_self _ (on_self _ m)) with m0.
    2:{ unfold m0, L, clamp, on_self; simpl. rewrite Hl.
        destruct (Qle_bool (now - t0) 1000); reflexivity. }
    rewrite R. unfold bind, on_self. simpl. rewrite Hlag1. simpl.
    rewrite (Qeq_bool_pos d Hd). reflexivity.
  - rewrite render_self. unfold settings in *; simpl in *.
    destruct (interpolate (self m1)); simpl; exact S1.
  - rewrite render_self. unfold clock in *; simpl in *.
    inversion C1.
    destruct (interpolate (self m1)); simpl; rewrite ?Hlag1; reflexivity.
  - exact L1.
  - apply Bl.
  - apply Bl.
  - rewrite render_trace. simpl. rewrite T1. simpl.
    rewrite <- app_assoc. reflexivity.
Qed.

End DrainFacts.

(* ------------------------------------------------------------------ *)
(** ** Interpolation is transient *)

Section Transient.
Context {W Renderer : Type}.
Implicit Types (m : @Machine W Renderer) (s : @Smoothie W Renderer).

Lemma descend_interpolated p tick i rest stage n :
  descend (i :: rest) stage = Some n ->
  descend (i :: rest) (overStage (interpolateSprite p tick) stage) =
  Some (interpolateSprite p tick n).
Proof.
  rewrite descend_overStage. simpl.
  destruct (nth_error (children stage) i) as [c|]; [|discriminate].
  rewrite interpolateSprite_walk, descend_walk.
  intros ->. simpl. now rewrite interpolateSprite_walk.
Qed.

Lemma descend_restored p i rest stage n :
  descend (i :: rest) stage = Some n ->
  descend (i :: rest) (overStage (restoreSpriteProperties p) stage) =
  Some (restoreSpriteProperties p n).
Proof.
  rewrite descend_overStage. simpl.
  destruct (nth_error (children stage) i) as [c|]; [|discriminate].
  rewrite restoreSpriteProperties_walk, descend_walk.
  intros ->. simpl. now rewrite restoreSpriteProperties_walk.
Qed.

(** C5.  Position interpolation on, a node below the root whose previous
    x is 0 and whose live x is 10: [render(0.5)] hands the renderer a tree
    in which that node's x is 5, and leaves the node's x at 10. *)
Theorem render_halfway_position m (i : nat) (rest : list nat) (n : Node) :
  interpolate (self m) = true ->
  Properties.position (properties (self m)) = true ->
  descend (i :: rest) (stage (self m)) = Some n ->
  _previous (x (fields n)) = Num 0 ->
  live (x (fields n)) = Num 10 ->
  exists tree during after,
    trace (render (Num (1 # 2)) m) = trace m ++ [Draw tree] /\
    descend (i :: rest) tree = Some during /\
    jseq (live (x (fields during))) (Num 5) /\
    descend (i :: rest) (stage (self (render (Num (1 # 2)) m))) = Some after /\
    live (x (fields after)) = Num 10.
Proof.
  intros Ei Ep Hn Hprev Hlive.
  set (p := properties (self m)).
  exists (drawn (Num (1 # 2)) m),
         (interpolateSprite p (Num (1 # 2)) n),
         (restoreSpriteProperties p (interpolateSprite p (Num (1 # 2)) n)).
  assert (Hd : descend (i :: rest) (drawn (Num (1 # 2)) m) =
               Some (interpolateSprite p (Num (1 # 2)) n)).
  { unfold drawn. rewrite Ei. now apply descend_interpolated. }
  repeat split.
  - apply render_trace.
  - exact Hd.
  - destruct n as [b f cs]; simpl in *. unfold p. rewrite Ep; simpl.
    rewrite Hprev, Hlive; simpl. reflexivity.
  - rewrite render_self, Ei.
    replace (stage (with_stage (self m) _))
      with (overStage (restoreSpriteProperties p) (drawn (Num (1 # 2)) m))
      by now destruct (self m).
    now apply descend_restored.
  - destruct n as [b f cs]; simpl in *. unfold p. rewrite Ep; simpl.
    exact Hlive.
Qed.

End Transient.

(* ------------------------------------------------------------------ *)
(** ** Sequences of drains *)

Lemma floor_div_shift (v d : Q) (k : Z) :
  0 < d -> Qfloor ((v - inject_Z k * d) / d) = (Qfloor (v / d) - k)%Z.
Proof.
  intros Hd. destruct (floor_div_bounds v d Hd) as [Blo Bhi].
  apply floor_div_unique; [exact Hd | |];
    unfold Z.sub; rewrite inject_Z_plus, inject_Z_opp; nra.
Qed.

Lemma floor_div_mono (v v' d : Q) :
  0 < d -> v <= v' -> (Qfloor (v / d) <= Qfloor (v' / d))%Z.
Proof.
  intros Hd Hv. apply Qfloor_resp_le.
  apply Qmult_le_compat_r; [exact Hv|].
  apply Qlt_le_weak, Qinv_lt_0_compat, Hd.
Qed.

Lemma floor_div_nonneg (v d : Q) : 0 < d -> 0 <= v -> (0 <= Qfloor (v / d))%Z.
Proof.
  intros Hd Hv. rewrite <- (Qfloor_Z 0). apply Qfloor_resp_le.
  change (inject_Z 0) with 0. apply Qle_shift_div_l; [exact Hd | lra].
Qed.

(* ------------------------------------------------------------------ *)
(** ** The logic clock *)

Section LogicClock.
Context {W Renderer : Type}.
Implicit Types (m : @Machine W Renderer) (s : @Smoothie W Renderer).


(** C4.  After a drain-and-render on a machine with a positive tick
    duration, a non-negative lag and a clock that did not go back, [dt] is
    lag / tick duration, at least 0 and below 1. *)
Theorem dt_is_a_proper_fraction m (d l t0 now : Q) (fuel : nat) :
  _frameDuration (self m) = Num d -> 0 < d ->
  _lag (self m) = Num l -> 0 <= l ->
  _startTime (self m) = Num t0 -> t0 <= now ->
  (Z.to_nat (Qfloor ((l + clamp d (now - t0)) / d)) <= fuel)%nat ->
  exists m' f,
    doInterpolate fuel now m = Done m' /\
    dt (self m') = jsdiv (_lag (self m')) (_frameDuration (self m')) /\
    dt (self m') = Num f /\ 0 <= f /\ f < 1.
Proof.
  intros Hfd Hd Hl Hl0 Ht0 Hnow Hfuel.
  assert (Hc : 0 <= clamp d (now - t0))
    by (apply clamp_nonneg; [exact Hd | lra]).
  destruct (doInterpolate_spec m d l t0 now fuel Hfd Hd Hl Ht0)
    as (m' & l' & t & R & S1 & C & L & B1 & B2 & T); [lra | exact Hfuel |].
  exists m', (l' / d).
  unfold clock in C. inversion C as [[Cs Cl Ct Cr]].
  assert (Hfd' : _frameDuration (self m') = Num d).
  { unfold settings in S1. inversion S1. congruence. }
  refine (conj _ (conj _ (conj _ (conj _ _)))).
  - exact R.
  - unfold dt. rewrite Ct, Cl, Hfd'. simpl. now rewrite (Qeq_bool_pos d Hd).
  - exact eq_refl.
  - apply Qle_shift_div_l; [exact Hd | lra].
  - apply Qlt_shift_div_r; [exact Hd | lra].
Qed.

End LogicClock.

(* ------------------------------------------------------------------ *)
(** ** One call of the game loop *)

Lemma jseq_refl v : jseq v v.
Proof. destruct v; simpl; auto. reflexivity. Qed.

(** With fraction 1 the blend formula gives back the live value. *)
Lemma interpolateAttr_one b a :
  numeric_attr a -> jseq (live (on b (interpolateAttr (Num 1)) a)) (live a).
Proof.
  intros [[q Hq] Hp]. destruct b; simpl; [|apply jseq_refl].
  rewrite Hq. destruct (_previous a) as [p| |]; simpl.
  - ring.
  - congruence.
  - reflexivity.
Qed.

Lemma interpolateSprite_one p n :
  numeric n ->
  live_equiv (observe (interpolateSprite p (Num 1) n)) (observe n).
Proof.
  induction n as [b f cs IH] using Node_forall_ind.
  intros Hn. inversion Hn as [? ? ? Hf Hcs]; subst. simpl.
  constructor.
  - destruct Hf as (H1 & H2 & H3 & H4 & H5 & H6 & H7 & H8).
    unfold live_fields, interpolateFields; simpl.
    repeat (constructor; [now apply interpolateAttr_one|]). constructor.
  - clear Hn Hf. induction cs as [|c cs IHcs]; simpl; constructor.
    + inversion IH; inversion Hcs; subst. auto.
    + inversion IH; inversion Hcs; subst. auto.
Qed.

Lemma live_equiv_refl t : live_equiv t t.
Proof.
  revert t. fix rec 1. intros [b vs ks]. constructor.
  - induction vs; constructor; [apply jseq_refl | assumption].
  - induction ks; constructor; [apply rec | assumption].
Qed.

Section GameLoop.
Context {W Renderer : Type}.
Implicit Types (m : @Machine W Renderer) (s : @Smoothie W Renderer).

Lemma drawn_one_no_blend m :
  Forall numeric (children (stage (self m))) ->
  live_equiv (observe (drawn (Num 1) m)) (observe (stage (self m))).
Proof.
  intros H. unfold drawn.
  destruct (interpolate (self m)); [|apply live_equiv_refl].
  change (tick_or_default (Num 1)) with (Num 1).
  destruct (stage (self m)) as [b f cs]; simpl in *.
  constructor.
  - clear H. induction (live_fields f); constructor;
      [apply jseq_refl | assumption].
  - induction H as [|c cs Hc _ IH]; simpl; constructor;
      [now apply interpolateSprite_one | exact IH].
Qed.

Lemma render_clock tick m : clock (self (render tick m)) = clock (self m).
Proof. rewrite render_self. now destruct (self m). Qed.

Lemma render_settings tick m :
  settings (self (render tick m)) = settings (self m).
Proof. rewrite render_self. now destruct (self m). Qed.

(** C7.  Logic rate undefined, not paused: one call of the game loop
    calls the callback once, then renders once with fraction 1, and the
    clock state (start time, lag, fraction, next render time) is as it
    was.  When the attributes are numbers the tree handed to the renderer
    has the live values the callback left: nothing is blended. *)
Theorem uncapped_updates_then_renders_once m (fuel : nat) (timestamp now : Q) :
  paused (self m) = false ->
  _fps (self m) = undefined ->
  exists m' tree,
    gameLoop fuel timestamp now m = Done m' /\
    m' = render (Num 1) (callUpdate (emit RequestFrame m)) /\
    trace m' = trace m ++ [RequestFrame; Update; Draw tree] /\
    clock (self m') = clock (self m) /\
    (Forall numeric
       (children (stage (self (callUpdate (emit RequestFrame m))))) ->
     live_equiv (observe tree)
       (observe (stage (self (callUpdate (emit RequestFrame m)))))).
Proof.
  intros Hp Hf.
  exists (render (Num 1) (callUpdate (emit RequestFrame m))),
         (drawn (Num 1) (callUpdate (emit RequestFrame m))).
  refine (conj _ (conj eq_refl (conj _ (conj _ _)))).
  - unfold gameLoop. simpl. rewrite Hp, Hf. reflexivity.
  - rewrite render_trace, callUpdate_trace. simpl.
    rewrite <- !app_assoc. reflexivity.
  - rewrite render_clock, callUpdate_clock. reflexivity.
  - apply drawn_one_no_blend.
Qed.

(** Calls made while paused only re-register the loop. *)
Lemma run_paused (fuel : nat) (calls : list (Q * Q)) : forall m,
  paused (self m) = true ->
  run fuel calls m =
  Done (mkMachine (self m) (world m)
          (trace m ++ repeat RequestFrame (List.length calls))).
Proof.
  induction calls as [|[ts now] calls IH]; intros m Hp; simpl.
  - rewrite app_nil_r. now destruct m.
  - unfold gameLoop. simpl. rewrite Hp. simpl.
    rewrite IH by exact Hp. simpl.
    rewrite <- app_assoc. reflexivity.
Qed.

(** C9.  A call of the game loop while paused calls neither the
    callback nor the renderer and leaves the object, its clock state
    included, as it was; [pause] and [resume] write the paused flag and
    nothing else, so after any number of paused calls and a [resume] the
    start time from which the next elapsed time is measured is the one
    of the last drain. *)
Theorem paused_is_inert m (fuel : nat) (timestamp now : Q)
    (calls : list (Q * Q)) :
  paused (self m) = true ->
  gameLoop fuel timestamp now m =
    Done (mkMachine (self m) (world m) (trace m ++ [RequestFrame])) /\
  run fuel calls m =
    Done (mkMachine (self m) (world m)
            (trace m ++ repeat RequestFrame (List.length calls))) /\
  (forall s : @Smoothie W Renderer,
     pause s = with_paused s true /\ resume s = with_paused s false /\
     clock (pause s) = clock s /\ clock (resume s) = clock s /\
     stage (pause s) = stage s /\ stage (resume s) = stage s /\
     paused (pause s) = true /\ paused (resume s) = false /\
     (forall b,
        (properties (with_paused s b), update (with_paused s b),
         interpolate (with_paused s b), renderer (with_paused s b)) =
        (properties s, update s, interpolate s, renderer s) /\
        (_fps (with_paused s b), _frameDuration (with_paused s b),
         _renderFps (with_paused s b), _renderDuration (with_paused s b)) =
        (_fps s, _frameDuration s, _renderFps s, _renderDuration s))) /\
  _startTime (resume (self m)) = _startTime (self m).
Proof.
  intros Hp. split; [|split; [|split]].
  - unfold gameLoop. simpl. now rewrite Hp.
  - now apply run_paused.
  - intros s. repeat split.
  - reflexivity.
Qed.

End GameLoop.

(* ------------------------------------------------------------------ *)
(** ** Construction *)

Section Construction.
Context {W Engine Renderer : Type}.

Lemma drain_never_throws (fuel : nat) d msg :
  forall m : @Machine W Renderer, drain fuel d m <> Throw msg.
Proof.
  induction fuel as [|fuel IH]; intros m; simpl;
    destruct (jsge _ _); try discriminate. apply IH.
Qed.

Lemma doInterpolate_never_throws (fuel : nat) now msg
    (m : @Machine W Renderer) :
  doInterpolate fuel now m <> Throw msg.
Proof.
  unfold doInterpolate.
  match goal with |- context [drain ?a ?b ?c] =>
    pose proof (drain_never_throws a b msg c) as H;
    destruct (drain a b c) end; simpl; congruence.
Qed.

Lemma gameLoop_never_throws (fuel : nat) timestamp now msg
    (m : @Machine W Renderer) :
  gameLoop fuel timestamp now m <> Throw msg.
Proof.
  unfold gameLoop. simpl.
  destruct (paused (self m)); simpl; [discriminate|].
  destruct (is_undefined (_fps (self m))); [discriminate|].
  match goal with |- (if ?c then _ else _) <> _ =>
    destruct c; [apply doInterpolate_never_throws|] end.
  match goal with |- (if ?c then _ else _) <> _ =>
    destruct c; [|discriminate] end.
  match goal with |- context [doInterpolate ?a ?b ?c] =>
    pose proof (doInterpolate_never_throws a b msg c) as H;
    destruct (doInterpolate a b c) end; simpl; congruence.
Qed.

Lemma perform_never_throws (fuel : nat) (ops : list Op) msg :
  forall m : @Machine W Renderer, perform fuel ops m <> Throw msg.
Proof.
  induction ops as [|op ops IH]; intros m; simpl; [discriminate|].
  destruct op; simpl; try apply IH.
  pose proof (gameLoop_never_throws fuel timestamp now msg m) as H.
  destruct (gameLoop fuel timestamp now m); simpl; [apply IH | congruence | discriminate].
Qed.

(** C8, as the code has it.  The constructor throws exactly when the
    rendering engine, the renderer, the root or the update callback is
    absent; with the four present it returns the object, whatever the
    other options are; no sequence of calls of the game loop, of [pause]
    and [resume] and of the two rate mutators throws. *)
Theorem constructor_throws_iff_required_missing
    (now : Q) (options : @SmoothieOptions W Engine Renderer) :
  ((exists msg, new_Smoothie now options = Throw msg) <->
   (o_engine options = None \/ o_renderer options = None \/
    o_root options = None \/ o_update options = None)) /\
  ((exists s, new_Smoothie now options = Done s) <->
   (o_engine options <> None /\ o_renderer options <> None /\
    o_root options <> None /\ o_update options <> None)) /\
  (forall fuel (ops : list Op) (m : @Machine W Renderer) msg,
     perform fuel ops m <> Throw msg).
Proof.
  split; [|split].
  - unfold new_Smoothie.
    destruct (o_engine options), (o_renderer options), (o_root options),
      (o_update options); simpl;
      (split; [intros [? H]; try discriminate H; auto
              | intros H; try (eexists; reflexivity);
                intuition discriminate]).
  - unfold new_Smoothie.
    destruct (o_engine options), (o_renderer options), (o_root options),
      (o_update options); simpl;
      (split; [intros [? H]; try discriminate H; repeat split; discriminate
              | intros (? & ? & ? & ?); try congruence;
                eexists; reflexivity]).
  - intros. apply perform_never_throws.
Qed.

End Construction.

(* ------------------------------------------------------------------ *)
(** ** Running without a logic rate *)

Lemma on_previous b g a :
  (forall a', _previous (g a') = _previous a') ->
  _previous (on b g a) = _previous a.
Proof. intros H. destruct b; simpl; auto. Qed.

Lemma interpolateFields_fresh p tick b f :
  fresh f -> fresh (interpolateFields p tick b f).
Proof.
  unfold fresh, interpolateFields; simpl.
  now rewrite !on_previous by reflexivity.
Qed.

Lemma restoreFields_fresh p b f : fresh f -> fresh (restoreFields p b f).
Proof.
  unfold fresh, restoreFields; simpl.
  now rewrite !on_previous by reflexivity.
Qed.

Lemma walk_no_previous g n :
  (forall b f, fresh f -> fresh (g b f)) ->
  no_previous n -> no_previous (walk g n).
Proof.
  intros Hg. induction n as [b f cs IH] using Node_forall_ind.
  intros Hn. inversion Hn as [? ? ? Hf Hcs]; subst. simpl.
  constructor; [now apply Hg|].
  clear Hn. induction cs as [|c cs IHcs]; simpl; constructor;
    inversion IH; inversion Hcs; subst; auto.
Qed.

(** Without a previous value the interpolation pass writes no live
    value. *)
Lemma interpolateAttr_fresh b tick a :
  _previous a = undefined -> live (on b (interpolateAttr tick) a) = live a.
Proof. intros E. destruct b; simpl; [now rewrite E | reflexivity]. Qed.

Lemma interpolateSprite_fresh p tick n :
  no_previous n -> observe (interpolateSprite p tick n) = observe n.
Proof.
  induction n as [b f cs IH] using Node_forall_ind.
  intros Hn. inversion Hn as [? ? ? Hf Hcs]; subst. simpl.
  destruct Hf as (H1 & H2 & H3 & H4 & H5 & H6 & H7 & H8).
  unfold live_fields, interpolateFields; simpl.
  rewrite !interpolateAttr_fresh by assumption.
  f_equal. rewrite map_map.
  clear Hn. induction cs as [|c cs IHcs]; simpl; [reflexivity|].
  inversion IH; inversion Hcs; subst. f_equal; auto.
Qed.

Lemma overStage_no_previous g stage :
  (forall n, no_previous n -> no_previous (g n)) ->
  stage_no_previous stage -> stage_no_previous (overStage g stage).
Proof.
  unfold stage_no_previous. destruct stage as [b f cs]; simpl.
  intros Hg H. induction H; simpl; constructor; auto.
Qed.

Section NoLogicRate.
Context {W Renderer : Type}.
Implicit Types (m : @Machine W Renderer) (s : @Smoothie W Renderer).

Lemma drawn_fresh tick m :
  stage_no_previous (stage (self m)) ->
  observe (drawn tick m) = observe (stage (self m)).
Proof.
  intros H. unfold drawn. destruct (interpolate (self m)); [|reflexivity].
  destruct (stage (self m)) as [b f cs]; simpl in *.
  f_equal. rewrite map_map. unfold stage_no_previous in H; simpl in H.
  induction H as [|c cs Hc _ IH]; simpl; [reflexivity|].
  f_equal; [now apply interpolateSprite_fresh | exact IH].
Qed.

Lemma render_no_previous tick m :
  stage_no_previous (stage (self m)) ->
  stage_no_previous (stage (self (render tick m))).
Proof.
  intros H. rewrite render_self.
  replace (stage (with_stage (self m) _))
    with (if interpolate (self m)
          then overStage (restoreSpriteProperties (properties (self m)))
                 (drawn tick m)
          else stage (self m)) by now destruct (self m).
  unfold drawn. destruct (interpolate (self m)); [|exact H].
  apply overStage_no_previous.
  { intros n. rewrite restoreSpriteProperties_walk.
    apply walk_no_previous. intros. now apply restoreFields_fresh. }
  apply overStage_no_previous; [|exact H].
  intros n. rewrite interpolateSprite_walk.
  apply walk_no_previous. intros. now apply interpolateFields_fresh.
Qed.

Lemma callUpdate_no_previous m :
  keeps_no_previous (update (self m)) ->
  stage_no_previous (stage (self m)) ->
  stage_no_previous (stage (self (callUpdate m))).
Proof.
  intros Hk H. unfold callUpdate.
  specialize (Hk (world m) (stage (self m)) H).
  destruct (update (self m) (world m) (stage (self m))) as [w t]. exact Hk.
Qed.

Lemma settings_fps s s' : settings s = settings s' ->
  _fps s = _fps s' /\ update s = update s'.
Proof. unfold settings. intros H. inversion H. auto. Qed.

Lemma perform1_unset (fuel : nat) op m :
  keeps_fps_unset op -> unset_invariant m ->
  exists m', perform1 fuel op m = Done m' /\ unset_invariant m'.
Proof.
  intros Hop (Hf & Hs & Hk). destruct op; simpl in *.
  - unfold gameLoop. simpl. rewrite Hf. simpl.
    destruct (paused (self m)) eqn:Hp; simpl; eexists; (split; [reflexivity|]).
    + repeat split; assumption.
    + set (m1 := callUpdate (emit RequestFrame m)).
      destruct (settings_fps _ _ (callUpdate_settings (emit RequestFrame m)))
        as [F1 U1].
      destruct (settings_fps _ _ (render_settings undefined m1)) as [F2 U2].
      fold m1 in F1, U1.
      assert (stage_no_previous (stage (self m1)))
        by (apply callUpdate_no_previous; simpl; assumption).
      repeat split.
      * rewrite F2, F1. exact Hf.
      * now apply render_no_previous.
      * rewrite U2, U1. exact Hk.
  - eexists; split; [reflexivity|]. now repeat split.
  - eexists; split; [reflexivity|]. now repeat split.
  - eexists; split; [reflexivity|]. now repeat split.
  - eexists; split; [reflexivity|]. now repeat split.
Qed.

Lemma perform_unset (fuel : nat) ops : forall m,
  Forall keeps_fps_unset ops -> unset_invariant m ->
  exists m', perform fuel ops m = Done m' /\ unset_invariant m'.
Proof.
  induction ops as [|op ops IH]; intros m Hops Hinv; simpl.
  - eauto.
  - inversion Hops; subst.
    destruct (perform1_unset fuel op m) as (m1 & R & I1); try assumption.
    rewrite R. simpl. now apply IH.
Qed.

End NoLogicRate.

Section NeverConfigured.
Context {W Engine Renderer : Type}.

(** C10.  Constructed without a logic rate, from a tree with no
    previous shadow values and a callback that writes none, and never
    given a logic rate afterwards: whatever the client does, the logic
    rate stays undefined and no node below the root gets a previous
    shadow value; a call of the game loop that is not paused then hands
    the renderer a tree whose live values are exactly those the callback
    left, with interpolation on or off. *)
Theorem never_configured_never_blends (now : Q)
    (options : @SmoothieOptions W Engine Renderer)
    (s : @Smoothie W Renderer) (w : W) (ops : list Op) (fuel : nat) :
  new_Smoothie now options = Done s ->
  o_fps options = undefined ->
  stage_no_previous (stage s) ->
  keeps_no_previous (update s) ->
  Forall keeps_fps_unset ops ->
  exists m',
    perform fuel ops (mkMachine s w []) = Done m' /\
    _fps (self m') = undefined /\
    stage_no_previous (stage (self m')) /\
    (forall tick, observe (drawn tick m') = observe (stage (self m'))) /\
    (forall timestamp now',
       paused (self m') = false ->
       exists m'' tree,
         gameLoop fuel timestamp now' m' = Done m'' /\
         trace m'' = trace m' ++ [RequestFrame; Update; Draw tree] /\
         observe tree =
           observe (stage (self (callUpdate (emit RequestFrame m')))) /\
         stage_no_previous (stage (self m''))).
Proof.
  intros Hnew Hfps Hst Hk Hops.
  assert (Hf : _fps s = undefined).
  { unfold new_Smoothie in Hnew.
    destruct (o_engine options), (o_renderer options), (o_root options),
      (o_update options); try discriminate.
    injection Hnew as <-. exact Hfps. }
  destruct (perform_unset fuel ops (mkMachine s w [])) as (m' & R & I);
    [exact Hops | now repeat split |].
  destruct I as (If & Is & Ik).
  exists m'. refine (conj R (conj If (conj Is (conj _ _)))).
  - intros tick. now apply drawn_fresh.
  - intros timestamp now' Hp.
    set (m1 := callUpdate (emit RequestFrame m')).
    assert (H1 : stage_no_previous (stage (self m1)))
      by (apply callUpdate_no_previous; simpl; assumption).
    exists (render undefined m1), (drawn undefined m1).
    refine (conj _ (conj _ (conj _ _))).
    + unfold gameLoop. simpl. rewrite Hp, If. reflexivity.
    + rewrite render_trace. unfold m1. rewrite callUpdate_trace. simpl.
      rewrite <- !app_assoc. reflexivity.
    + now apply drawn_fresh.
    + now apply render_no_previous.
Qed.

End NeverConfigured.

(* ------------------------------------------------------------------ *)
(** ** The render cap *)

Section RenderCap.
Context {W Renderer : Type}.
Implicit Types (m : @Machine W Renderer) (s : @Smoothie W Renderer).

Lemma drain_frame (fuel : nat) d : forall m m',
  drain fuel d m = Done m' ->
  settings (self m') = settings (self m) /\
  count_draws (trace m') = count_draws (trace m) /\
  _renderStartTime (self m') = _renderStartTime (self m).
Proof.
  induction fuel as [|fuel IH]; intros m m'; simpl;
    destruct (jsge (_lag (self m)) d); try discriminate.
  - intros [= <-]. auto.
  - intros H. apply IH in H as (S1 & D1 & R1).
    pose proof (f_equal snd (catchUp_clock d m)) as C. simpl in C.
    rewrite S1, D1, R1, catchUp_settings, catchUp_trace, count_draws_app.
    refine (conj eq_refl (conj _ C)).
    change (count_draws [Update]) with 0%nat. lia.
  - intros [= <-]. auto.
Qed.

(** A drain-and-render that returns has drawn once. *)
Lemma doInterpolate_frame (fuel : nat) now m m' :
  doInterpolate fuel now m = Done m' ->
  settings (self m') = settings (self m) /\
  count_draws (trace m') = S (count_draws (trace m)) /\
  _renderStartTime (self m') = _renderStartTime (self m).
Proof.
  unfold doInterpolate.
  match goal with |- context [drain ?a ?b ?c] =>
    destruct (drain a b c) as [m1| |] eqn:R end; simpl; try discriminate.
  intros [= <-]. apply drain_frame in R as (S1 & D1 & R1).
  rewrite render_settings, render_trace, count_draws_app.
  rewrite render_self.
  repeat split.
  - unfold settings in *; simpl in *. exact S1.
  - simpl in *. rewrite D1. change (count_draws [Draw _]) with 1%nat. lia.
  - simpl in *. destruct (self m1); simpl in *. exact R1.
Qed.

End RenderCap.

Section RenderCapClaim.
Context {W Engine Renderer : Type}.

Lemma not_undefined v : v <> undefined -> is_undefined v = false.
Proof. destruct v; simpl; congruence. Qed.

End RenderCapClaim.

(* ------------------------------------------------------------------ *)
(** ** The lag never goes negative *)

Section Health.
Context {W Engine Renderer : Type}.
Implicit Types (m : @Machine W Renderer) (s : @Smoothie W Renderer).

(** A loop that ended ends the same way with more turns allowed. *)
Lemma drain_more_fuel d (fuel : nat) : forall fuel' m m',
  drain fuel d m = Done m' -> (fuel <= fuel')%nat ->
  drain fuel' d m = Done m'.
Proof.
  induction fuel as [|fuel IH]; intros fuel' m m' R Hle.
  - simpl in R. destruct (jsge (_lag (self m)) d) eqn:E; [discriminate|].
    destruct fuel'; simpl; now rewrite E.
  - destruct fuel' as [|fuel']; [lia|]. simpl in *.
    destruct (jsge (_lag (self m)) d); [|exact R].
    apply IH; [exact R | lia].
Qed.

Lemma doInterpolate_more_fuel (fuel fuel' : nat) now m m' :
  doInterpolate fuel now m = Done m' -> (fuel <= fuel')%nat ->
  doInterpolate fuel' now m = Done m'.
Proof.
  unfold doInterpolate. intros R Hle.
  match type of R with context [drain fuel ?b ?c] =>
    destruct (drain fuel b c) as [m1| |] eqn:R1; try discriminate;
    rewrite (drain_more_fuel b fuel fuel' c m1 R1 Hle) end.
  exact R.
Qed.

Lemma gameLoop_more_fuel (fuel fuel' : nat) timestamp now m m' :
  gameLoop fuel timestamp now m = Done m' -> (fuel <= fuel')%nat ->
  gameLoop fuel' timestamp now m = Done m'.
Proof.
  unfold gameLoop. intros R Hle.
  destruct (negb (paused (self (emit RequestFrame m)))); [|exact R].
  destruct (is_undefined (_fps (self (emit RequestFrame m)))); [exact R|].
  match type of R with (if ?c then _ else _) = _ => destruct c end.
  - eapply doInterpolate_more_fuel; eassumption.
  - match type of R with (if ?c then _ else _) = _ =>
      destruct c; [|exact R] end.
    destruct (doInterpolate fuel now (emit RequestFrame m)) as [m1| |] eqn:R1;
      try discriminate.
    now rewrite (doInterpolate_more_fuel fuel fuel' now _ m1 R1 Hle).
Qed.

Lemma duration_rate_ok v :
  rate_ok v -> v = undefined \/ exists d, duration v = Num d /\ 0 < d.
Proof.
  intros [->|(f & -> & Hf)]; [now left | right].
  exists (1000 / f). unfold duration; simpl.
  rewrite (Qeq_bool_pos f Hf). simpl. split; [reflexivity|].
  apply Qlt_shift_div_l; [exact Hf | lra].
Qed.

Lemma new_Smoothie_healthy (now : Q)
    (options : @SmoothieOptions W Engine Renderer) s (w : W) :
  new_Smoothie now options = Done s ->
  rate_ok (o_fps options) ->
  healthy now (mkMachine s w []).
Proof.
  unfold new_Smoothie. intros Hnew Hrate.
  destruct (o_engine options), (o_renderer options), (o_root options),
    (o_update options); try discriminate.
  injection Hnew as <-. split; simpl.
  - now apply duration_rate_ok.
  - exists 0, now. repeat split; apply Qle_refl.
Qed.

(** A call of the game loop with a clock that did not go back ends,
    given turns enough, and leaves the object healthy. *)
Lemma gameLoop_healthy (t timestamp now : Q) m :
  healthy t m -> t <= now ->
  exists (n : nat) m',
    (forall fuel, (n <= fuel)%nat ->
       gameLoop fuel timestamp now m = Done m') /\
    healthy now m'.
Proof.
  intros [Hrate (l & t0 & Hl & Hl0 & Ht0 & Ht)] Hnow.
  assert (Hstay : healthy now (emit RequestFrame m)).
  { split; [exact Hrate|]. exists l, t0. repeat split; try assumption. lra. }
  destruct (paused (self m)) eqn:Hp.
  { exists 0%nat, (emit RequestFrame m). split; [|exact Hstay].
    intros fuel _. unfold gameLoop. simpl. now rewrite Hp. }
  destruct (is_undefined (_fps (self m))) eqn:Hf.
  { exists 0%nat, (render undefined (callUpdate (emit RequestFrame m))).
    split.
    - intros fuel _. unfold gameLoop. simpl. now rewrite Hp, Hf.
    - pose proof (render_settings undefined (callUpdate (emit RequestFrame m))) as S1.
      pose proof (render_clock undefined (callUpdate (emit RequestFrame m))) as C1.
      rewrite callUpdate_settings in S1. rewrite callUpdate_clock in C1.
      unfold settings in S1; injection S1 as _ _ _ _ E5 E6 _ _.
      unfold clock in C1; injection C1 as G1 G2 _ _.
      simpl in *. split.
      + rewrite E5, E6. exact Hrate.
      + exists l, t0. rewrite G1, G2. repeat split; try assumption. lra. }
  destruct Hrate as [E|(d & Hfd & Hd)]; [rewrite E in Hf; discriminate|].
  assert (Hc : 0 <= clamp d (now - t0))
    by (apply clamp_nonneg; [exact Hd | lra]).
  destruct (doInterpolate_spec (emit RequestFrame m) d l t0 now _
              Hfd Hd Hl Ht0 ltac:(lra) (Nat.le_refl _))
    as (m1 & l1 & tr & R & S1 & C1 & _ & B1 & _ & _).
  assert (Hm1 : healthy now m1).
  { unfold settings in S1; injection S1 as _ _ _ _ _ E6 _ _.
    unfold clock in C1; injection C1 as G1 G2 _ _. simpl in *. split.
    - right. exists d. now rewrite E6.
    - exists l1, now. repeat split; try assumption. apply Qle_refl. }
  set (k := Z.to_nat (Qfloor ((l + clamp d (now - t0)) / d))) in *.
  unfold gameLoop. cbv zeta.
  change (self (emit RequestFrame m)) with (self m). rewrite Hp, Hf. simpl negb.
  cbv iota.
  destruct (is_undefined (_renderFps (self m))
            || is_undefined (_renderDuration (self m))).
  { exists k, m1. split; [|exact Hm1].
    intros fuel Hle. now apply (doInterpolate_more_fuel k fuel). }
  destruct (jsge (Num timestamp) (_renderStartTime (self m))).
  - eexists k, _. split.
    + intros fuel Hle.
      rewrite (doInterpolate_more_fuel k fuel now _ m1 R Hle). reflexivity.
    + destruct Hm1 as [A B]. split; [exact A | exact B].
  - exists 0%nat, (emit RequestFrame m). split; [reflexivity | exact Hstay].
Qed.

(** From the constructor on, with rates that are rates and a clock that
    does not go back, whatever the client calls: every call ends, and
    the tick duration stays positive and the lag non-negative. *)
Lemma perform_healthy (ops : list Op) : forall (t : Q) m,
  healthy t m -> clock_ok t ops ->
  exists (n : nat) m',
    (forall fuel, (n <= fuel)%nat -> perform fuel ops m = Done m') /\
    healthy (last_reading t ops) m'.
Proof.
  induction ops as [|op ops IH]; intros t m Hm Hops.
  - exists 0%nat, m. split; [reflexivity | exact Hm].
  - destruct op as [timestamp now| | |value|value]; simpl in Hops |- *.
    + destruct Hops as [Hnow Hrest].
      destruct (gameLoop_healthy t timestamp now m Hm Hnow)
        as (n1 & m1 & R1 & H1).
      destruct (IH now m1 H1 Hrest) as (n2 & m' & R2 & H2).
      exists (Nat.max n1 n2), m'. split; [|exact H2].
      intros fuel Hle. rewrite R1 by lia. simpl. apply R2. lia.
    + destruct (IH t (on_self pause m)) as (n & m' & R & H');
        [exact Hm | exact Hops | eauto].
    + destruct (IH t (on_self resume m)) as (n & m' & R & H');
        [exact Hm | exact Hops | eauto].
    + destruct Hops as [Hrate Hrest].
      destruct (IH t (on_self (fun s => set_fps s value) m))
        as (n & m' & R & H'); [|exact Hrest | eauto].
      destruct Hm as [_ B]. split; [|exact B]. simpl.
      now apply duration_rate_ok.
    + destruct (IH t (on_self (fun s => set_renderFps s value) m))
        as (n & m' & R & H'); [exact Hm | exact Hops | eauto].
Qed.

End Health.

(* ------------------------------------------------------------------ *)
(** ** What the walks read and write *)

Lemma walk_ext g h n :
  (forall b f, g b f = h b f) -> walk g n = walk h n.
Proof.
  intros E. induction n as [b f cs IH] using Node_forall_ind; simpl.
  rewrite E. f_equal. now apply map_ext_Forall.
Qed.

Lemma slots_walk slot g n :
  (forall b f, slot_fields slot (g b f) = slot_fields slot f) ->
  slots slot (walk g n) = slots slot n.
Proof.
  intros Hg. induction n as [b f cs IH] using Node_forall_ind; simpl.
  rewrite Hg, map_map. f_equal. now apply map_ext_Forall.
Qed.

Lemma slots_overStage slot g stage :
  (forall b f, slot_fields slot (g b f) = slot_fields slot f) ->
  slots slot (overStage (walk g) stage) = slots slot stage.
Proof.
  intros Hg. destruct stage as [b f cs]; simpl. rewrite map_map.
  f_equal. apply map_ext. intros n. now apply slots_walk.
Qed.

Lemma fields_walk g n : fields (walk g n) = g (isSprite n) (fields n).
Proof. now destruct n. Qed.

Lemma descend_overStage_walk g i rest stage n :
  descend (i :: rest) stage = Some n ->
  descend (i :: rest) (overStage (walk g) stage) = Some (walk g n).
Proof.
  rewrite descend_overStage. simpl.
  destruct (nth_error (children stage) i) as [c|]; [|discriminate].
  rewrite descend_walk. now intros ->.
Qed.

Lemma overStage_ext g h stage :
  (forall n, g n = h n) -> overStage g stage = overStage h stage.
Proof.
  intros E. destruct stage as [b f cs]; simpl. f_equal. now apply map_ext.
Qed.


Lemma attrs_of_interpolate p tick b c f :
  attrs_of c (interpolateFields p tick b f) =
  map (on (interpolated p b c) (interpolateAttr tick)) (attrs_of c f).
Proof. now destruct c. Qed.


(** A value just captured blends to itself. *)
Lemma capture_then_interpolate b1 b2 (tick : Q) a :
  (b2 = true -> b1 = true) ->
  jseq (live (on b2 (interpolateAttr (Num tick)) (on b1 capture a))) (live a).
Proof.
  intros Hb. destruct b2; simpl.
  - rewrite (Hb eq_refl). simpl.
    destruct (live a) as [v| |]; simpl; auto. ring.
  - destruct b1; simpl; apply jseq_refl.
Qed.

Lemma capture_then_interpolate_fields p (tick : Q) b f :
  Forall2 jseq
    (live_fields (interpolateFields p (Num tick) b (captureFields p f)))
    (live_fields f).
Proof.
  unfold live_fields, interpolateFields, captureFields; simpl.
  repeat (constructor;
          [apply capture_then_interpolate;
           try tauto; intros H; apply andb_prop in H; tauto|]).
  constructor.
Qed.

Lemma capture_then_interpolate_sprite p (tick : Q) n :
  live_equiv (observe (interpolateSprite p (Num tick) (setProperties p n)))
             (observe n).
Proof.
  induction n as [b f cs IH] using Node_forall_ind; simpl.
  constructor; [apply capture_then_interpolate_fields|].
  induction IH as [|c cs Hc _ IHcs]; simpl; constructor; assumption.
Qed.

(** X1.  A render pass made right after the capture of the previous
    values, at whatever fraction, shows every node with the live values
    it has: the blend of a value with itself is that value. *)
Theorem capture_then_render_is_still
    (p : SmoothieProperties) (tick : Q) (stage : Node) :
  live_equiv
    (observe (overStage (interpolateSprite p (Num tick))
                (capturePreviousSpriteProperties p stage)))
    (observe stage).
Proof.
  destruct stage as [b f cs]; simpl. constructor.
  - induction (live_fields f); constructor; [apply jseq_refl | assumption].
  - induction cs as [|c cs IH]; simpl; constructor;
      [apply capture_then_interpolate_sprite | exact IH].
Qed.





Lemma interpolateAttr_zero b a :
  b = true ->
  (exists v p, live a = Num v /\ _previous a = Num p) ->
  jseq (live (on b (interpolateAttr (Num 0)) a)) (_previous a).
Proof.
  intros -> (v & p & Hv & Hp). simpl. rewrite Hv, Hp. simpl. ring.
Qed.

Lemma restore_after_restore b t1 t2 a :
  on b restore (on b (interpolateAttr t2)
                  (on b restore (on b (interpolateAttr t1) a))) =
  on b restore (on b (interpolateAttr t1) a).
Proof. now destruct b. Qed.

Lemma interpolate_after_restore b t1 t2 a :
  on b (interpolateAttr t2) (on b restore (on b (interpolateAttr t1) a)) =
  on b (interpolateAttr t2) a.
Proof. now destruct b. Qed.

Lemma restoreFields_again p t1 t2 b f :
  restoreFields p b (interpolateFields p t2 b
                       (restoreFields p b (interpolateFields p t1 b f))) =
  restoreFields p b (interpolateFields p t1 b f).
Proof.
  unfold restoreFields, interpolateFields; simpl.
  now rewrite !restore_after_restore.
Qed.

Lemma interpolateFields_again p t1 t2 b f :
  interpolateFields p t2 b
    (restoreFields p b (interpolateFields p t1 b f)) =
  interpolateFields p t2 b f.
Proof.
  unfold restoreFields, interpolateFields; simpl.
  now rewrite !interpolate_after_restore.
Qed.

Section RenderPass.
Context {W Renderer : Type}.
Implicit Types (m : @Machine W Renderer) (s : @Smoothie W Renderer).

Lemma descend_drawn tick m i rest n :
  descend (i :: rest) (stage (self m)) = Some n ->
  descend (i :: rest) (drawn tick m) =
  Some (if interpolate (self m)
        then interpolateSprite (properties (self m)) (tick_or_default tick) n
        else n).
Proof.
  intros H. unfold drawn. destruct (interpolate (self m)); [|exact H].
  now apply descend_interpolated.
Qed.


(** X3.  At fraction 0 the renderer is shown the previous snapshot: in
    every category that is interpolated on a node below the root, and
    whose live and previous values are numbers, the values drawn are the
    previous ones. *)
Theorem fraction_zero_draws_previous m (c : Category) (i : nat)
    (rest : list nat) (n : Node) :
  interpolate (self m) = true ->
  descend (i :: rest) (stage (self m)) = Some n ->
  interpolated (properties (self m)) (isSprite n) c = true ->
  Forall (fun a => exists v p, live a = Num v /\ _previous a = Num p)
    (attrs_of c (fields n)) ->
  exists n',
    descend (i :: rest) (drawn (Num 0) m) = Some n' /\
    Forall2 jseq (map live (attrs_of c (fields n')))
                 (map _previous (attrs_of c (fields n))).
Proof.
  intros Hi Hn Hc Hnum. eexists. split; [apply descend_drawn; exact Hn|].
  rewrite Hi. change (tick_or_default (Num 0)) with (Num 0).
  rewrite interpolateSprite_walk, fields_walk, attrs_of_interpolate, Hc.
  induction Hnum as [|a l Ha _ IH]; simpl; constructor; [|exact IH].
  now apply (interpolateAttr_zero true).
Qed.

(** X4.  [render] never writes a previous shadow value, and the capture
    of the previous values writes neither a live value nor a current
    shadow value. *)
Theorem render_and_capture_keep_to_their_slots tick m :
  slots _previous (stage (self (render tick m))) =
    slots _previous (stage (self m)) /\
  observe (capturePreviousSpriteProperties (properties (self m))
             (stage (self m))) = observe (stage (self m)) /\
  slots _current (capturePreviousSpriteProperties (properties (self m))
                    (stage (self m))) = slots _current (stage (self m)).
Proof.
  assert (Hon : forall b g a,
            (forall a', _previous (g a') = _previous a') ->
            _previous (on b g a) = _previous a)
    by (intros [] g a H; simpl; auto).
  assert (Hcap : forall (slot : Attr -> jsnum) b a,
            (forall a', slot (capture a') = slot a') ->
            slot (on b capture a) = slot a)
    by (intros slot [] a H; simpl; auto).
  split; [|split].
  - rewrite render_self.
    replace (stage (with_stage (self m) _))
      with (if interpolate (self m)
            then overStage (restoreSpriteProperties (properties (self m)))
                   (drawn tick m)
            else stage (self m)) by now destruct (self m).
    unfold drawn. destruct (interpolate (self m)); [|reflexivity].
    rewrite overStage_overStage.
    rewrite (overStage_ext _
               (walk (fun b f => restoreFields (properties (self m)) b
                        (interpolateFields (properties (self m))
                           (tick_or_default tick) b f)))).
    + apply slots_overStage. intros b f.
      unfold slot_fields, restoreFields, interpolateFields; simpl.
      now rewrite !Hon by reflexivity.
    + intros n.
      now rewrite restoreSpriteProperties_walk, interpolateSprite_walk,
        walk_walk.
  - unfold capturePreviousSpriteProperties. apply observe_overStage.
    intros n. rewrite setProperties_walk. apply observe_walk.
    intros b f. unfold live_fields, captureFields; simpl.
    now rewrite !(Hcap live) by reflexivity.
  - unfold capturePreviousSpriteProperties.
    rewrite (overStage_ext _ (walk (fun _ => captureFields (properties (self m)))))
      by (intros n; apply setProperties_walk).
    apply slots_overStage. intros b f.
    unfold slot_fields, captureFields; simpl.
    now rewrite !(Hcap _current) by reflexivity.
Qed.


End RenderPass.


(* ------------------------------------------------------------------ *)
(** ** Rates that are not rates *)

Section OddRates.
Context {W Renderer : Type}.
Implicit Types (m : @Machine W Renderer) (s : @Smoothie W Renderer).

Lemma jsge_undefined v : jsge v undefined = false.
Proof. now destruct v. Qed.

Lemma drain_no_duration (fuel : nat) m : drain fuel undefined m = Done m.
Proof. destruct fuel; simpl; now rewrite jsge_undefined. Qed.

Lemma jsdiv_undefined v : jsdiv v undefined = NaN.
Proof. now destruct v. Qed.

Lemma render_tick tick m : _tick (self (render tick m)) = _tick (self m).
Proof.
  exact (f_equal (fun c => snd (fst c)) (render_clock tick m)).
Qed.

(** A drain without a tick duration: no turn of the loop, a fraction
    that is not a number. *)
Lemma doInterpolate_no_duration (fuel : nat) now m :
  _frameDuration (self m) = undefined ->
  exists m',
    doInterpolate fuel now m = Done m' /\
    settings (self m') = settings (self m) /\
    _tick (self m') = NaN /\
    count_updates (trace m') = count_updates (trace m) /\
    count_draws (trace m') = S (count_draws (trace m)).
Proof.
  intros Hfd. unfold doInterpolate. rewrite Hfd, drain_no_duration.
  simpl bind. eexists. split; [reflexivity|].
  rewrite render_settings, render_tick, render_trace.
  rewrite count_updates_app, count_draws_app.
  change (count_updates [Draw _]) with 0%nat.
  change (count_draws [Draw _]) with 1%nat.
  unfold on_self; cbn [self world trace _lag with_lag with_tick _tick].
  rewrite jsdiv_undefined.
  repeat split; lia.
Qed.

Lemma is_undefined_false v : is_undefined v = false <-> v <> undefined.
Proof. destruct v; simpl; split; congruence. Qed.

(** A call of the game loop on an object whose logic rate is set but
    has no tick duration. *)
Lemma gameLoop_no_duration (fuel : nat) timestamp now m :
  _fps (self m) <> undefined ->
  _frameDuration (self m) = undefined ->
  exists m',
    gameLoop fuel timestamp now m = Done m' /\
    _fps (self m') <> undefined /\
    _frameDuration (self m') = undefined /\
    count_updates (trace m') = count_updates (trace m).
Proof.
  intros Hf Hfd. apply is_undefined_false in Hf.
  assert (Hkeep : forall m1 : @Machine W Renderer,
            settings (self m1) = settings (self m) ->
            is_undefined (_fps (self m1)) = false /\
            _frameDuration (self m1) = undefined).
  { intros m1 S1. unfold settings in S1.
    injection S1 as _ _ _ _ E5 E6 _ _. now rewrite E5, E6. }
  unfold gameLoop. change (self (emit RequestFrame m)) with (self m).
  rewrite Hf.
  destruct (doInterpolate_no_duration fuel now (emit RequestFrame m) Hfd)
    as (m1 & R & S1 & _ & T1 & _).
  assert (U1 : count_updates (trace m1) = count_updates (trace m)).
  { rewrite T1. unfold emit; cbn [trace].
    rewrite !count_updates_app.
    change (count_updates [RequestFrame]) with 0%nat. lia. }
  destruct (Hkeep m1 S1) as [K1 K2].
  assert (Hm : exists m', Done (emit RequestFrame m) = Done m' /\
            _fps (self m') <> undefined /\
            _frameDuration (self m') = undefined /\
            count_updates (trace m') = count_updates (trace m)).
  { eexists. split; [reflexivity|]. cbn [emit self trace].
    rewrite count_updates_app.
    change (count_updates [RequestFrame]) with 0%nat.
    repeat split; [now apply is_undefined_false | exact Hfd | lia]. }
  destruct (negb (paused (self m))); [|exact Hm].
  cbv iota.
  match goal with |- context [if ?c then doInterpolate _ _ _ else _] =>
    destruct c end.
  - exists m1. repeat split; try assumption. now apply is_undefined_false.
  - match goal with |- context [if ?c then _ else _] => destruct c end;
      [|exact Hm].
    rewrite R. simpl bind. eexists. split; [reflexivity|].
    unfold on_self; cbn [self trace _fps _frameDuration with_renderStartTime].
    repeat split; try assumption. now apply is_undefined_false.
Qed.

Lemma run_no_duration (fuel : nat) (calls : list (Q * Q)) : forall m,
  _fps (self m) <> undefined ->
  _frameDuration (self m) = undefined ->
  exists m',
    run fuel calls m = Done m' /\
    count_updates (trace m') = count_updates (trace m).
Proof.
  induction calls as [|[ts now] calls IH]; intros m Hf Hfd; simpl.
  - eauto.
  - destruct (gameLoop_no_duration fuel ts now m Hf Hfd)
      as (m1 & R1 & F1 & D1 & U1).
    destruct (IH m1 F1 D1) as (m' & R & U).
    exists m'. rewrite R1. simpl. split; [exact R | congruence].
Qed.

(** X7.  A logic rate of 0 is not the absence of a logic rate: once it
    is set, no call of the game loop calls the logic callback, paused or
    not, capped or not, whatever the timestamps and the clock. *)
Theorem zero_rate_never_updates m (fuel : nat) (calls : list (Q * Q)) :
  exists m',
    run fuel calls (on_self (fun s => set_fps s (Num 0)) m) = Done m' /\
    count_updates (trace m') = count_updates (trace m).
Proof.
  apply (run_no_duration fuel calls
           (on_self (fun s => set_fps s (Num 0)) m)); [discriminate | reflexivity].
Qed.

(** X8.  With a logic rate of 0 and no render cap, a call of the game
    loop that is not paused still renders once, and leaves a fraction
    [dt] that is not a number. *)
Theorem zero_rate_fraction_is_not_a_number m (fuel : nat)
    (timestamp now : Q) :
  paused (self m) = false ->
  _renderFps (self m) = undefined ->
  exists m',
    gameLoop fuel timestamp now (on_self (fun s => set_fps s (Num 0)) m)
      = Done m' /\
    dt (self m') = NaN /\
    count_draws (trace m') = S (count_draws (trace m)) /\
    count_updates (trace m') = count_updates (trace m).
Proof.
  intros Hp Hr.
  set (m0 := on_self (fun s => set_fps s (Num 0)) m).
  destruct (doInterpolate_no_duration fuel now (emit RequestFrame m0) eq_refl)
    as (m1 & R & _ & Tk & U1 & D1).
  exists m1. split; [|split; [exact Tk|]].
  - unfold gameLoop. change (self (emit RequestFrame m0)) with (self m0).
    change (paused (self m0)) with (paused (self m)).
    change (_fps (self m0)) with (Num 0).
    change (_renderFps (self m0)) with (_renderFps (self m)).
    rewrite Hp, Hr. exact R.
  - rewrite U1, D1. unfold emit, m0, on_self; cbn [trace].
    rewrite !count_draws_app, !count_updates_app.
    change (count_draws [RequestFrame]) with 0%nat.
    change (count_updates [RequestFrame]) with 0%nat. lia.
Qed.

Lemma catchUp_lag d m :
  _lag (self (catchUp d m)) = jssub (_lag (self m)) d.
Proof.
  exact (f_equal (fun c => snd (fst (fst c))) (catchUp_clock d m)).
Qed.

Lemma drain_negative_duration (d : Q) (fuel : nat) : forall m (l : Q),
  d < 0 -> _lag (self m) = Num l -> d <= l ->
  drain fuel (Num d) m = Diverge.
Proof.
  induction fuel as [|fuel IH]; intros m l Hd Hl Hle; simpl; rewrite Hl; simpl.
  - assert (E : Qle_bool d l = true) by now apply Qle_bool_iff.
    now rewrite E.
  - assert (E : Qle_bool d l = true) by now apply Qle_bool_iff.
    rewrite E. apply (IH _ (l - d)); [exact Hd | | lra].
    now rewrite catchUp_lag, Hl.
Qed.

(** X9.  A negative logic rate hangs the game loop: with a lag that is
    not negative and a clock that did not go back, the loop of the drain
    is still running after any number of turns. *)
Theorem negative_rate_hangs m (f l t0 now : Q) (fuel : nat) :
  f < 0 ->
  _lag (self m) = Num l -> 0 <= l ->
  _startTime (self m) = Num t0 -> t0 <= now ->
  _frameDuration (self (on_self (fun s => set_fps s (Num f)) m))
    = Num (1000 / f) /\
  doInterpolate fuel now (on_self (fun s => set_fps s (Num f)) m) = Diverge.
Proof.
  intros Hf Hl Hl0 Ht0 Hnow.
  assert (Hne : Qeq_bool f 0 = false).
  { apply not_true_is_false. intro A. apply Qeq_bool_iff in A.
    rewrite A in Hf. now apply Qlt_irrefl in Hf. }
  assert (Hfd : _frameDuration (self (on_self (fun s => set_fps s (Num f)) m))
                = Num (1000 / f)).
  { unfold on_self, set_fps, duration; simpl. now rewrite Hne. }
  assert (Hd : 1000 / f < 0).
  { assert (P : 0 < 1000 / - f) by (apply Qlt_shift_div_l; lra).
    assert (E : 1000 / f == - (1000 / - f)).
    { field. intro A; rewrite A in Hf; now apply Qlt_irrefl in Hf. }
    rewrite E. lra. }
  split; [exact Hfd|].
  unfold doInterpolate. rewrite Hfd.
  change (_startTime (self (on_self (fun s => set_fps s (Num f)) m)))
    with (_startTime (self m)).
  rewrite Ht0. cbn [jssub jsarith jsgt].
  set (e := if negb (Qle_bool (now - t0) 1000)
            then Num (1000 / f) else Num (now - t0)).
  assert (He : exists q, e = Num q /\ 1000 / f <= l + q).
  { unfold e. destruct (Qle_bool (now - t0) 1000); simpl; eexists;
      (split; [reflexivity | lra]). }
  destruct He as (q & -> & Hq).
  rewrite (drain_negative_duration (1000 / f) fuel _ (l + q) Hd);
    [reflexivity | | exact Hq].
  unfold on_self; cbn [self _lag with_lag with_startTime set_fps].
  now rewrite Hl.
Qed.

(** X10.  A render rate of 0, like one that is not a number or is
    undefined, lifts the render cap at once: with a logic rate set, every
    call that is not paused drains and renders, whatever its timestamp and
    whatever next render time was scheduled before. *)
Theorem falsy_render_rate_lifts_the_cap m (v : jsnum) (fuel : nat)
    (timestamp now : Q) :
  truthy v = false ->
  paused (self m) = false ->
  _fps (self m) <> undefined ->
  gameLoop fuel timestamp now (on_self (fun s => set_renderFps s v) m) =
  doInterpolate fuel now
    (emit RequestFrame (on_self (fun s => set_renderFps s v) m)).
Proof.
  intros Hv Hp Hf. apply is_undefined_false in Hf.
  set (m0 := on_self (fun s => set_renderFps s v) m).
  unfold gameLoop. change (self (emit RequestFrame m0)) with (self m0).
  change (paused (self m0)) with (paused (self m)).
  change (_fps (self m0)) with (_fps (self m)).
  change (_renderDuration (self m0)) with (duration v).
  unfold duration. rewrite Hp, Hf, Hv. simpl.
  now rewrite orb_true_r.
Qed.

End OddRates.

(* ------------------------------------------------------------------ *)
(** ** What one drain can do *)

Section OneDrain.
Context {W Renderer : Type}.
Implicit Types (m : @Machine W Renderer) (s : @Smoothie W Renderer).



(** X12.  A drain that is not clamped loses no time: with at most
    1000 ms elapsed, the tick duration times the number of calls of the
    callback, plus the lag left, is the lag before plus the time
    elapsed. *)
Theorem drain_accounts_for_the_time m (d l t0 now : Q) (fuel : nat) :
  _frameDuration (self m) = Num d -> 0 < d ->
  _lag (self m) = Num l -> 0 <= l ->
  _startTime (self m) = Num t0 -> t0 <= now -> now - t0 <= 1000 ->
  (Z.to_nat (Qfloor ((l + (now - t0)) / d)) <= fuel)%nat ->
  exists m' l',
    doInterpolate fuel now m = Done m' /\
    _lag (self m') = Num l' /\
    _startTime (self m') = Num now /\
    inject_Z (Z.of_nat (count_updates (trace m') - count_updates (trace m)))
      * d + l' == l + (now - t0).
Proof.
  intros Hfd Hd Hl Hl0 Ht0 Hnow Hgap Hfuel.
  assert (Hc : clamp d (now - t0) = now - t0).
  { unfold clamp. destruct (Qle_bool (now - t0) 1000) eqn:A; [reflexivity|].
    exfalso. apply Qle_bool_iff in Hgap. congruence. }
  destruct (doInterpolate_spec m d l t0 now fuel Hfd Hd Hl Ht0)
    as (m' & l' & tr & R & _ & C & L & _ & _ & T);
    rewrite ?Hc; [lra | exact Hfuel |].
  rewrite Hc in *.
  exists m', l'. unfold clock in C. injection C as C1 C2 _ _.
  refine (conj R (conj C2 (conj C1 _))).
  rewrite T, !count_updates_app, count_updates_repeat.
  change (count_updates [Draw tr]) with 0%nat.
  replace (count_updates (trace m)
           + (Z.to_nat (Qfloor ((l + (now - t0)) / d)) + 0)
           - count_updates (trace m))%nat
    with (Z.to_nat (Qfloor ((l + (now - t0)) / d))) by lia.
  rewrite Z2Nat.id by (apply floor_div_nonneg; [exact Hd | lra]).
  rewrite L. ring.
Qed.

End OneDrain.

(* ------------------------------------------------------------------ *)
(** ** Every call comes back *)

Section ComesBack.
Context {W Engine Renderer : Type}.
Implicit Types (m : @Machine W Renderer) (s : @Smoothie W Renderer).

Lemma count_frames_app t u :
  count_frames (t ++ u) = (count_frames t + count_frames u)%nat.
Proof. unfold count_frames. now rewrite filter_app, length_app. Qed.

Lemma drain_frames (fuel : nat) d : forall m m',
  drain fuel d m = Done m' -> count_frames (trace m') = count_frames (trace m).
Proof.
  induction fuel as [|fuel IH]; intros m m'; simpl;
    destruct (jsge (_lag (self m)) d); try discriminate.
  - now intros [= <-].
  - intros H. apply IH in H. rewrite H, catchUp_trace, count_frames_app.
    change (count_frames [Update]) with 0%nat. lia.
  - now intros [= <-].
Qed.

Lemma doInterpolate_frames (fuel : nat) now m m' :
  doInterpolate fuel now m = Done m' ->
  count_frames (trace m') = count_frames (trace m).
Proof.
  unfold doInterpolate.
  match goal with |- context [drain ?a ?b ?c] =>
    destruct (drain a b c) as [m1| |] eqn:R end; simpl; try discriminate.
  intros [= <-]. apply drain_frames in R.
  rewrite render_trace, count_frames_app.
  change (count_frames [Draw _]) with 0%nat.
  unfold on_self in *; cbn [trace] in *. lia.
Qed.

Lemma gameLoop_counts (fuel : nat) timestamp now m m' :
  gameLoop fuel timestamp now m = Done m' ->
  count_frames (trace m') = S (count_frames (trace m)) /\
  (count_draws (trace m') <= S (count_draws (trace m)))%nat.
Proof.
  assert (E : count_frames (trace (emit RequestFrame m))
              = S (count_frames (trace m)) /\
              count_draws (trace (emit RequestFrame m))
              = count_draws (trace m)).
  { unfold emit; cbn [trace]. rewrite count_frames_app, count_draws_app.
    change (count_frames [RequestFrame]) with 1%nat.
    change (count_draws [RequestFrame]) with 0%nat. lia. }
  destruct E as [EF ED].
  assert (Hdrain : forall m1,
            doInterpolate fuel now (emit RequestFrame m) = Done m1 ->
            count_frames (trace m1) = S (count_frames (trace m)) /\
            (count_draws (trace m1) <= S (count_draws (trace m)))%nat).
  { intros m1 R. pose proof (doInterpolate_frames _ _ _ _ R) as F.
    apply doInterpolate_frame in R as (_ & D & _). lia. }
  unfold gameLoop.
  destruct (negb (paused (self (emit RequestFrame m))));
    [|intros [= <-]; lia].
  destruct (is_undefined (_fps (self (emit RequestFrame m)))).
  - intros [= <-]. rewrite render_trace, callUpdate_trace.
    rewrite !count_frames_app, !count_draws_app.
    change (count_frames [Update]) with 0%nat.
    change (count_draws [Update]) with 0%nat.
    change (count_frames [Draw _]) with 0%nat.
    change (count_draws [Draw _]) with 1%nat. lia.
  - match goal with |- (if ?c then _ else _) = _ -> _ => destruct c end;
      [apply Hdrain|].
    match goal with |- (if ?c then _ else _) = _ -> _ => destruct c end;
      [|intros [= <-]; lia].
    destruct (doInterpolate fuel now (emit RequestFrame m)) as [m1| |] eqn:R;
      simpl; try discriminate.
    intros [= <-]. unfold on_self; cbn [trace]. now apply Hdrain.
Qed.

Lemma perform_counts (fuel : nat) (ops : list Op) : forall m m',
  perform fuel ops m = Done m' ->
  count_frames (trace m') = (count_frames (trace m) + game_loop_calls ops)%nat /\
  (count_draws (trace m') <= count_draws (trace m) + game_loop_calls ops)%nat.
Proof.
  induction ops as [|op ops IH]; intros m m'; simpl.
  - intros [= <-]. unfold game_loop_calls; simpl. lia.
  - destruct op as [timestamp now| | |value|value]; simpl;
      try (intros H; apply IH in H; unfold game_loop_calls in *;
           simpl in *; exact H).
    destruct (gameLoop fuel timestamp now m) as [m1| |] eqn:R; simpl;
      try discriminate.
    intros H. apply IH in H. apply gameLoop_counts in R.
    unfold game_loop_calls in *; simpl in *. lia.
Qed.

(** X13.  From the constructor on, with logic rates that are positive
    numbers or undefined and a clock that does not go back, whatever the
    client calls (the game loop with any timestamps, [pause], [resume],
    the rate mutators): every call returns, given turns enough for the
    drains, the tick duration stays a positive number and the lag stays a
    non-negative number. *)
Theorem scheduler_always_returns (now : Q)
    (options : @SmoothieOptions W Engine Renderer)
    (s : @Smoothie W Renderer) (w : W) (ops : list Op) :
  new_Smoothie now options = Done s ->
  rate_ok (o_fps options) ->
  clock_ok now ops ->
  exists (n : nat) m',
    (forall fuel, (n <= fuel)%nat ->
       perform fuel ops (mkMachine s w []) = Done m') /\
    healthy (last_reading now ops) m'.
Proof.
  intros Hnew Hrate Hops.
  apply (perform_healthy ops now (mkMachine s w [])); [|exact Hops].
  exact (new_Smoothie_healthy now options s w Hnew Hrate).
Qed.

(** X14.  Over any such sequence of calls the loop re-registers itself
    exactly once per call of the game loop, paused or not, and the
    renderer is called at most once per call of the game loop. *)
Theorem one_frame_request_per_call (t : Q) (ops : list Op) m :
  healthy t m ->
  clock_ok t ops ->
  exists (n : nat) m',
    (forall fuel, (n <= fuel)%nat -> perform fuel ops m = Done m') /\
    count_frames (trace m')
      = (count_frames (trace m) + game_loop_calls ops)%nat /\
    (count_draws (trace m')
       <= count_draws (trace m) + game_loop_calls ops)%nat.
Proof.
  intros Hm Hops.
  destruct (perform_healthy ops t m Hm Hops) as (n & m' & R & _).
  exists n, m'. split; [exact R|].
  exact (perform_counts n ops m m' (R n (Nat.le_refl n))).
Qed.

End ComesBack.

(* ------------------------------------------------------------------ *)
(** ** What a drain draws *)

Lemma numeric_attr_ext a a' :
  live a' = live a -> _previous a' = _previous a ->
  numeric_attr a -> numeric_attr a'.
Proof. unfold numeric_attr. intros -> ->. auto. Qed.


Lemma interpolate_restore_numeric b tick a :
  numeric_attr a ->
  numeric_attr (on b restore (on b (interpolateAttr tick) a)).
Proof. intros H. destruct b; simpl; [|exact H]. exact H. Qed.



Lemma rendered_numeric p tick b f :
  numeric_fields f ->
  numeric_fields (restoreFields p b (interpolateFields p tick b f)).
Proof.
  intros (H1 & H2 & H3 & H4 & H5 & H6 & H7 & H8).
  unfold numeric_fields, restoreFields, interpolateFields; simpl.
  repeat split; now apply interpolate_restore_numeric.
Qed.






Section DrainDraws.
Context {W Renderer : Type}.
Implicit Types (m : @Machine W Renderer) (s : @Smoothie W Renderer).

Lemma catchUp_stage d m :
  stage (self (catchUp d m)) =
  snd (update (self m) (world m)
         (capturePreviousSpriteProperties (properties (self m))
            (stage (self m)))).
Proof.
  unfold catchUp, callUpdate, on_self; simpl.
  now destruct (update (self m) (world m) _).
Qed.




End DrainDraws.

(* ------------------------------------------------------------------ *)
(** ** The ball *)

Lemma Qabs_minus_one : Qabs (-1) == 1.
Proof. reflexivity. Qed.

(** One logic step multiplies the size of each velocity by the size of
    the friction, bounce or no bounce. *)
Lemma smoothie_update_speed (w : App.World) (sprite : Fields) (vx vy f : Q) :
  App.velX (App.ball w) = Num vx ->
  App.velY (App.ball w) = Num vy ->
  App.friction (App.ball w) = Num f ->
  exists vx' vy',
    App.velX (App.ball (fst (App.smoothie_update w sprite))) = Num vx' /\
    App.velY (App.ball (fst (App.smoothie_update w sprite))) = Num vy' /\
    App.friction (App.ball (fst (App.smoothie_update w sprite))) = Num f /\
    Qabs vx' == Qabs vx * Qabs f /\
    Qabs vy' == Qabs vy * Qabs f.
Proof.
  intros Hx Hy Hf. unfold App.smoothie_update.
  cbn [fst App.ball App.velX App.velY App.friction]. rewrite Hx, Hy, Hf.
  do 2 match goal with |- context [if ?c then _ else _] =>
         destruct c end; cbn [jsmul jsarith];
    eexists; eexists;
    (split; [reflexivity|]); (split; [reflexivity|]);
    (split; [reflexivity|]);
    rewrite ?Qabs_Qmult, ?Qabs_minus_one; split; ring.
Qed.

Lemma smoothie_update_rotation (w : App.World) (sprite : Fields) (r : Q) :
  live (rotation sprite) = Num r ->
  live (rotation (snd (App.smoothie_update w sprite))) = Num (r + (1 # 10)).
Proof. intros Hr. unfold App.smoothie_update; simpl. now rewrite Hr. Qed.

(** X16.  The ball slows down geometrically and turns steadily: after
    [n] logic steps each velocity has the size it had times the size of
    the friction to the power [n], whatever bounces happened, and the
    rotation has grown by [n] tenths. *)
Theorem ball_slows_down_and_turns (n : nat) (w : App.World)
    (sprite : Fields) (vx vy f r : Q) :
  App.velX (App.ball w) = Num vx ->
  App.velY (App.ball w) = Num vy ->
  App.friction (App.ball w) = Num f ->
  live (rotation sprite) = Num r ->
  exists vx' vy' r',
    App.velX (App.ball (fst (App.steps n w sprite))) = Num vx' /\
    App.velY (App.ball (fst (App.steps n w sprite))) = Num vy' /\
    live (rotation (snd (App.steps n w sprite))) = Num r' /\
    Qabs vx' == Qabs vx * Qpow (Qabs f) n /\
    Qabs vy' == Qabs vy * Qpow (Qabs f) n /\
    r' == r + inject_Z (Z.of_nat n) * (1 # 10).
Proof.
  revert w sprite vx vy r.
  induction n as [|n IH]; intros w sprite vx vy r Hx Hy Hf Hr.
  - exists vx, vy, r. simpl. repeat split; try assumption; ring.
  - destruct (smoothie_update_speed w sprite vx vy f Hx Hy Hf)
      as (vx1 & vy1 & Hx1 & Hy1 & Hf1 & Ax & Ay).
    pose proof (smoothie_update_rotation w sprite r Hr) as Hr1.
    cbn [App.steps].
    destruct (App.smoothie_update w sprite) as [w1 sprite1];
      cbn [fst snd] in *.
    destruct (IH w1 sprite1 vx1 vy1 _ Hx1 Hy1 Hf1 Hr1)
      as (vx' & vy' & r' & Hx' & Hy' & Hr' & Bx & By & Br).
    exists vx', vy', r'. repeat split; try assumption.
    + rewrite Bx, Ax. cbn [Qpow]. ring.
    + rewrite By, Ay. cbn [Qpow]. ring.
    + rewrite Br, Nat2Z.inj_succ. unfold Z.succ. rewrite inject_Z_plus.
      change (inject_Z 1) with 1. ring.
Qed.

(** X17.  The bounce does not look at the direction of the ball: a
    sprite whose right edge is at or beyond the width of the screen has
    its horizontal velocity reversed before it moves, so one that was
    already coming back (velocity negative) is sent further out. *)
Theorem bounce_ignores_the_direction (w : App.World) (sprite : Fields)
    (px pw sw v f : Q) :
  live (x sprite) = Num px ->
  live (width sprite) = Num pw ->
  App.screen_width w = Num sw ->
  App.velX (App.ball w) = Num v ->
  App.friction (App.ball w) = Num f ->
  sw <= px + pw / 2 ->
  exists px' v',
    live (x (snd (App.smoothie_update w sprite))) = Num px' /\
    App.velX (App.ball (fst (App.smoothie_update w sprite))) = Num v' /\
    px' == px - v /\
    v' == - v * f /\
    (v < 0 -> px < px').
Proof.
  intros Hx Hw Hs Hv Hf Hedge.
  unfold App.smoothie_update; simpl. rewrite Hx, Hw, Hs, Hv, Hf. simpl.
  assert (E : Qle_bool sw (px + pw / 2) = true) by now apply Qle_bool_iff.
  rewrite E. simpl.
  eexists; eexists. split; [reflexivity|]. split; [reflexivity|].
  split; [ring|]. split; [ring|]. intros Hneg. lra.
Qed.

(** X18.  A click travels whole: the value pushed by [onClick], taken
    in by [updateBall] on any client, gives that client the velocity of
    the clicked ball after the click and the position of its sprite, and
    leaves the client's bounce, friction, rotation and every other
    attribute as they were; taken in by the client that clicked, it
    changes nothing. *)
Theorem click_round_trip (pointer_x pointer_y : jsnum)
    (b b' : App.BoardObject) (sprite sprite' : Fields) :
  let clicked := fst (App.onClick pointer_x pointer_y b sprite) in
  let value := snd (App.onClick pointer_x pointer_y b sprite) in
  let received := App.updateBall value b' sprite' in
  App.velX (fst received) = App.velX clicked /\
  App.velY (fst received) = App.velY clicked /\
  live (x (snd received)) = live (x sprite) /\
  live (y (snd received)) = live (y sprite) /\
  App.bounce (fst received) = App.bounce b' /\
  App.friction (fst received) = App.friction b' /\
  (forall c, c <> Position ->
     attrs_of c (snd received) = attrs_of c sprite') /\
  slot_fields _previous (snd received) = slot_fields _previous sprite' /\
  slot_fields _current (snd received) = slot_fields _current sprite' /\
  App.updateBall value clicked sprite = (clicked, sprite).
Proof.
  simpl. repeat split.
  - intros c Hc. destruct c; try reflexivity. congruence.
  - unfold App.updateBall; simpl.
    destruct sprite as [[] [] ? ? ? ? ? ?]; reflexivity.
Qed.

(* ------------------------------------------------------------------ *)
(** ** What the previous snapshot is *)

Lemma nth_error_map_eq {A B : Type} (f : A -> B) (l l' : list A) i c :
  map f l = map f l' -> nth_error l i = Some c ->
  exists c', nth_error l' i = Some c' /\ f c' = f c.
Proof.
  intros E Hc.
  pose proof (nth_error_map f i l) as H1.
  pose proof (nth_error_map f i l') as H2.
  rewrite E, H2, Hc in H1.
  destruct (nth_error l' i) as [c'|]; [|discriminate].
  exists c'. split; [reflexivity|]. simpl in H1. congruence.
Qed.

Lemma slots_descend slot path : forall t t' n,
  slots slot t = slots slot t' ->
  descend path t = Some n ->
  exists n',
    descend path t' = Some n' /\
    slot_fields slot (fields n') = slot_fields slot (fields n).
Proof.
  induction path as [|i rest IH]; intros [b f cs] [b' f' cs'] n E; simpl.
  - intros [= <-]. eexists. split; [reflexivity|].
    symmetry.
    exact (f_equal (fun t => match t with LiveNode _ vs _ => vs end) E).
  - pose proof (f_equal (fun t => match t with LiveNode _ _ ks => ks end) E)
      as Ecs. simpl in Ecs.
    destruct (nth_error cs i) as [c|] eqn:Ec; [|discriminate].
    destruct (nth_error_map_eq (slots slot) cs cs' i c Ecs Ec)
      as (c' & Ec' & Es).
    rewrite Ec'. intros Hd. now apply (IH c c' n).
Qed.

Section PreviousSnapshot.
Context {W Renderer : Type}.
Implicit Types (m : @Machine W Renderer) (s : @Smoothie W Renderer).

(** X20.  The previous snapshot is the state before the logic step.
    With a callback that leaves the previous shadow values and the shape
    of the tree alone, one turn of the drain loop leaves every node below
    the root, in every category that is on, with previous values equal to
    the live values the node had when the turn began. *)
Theorem previous_is_the_state_before_the_step m (d : jsnum)
    (i : nat) (rest : list nat) (n : Node) :
  keeps_previous (update (self m)) ->
  descend (i :: rest) (stage (self m)) = Some n ->
  exists n',
    descend (i :: rest) (stage (self (catchUp d m))) = Some n' /\
    forall c, enabled (properties (self m)) c = true ->
      map _previous (attrs_of c (fields n')) = map live (attrs_of c (fields n)).
Proof.
  intros Hk Hn. set (p := properties (self m)).
  assert (Hcap : descend (i :: rest)
                   (capturePreviousSpriteProperties p (stage (self m)))
                 = Some (walk (fun _ => captureFields p) n)).
  { unfold capturePreviousSpriteProperties.
    rewrite (overStage_ext _ (walk (fun _ => captureFields p)))
      by (intros k; apply setProperties_walk).
    apply descend_overStage_walk; exact Hn. }
  rewrite catchUp_stage. fold p.
  destruct (slots_descend _previous (i :: rest) _ _ _
              (eq_sym (Hk (world m)
                 (capturePreviousSpriteProperties p (stage (self m)))))
              Hcap) as (n' & Hn' & E).
  exists n'. split; [exact Hn'|].
  rewrite fields_walk in E. unfold slot_fields in E.
  injection E as E1 E2 E3 E4 E5 E6 E7 E8.
  intros c Hc.
  destruct c; simpl in Hc |- *; unfold captureFields in *; simpl in *;
    rewrite Hc in *; simpl in *; congruence.
Qed.

End PreviousSnapshot.

(* ------------------------------------------------------------------ *)
(** ** Odd clocks and pauses *)

Section OddClocks.
Context {W Renderer : Type}.
Implicit Types (m : @Machine W Renderer) (s : @Smoothie W Renderer).

Lemma drain_nothing (fuel : nat) (d l : Q) m :
  _lag (self m) = Num l -> l < d -> drain fuel (Num d) m = Done m.
Proof.
  intros Hl Hlt.
  assert (E : jsge (_lag (self m)) (Num d) = false).
  { rewrite Hl; simpl. apply not_true_is_false. intro A.
    apply Qle_bool_iff in A. lra. }
  destruct fuel; simpl; now rewrite E.
Qed.

(** X21.  When the clock goes back the drain makes no logic step and
    takes the time off the lag: with a lag below one tick duration and a
    clock reading before the start time, the callback is not called, the
    lag becomes the lag plus the (negative) elapsed time, and [dt] is that
    lag over the tick duration, negative as soon as the lag is. *)
Theorem clock_gone_back_takes_time_off m (d l t0 now : Q) (fuel : nat) :
  _frameDuration (self m) = Num d -> 0 < d ->
  _lag (self m) = Num l -> l < d ->
  _startTime (self m) = Num t0 -> now < t0 ->
  exists m' f,
    doInterpolate fuel now m = Done m' /\
    count_updates (trace m') = count_updates (trace m) /\
    count_draws (trace m') = S (count_draws (trace m)) /\
    _lag (self m') = Num (l + (now - t0)) /\
    _startTime (self m') = Num now /\
    dt (self m') = Num f /\ f < 1 /\
    (l + (now - t0) < 0 -> f < 0).
Proof.
  intros Hfd Hd Hl Hlt Ht0 Hback.
  set (L := l + (now - t0)).
  set (m0 := on_self (fun s => with_lag s (Num L))
               (on_self (fun s => with_startTime s (Num now)) m)).
  assert (Hgap : Qle_bool (now - t0) 1000 = true)
    by (apply Qle_bool_iff; lra).
  assert (R : doInterpolate fuel now m =
              Done (render (Num (L / d))
                      (on_self (fun s => with_tick s (Num (L / d))) m0))).
  { unfold doInterpolate. rewrite Hfd, Ht0. simpl. rewrite Hgap. simpl.
    replace (on_self _ (on_self _ m)) with m0
      by (unfold m0, L, on_self; simpl; now rewrite Hl).
    rewrite (drain_nothing fuel d L m0 eq_refl) by (unfold L; lra).
    unfold bind, on_self. simpl. now rewrite (Qeq_bool_pos d Hd). }
  eexists. exists (L / d). split; [exact R|].
  rewrite render_trace, count_updates_app, count_draws_app.
  change (count_updates [Draw _]) with 0%nat.
  change (count_draws [Draw _]) with 1%nat.
  pose proof (render_clock (Num (L / d))
                (on_self (fun s => with_tick s (Num (L / d))) m0)) as C.
  unfold clock in C. injection C as C1 C2 C3 _.
  unfold dt. rewrite C1, C2, C3.
  unfold m0, on_self; cbn [trace self _lag _tick _startTime with_tick
                             with_lag with_startTime].
  repeat split; try lia.
  - apply Qlt_shift_div_r; [exact Hd | unfold L; lra].
  - intros Hneg. apply Qlt_shift_div_r; [exact Hd | fold L in Hneg; lra].
Qed.



End OddClocks.

(* ------------------------------------------------------------------ *)
(** ** Rounding to a double *)

Lemma pow2_pos k : 0 < pow2 k.
Proof. unfold pow2. apply Qpower_0_lt. reflexivity. Qed.

Lemma pow2_plus a b : pow2 (a + b) == pow2 a * pow2 b.
Proof. unfold pow2. apply Qpower_plus. discriminate. Qed.

Lemma pow2_minus a b : pow2 (a - b) == pow2 a / pow2 b.
Proof.
  unfold Z.sub. rewrite pow2_plus. unfold pow2 at 2. rewrite Qpower_opp.
  reflexivity.
Qed.

Lemma pow2_Z (n : Z) : (0 <= n)%Z -> pow2 n == inject_Z (2 ^ n).
Proof. intros H. unfold pow2. now rewrite Zpower_Qpower. Qed.

Lemma ilog2_below (x : Q) : 0 < x -> pow2 (ilog2 x) <= x.
Proof.
  intros Hx. unfold ilog2.
  set (a := Z.log2 (Qnum x)). set (b := Z.log2 (Zpos (Qden x))).
  destruct (Qle_bool (pow2 (a - b)) x) eqn:E.
  - now apply Qle_bool_iff.
  - assert (Hn : (0 < Qnum x)%Z).
    { destruct x as [n dd]. unfold Qlt in Hx. simpl in *. lia. }
    destruct (Z.log2_spec (Qnum x) Hn) as [A _]. fold a in A.
    destruct (Z.log2_spec (Zpos (Qden x)) eq_refl) as [_ B]. fold b in B.
    assert (Ha : (0 <= a)%Z) by apply Z.log2_nonneg.
    assert (Hb : (0 <= b)%Z) by apply Z.log2_nonneg.
    replace (a - b - 1)%Z with (a - Z.succ b)%Z by lia.
    rewrite pow2_minus, !pow2_Z by lia.
    apply Qle_shift_div_r.
    + change 0 with (inject_Z 0). rewrite <- Zlt_Qlt. lia.
    + destruct x as [n dd]. simpl in *. unfold Qle. simpl.
      rewrite Z.mul_1_r.
      assert (0 < 2 ^ a)%Z by (apply Z.pow_pos_nonneg; lia).
      nia.
Qed.

Lemma ilog2_above (x : Q) : 0 < x -> x < pow2 (ilog2 x + 1).
Proof.
  intros Hx. unfold ilog2.
  set (a := Z.log2 (Qnum x)). set (b := Z.log2 (Zpos (Qden x))).
  destruct (Qle_bool (pow2 (a - b)) x) eqn:E.
  - assert (Hn : (0 < Qnum x)%Z).
    { destruct x as [n dd]. unfold Qlt in Hx. simpl in *. lia. }
    destruct (Z.log2_spec (Qnum x) Hn) as [_ A]. fold a in A.
    destruct (Z.log2_spec (Zpos (Qden x)) eq_refl) as [B _]. fold b in B.
    assert (Ha : (0 <= a)%Z) by apply Z.log2_nonneg.
    assert (Hb : (0 <= b)%Z) by apply Z.log2_nonneg.
    replace (a - b + 1)%Z with (Z.succ a - b)%Z by lia.
    rewrite pow2_minus, !pow2_Z by lia.
    apply Qlt_shift_div_l.
    + change 0 with (inject_Z 0). rewrite <- Zlt_Qlt. apply Z.pow_pos_nonneg; lia.
    + destruct x as [n dd]. simpl in *. unfold Qlt. simpl.
      rewrite Z.mul_1_r.
      assert (0 < 2 ^ b)%Z by (apply Z.pow_pos_nonneg; lia).
      nia.
  - replace (a - b - 1 + 1)%Z with (a - b)%Z by lia.
    apply Qnot_le_lt. intro A. apply Qle_bool_iff in A. congruence.
Qed.

Lemma nearest_even_close (x : Q) :
  Qabs (inject_Z (nearest_even x) - x) <= 1 # 2.
Proof.
  unfold nearest_even.
  pose proof (Qfloor_le x) as A. pose proof (Qlt_floor x) as B.
  rewrite inject_Z_plus in B. change (inject_Z 1) with 1 in B.
  apply Qabs_Qle_condition.
  destruct (Qcompare (x - inject_Z (Qfloor x)) (1 # 2)) eqn:C.
  - apply Qeq_alt in C. destruct (Z.even (Qfloor x));
      rewrite ?inject_Z_plus; change (inject_Z 1) with 1; split; lra.
  - apply Qlt_alt in C. split; lra.
  - apply Qgt_alt in C. rewrite inject_Z_plus. change (inject_Z 1) with 1.
    split; lra.
Qed.

Lemma round53_comp (x y : Q) : x == y -> round53 x = round53 y.
Proof. intros E. unfold round53. now rewrite (Qred_complete x y E). Qed.

(** One rounding is off by at most 2^-53 of the number rounded. *)
Lemma round53_error (x : Q) :
  Qabs (round53 x - x) <= Qabs x * unit_roundoff.
Proof.
  unfold round53.
  pose proof (Qred_correct x) as Hy. set (y := Qred x) in *. clearbody y.
  rewrite <- Hy. clear Hy x.
  destruct (Qeq_bool y 0) eqn:E.
  - apply Qeq_bool_iff in E. rewrite E. vm_compute. discriminate.
  - assert (Hx : ~ y == 0).
    { intro A. apply Qeq_bool_iff in A. congruence. }
    rewrite Qred_correct.
    set (e := (ilog2 (Qabs y) - 52)%Z).
    assert (Hax : 0 < Qabs y).
    { destruct (Qlt_le_dec 0 (Qabs y)) as [|A]; [assumption|].
      exfalso. apply Hx. pose proof (Qabs_nonneg y).
      assert (Z0 : Qabs y == 0) by lra.
      revert Z0. apply Qabs_case; intros; lra. }
    pose proof (ilog2_below (Qabs y) Hax) as L.
    pose proof (pow2_pos e) as P.
    replace (ilog2 (Qabs y)) with (e + 52)%Z in L by (unfold e; lia).
    rewrite pow2_plus in L.
    change (pow2 52) with (inject_Z 4503599627370496) in L.
    pose proof (nearest_even_close (y / pow2 e)) as N.
    set (r := inject_Z (nearest_even (y / pow2 e))) in *.
    assert (D : r * pow2 e - y == (r - y / pow2 e) * pow2 e).
    { field. intro A. rewrite A in P. now apply Qlt_irrefl in P. }
    rewrite D, Qabs_Qmult, (Qabs_pos (pow2 e)) by lra.
    unfold unit_roundoff.
    assert (Qabs (r - y / pow2 e) * pow2 e <= (1 # 2) * pow2 e).
    { apply Qmult_le_compat_r; [exact N | lra]. }
    change (inject_Z 4503599627370496) with 4503599627370496 in L.
    lra.
Qed.

(** A number that is not zero is rounded to [m * 2^e] with a significand
    [m] of 53 bits, or to the power of two above them. *)
Lemma round53_shape (x : Q) :
  ~ x == 0 ->
  exists (m e : Z),
    round53 x == inject_Z m * pow2 e /\
    (4503599627370496 <= Z.abs m <= 9007199254740992)%Z.
Proof.
  intros Hx. unfold round53.
  pose proof (Qred_correct x) as Hy. set (y := Qred x) in *. clearbody y.
  assert (Hy0 : ~ y == 0) by (now rewrite Hy).
  clear Hy Hx x.
  destruct (Qeq_bool y 0) eqn:E.
  { apply Qeq_bool_iff in E. contradiction. }
  set (e := (ilog2 (Qabs y) - 52)%Z).
  exists (nearest_even (y / pow2 e)), e.
  split; [apply Qred_correct|].
  assert (Hax : 0 < Qabs y).
  { destruct (Qlt_le_dec 0 (Qabs y)) as [|A]; [assumption|].
    exfalso. apply Hy0. pose proof (Qabs_nonneg y).
    assert (Z0 : Qabs y == 0) by lra.
    revert Z0. apply Qabs_case; intros; lra. }
  pose proof (ilog2_below (Qabs y) Hax) as L.
  pose proof (ilog2_above (Qabs y) Hax) as U.
  pose proof (pow2_pos e) as P.
  replace (ilog2 (Qabs y)) with (e + 52)%Z in L by (unfold e; lia).
  replace (ilog2 (Qabs y) + 1)%Z with (e + 53)%Z in U by (unfold e; lia).
  rewrite pow2_plus in L, U.
  change (pow2 52) with 4503599627370496 in L.
  change (pow2 53) with 9007199254740992 in U.
  pose proof (nearest_even_close (y / pow2 e)) as N.
  set (m := nearest_even (y / pow2 e)) in *.
  assert (Hq : Qabs (y / pow2 e) == Qabs y / pow2 e).
  { unfold Qdiv. rewrite Qabs_Qmult. apply Qmult_comp; [reflexivity|].
    apply Qabs_pos. apply Qlt_le_weak, Qinv_lt_0_compat, P. }
  assert (L' : 4503599627370496 <= Qabs (y / pow2 e)).
  { rewrite Hq. apply Qle_shift_div_l; [exact P | lra]. }
  assert (U' : Qabs (y / pow2 e) < 9007199254740992).
  { rewrite Hq. apply Qlt_shift_div_r; [exact P | lra]. }
  pose proof (Qabs_triangle_reverse (inject_Z m) (y / pow2 e)) as T1.
  pose proof (Qabs_triangle_reverse (y / pow2 e) (inject_Z m)) as T2.
  rewrite (Qabs_Qminus (y / pow2 e) (inject_Z m)) in T2.
  assert (A1 : 4503599627370496 - 1 < Qabs (inject_Z m)) by lra.
  assert (A2 : Qabs (inject_Z m) < 9007199254740992 + 1) by lra.
  assert (Hm : Qabs (inject_Z m) == inject_Z (Z.abs m)).
  { unfold Qabs, inject_Z. reflexivity. }
  rewrite Hm in A1, A2.
  change (4503599627370496 - 1) with (inject_Z 4503599627370495) in A1.
  change (9007199254740992 + 1) with (inject_Z 9007199254740993) in A2.
  rewrite <- Zlt_Qlt in A1, A2. lia.
Qed.

Lemma round53_nonneg x : 0 <= x -> 0 <= round53 x.
Proof.
  intros Hx. pose proof (round53_error x) as E.
  rewrite (Qabs_pos x Hx) in E. apply Qabs_Qle_condition in E.
  unfold unit_roundoff in E. lra.
Qed.

Lemma round53_near (x b : Q) :
  0 <= x -> x <= b ->
  x - b * unit_roundoff <= round53 x /\ round53 x <= x + b * unit_roundoff.
Proof.
  intros Hx Hb. pose proof (round53_error x) as E.
  rewrite (Qabs_pos x Hx) in E. apply Qabs_Qle_condition in E.
  unfold unit_roundoff in *. lra.
Qed.

(* ------------------------------------------------------------------ *)
(** ** The logic clock in double precision *)

Section DoubleDrain.
Context {W Renderer : Type}.
Implicit Types (m : @Machine W Renderer) (s : @Smoothie W Renderer).

Lemma Double_catchUp_trace d m :
  trace (Double.catchUp d m) = trace m ++ [Update].
Proof. unfold Double.catchUp, on_self; simpl. now rewrite callUpdate_trace. Qed.

Lemma Double_catchUp_settings d m :
  settings (self (Double.catchUp d m)) = settings (self m).
Proof.
  unfold Double.catchUp, on_self; simpl.
  match goal with |- context [callUpdate ?a] =>
    pose proof (callUpdate_settings a) as H end.
  unfold settings in *; simpl in *. exact H.
Qed.

Lemma Double_catchUp_clock d m :
  clock (self (Double.catchUp d m)) =
  (_startTime (self m), Double.jssub (_lag (self m)) d, _tick (self m),
   _renderStartTime (self m)).
Proof.
  unfold Double.catchUp, on_self; simpl.
  match goal with |- context [callUpdate ?a] =>
    pose proof (callUpdate_clock a) as H end.
  unfold clock in *; simpl in *. now inversion H.
Qed.

Lemma of_nat_succ (n : nat) :
  inject_Z (Z.of_nat (S n)) == inject_Z (Z.of_nat n) + 1.
Proof. rewrite Nat2Z.inj_succ. unfold Z.succ. now rewrite inject_Z_plus. Qed.

Lemma of_nat_nonneg (n : nat) : 0 <= inject_Z (Z.of_nat n).
Proof. change 0 with (inject_Z 0). rewrite <- Zle_Qle. lia. Qed.

(** The loop in double precision.  [B] bounds the numbers that are
    rounded and [B * 2^-53], the error of one rounding, is at most half a
    tick duration: every turn takes at least half a tick duration off the
    lag, and [n] turns leave the lag within [n] roundings of [lag - n d]. *)
Lemma Double_drain_spec (d B : Q) :
  0 < d -> 2 * (B * unit_roundoff) <= d ->
  forall (fuel : nat) m (lag : Q),
  _lag (self m) = Num lag ->
  0 <= lag -> lag <= B + B * unit_roundoff ->
  (Z.to_nat (Qfloor (2 * lag / d)) <= fuel)%nat ->
  exists m' l' (n : nat),
    Double.drain fuel (Num d) m = Done m' /\
    settings (self m') = settings (self m) /\
    clock (self m') =
      (_startTime (self m), Num l', _tick (self m),
       _renderStartTime (self m)) /\
    0 <= l' /\ l' < d /\
    trace m' = trace m ++ repeat Update n /\
    Qabs (inject_Z (Z.of_nat n) * d + l' - lag)
      <= inject_Z (Z.of_nat n) * (B * unit_roundoff).
Proof.
  intros Hd Heta. set (eta := B * unit_roundoff) in *.
  assert (Hstop : forall fuel m lag, _lag (self m) = Num lag -> lag < d ->
            0 <= lag ->
            exists m' l' (n : nat),
              Double.drain fuel (Num d) m = Done m' /\
              settings (self m') = settings (self m) /\
              clock (self m') =
                (_startTime (self m), Num l', _tick (self m),
                 _renderStartTime (self m)) /\
              0 <= l' /\ l' < d /\
              trace m' = trace m ++ repeat Update n /\
              Qabs (inject_Z (Z.of_nat n) * d + l' - lag)
                <= inject_Z (Z.of_nat n) * eta).
  { intros fuel m lag Hl Hlt H0.
    exists m, lag, 0%nat.
    assert (E : Qle_bool d lag = false).
    { apply not_true_is_false. intro A. apply Qle_bool_iff in A. lra. }
    refine (conj _ (conj eq_refl (conj _ (conj H0 (conj Hlt (conj _ _)))))).
    + destruct fuel; simpl; rewrite Hl; simpl; rewrite E; reflexivity.
    + unfold clock. now rewrite Hl.
    + simpl. now rewrite app_nil_r.
    + change (inject_Z (Z.of_nat 0)) with 0.
      apply Qabs_Qle_condition. lra. }
  induction fuel as [|fuel IH]; intros m lag Hl H0 HB Hfuel.
  - apply Hstop; [exact Hl | | exact H0].
    destruct (Qlt_le_dec lag d) as [|A]; [assumption|]. exfalso.
    assert (1 <= Qfloor (2 * lag / d))%Z; [|lia].
    rewrite <- (Qfloor_Z 1). apply Qfloor_resp_le.
    change (inject_Z 1) with 1. apply Qle_shift_div_l; [exact Hd | lra].
  - destruct (Qlt_le_dec lag d) as [Hlt|E]; [now apply Hstop|].
    pose proof (Double_catchUp_clock (Num d) m) as Hc.
    rewrite Hl in Hc. unfold clock in Hc.
    change (Double.jssub (Num lag) (Num d)) with (Num (round53 (lag - d))) in Hc.
    destruct (round53_near (lag - d) B) as [N1 N2]; [lra | lra |].
    fold eta in N1, N2.
    pose proof (round53_nonneg (lag - d)) as N0.
    set (lag1 := round53 (lag - d)) in *.
    assert (Hl1 : _lag (self (Double.catchUp (Num d) m)) = Num lag1).
    { exact (f_equal (fun c => snd (fst (fst c))) Hc). }
    destruct (IH (Double.catchUp (Num d) m) lag1 Hl1) as
      (m' & l' & n & R & S1 & C1 & B0 & B1 & T1 & A1).
    { apply N0. lra. } { lra. }
    { assert (Hf : (Qfloor (2 * lag1 / d) <= Qfloor (2 * lag / d) - 1)%Z).
      { rewrite <- (floor_div_shift (2 * lag) d 1 Hd).
        apply floor_div_mono; [exact Hd|].
        change (inject_Z 1) with 1. lra. }
      assert (1 <= Qfloor (2 * lag / d))%Z.
      { rewrite <- (Qfloor_Z 1). apply Qfloor_resp_le.
        change (inject_Z 1) with 1. apply Qle_shift_div_l; [exact Hd | lra]. }
      lia. }
    exists m', l', (S n).
    assert (Ege : Qle_bool d lag = true) by now apply Qle_bool_iff.
    refine (conj _ (conj _ (conj _ (conj B0 (conj B1 (conj _ _)))))).
    + simpl. rewrite Hl. simpl. rewrite Ege. exact R.
    + now rewrite S1, Double_catchUp_settings.
    + rewrite C1. unfold clock.
      pose proof (f_equal (fun c => fst (fst (fst c))) Hc) as A.
      pose proof (f_equal (fun c => snd (fst c)) Hc) as A2.
      pose proof (f_equal snd Hc) as A3.
      cbn [fst snd] in A, A2, A3. now rewrite A, A2, A3.
    + rewrite T1, Double_catchUp_trace, <- app_assoc. reflexivity.
    + rewrite of_nat_succ.
      pose proof (of_nat_nonneg n) as Hn.
      apply Qabs_Qle_condition in A1. apply Qabs_Qle_condition.
      set (N := inject_Z (Z.of_nat n)) in *.
      split; nra.
Qed.

Lemma clamp_le d e : 0 < d -> clamp d e <= d + 1000.
Proof.
  intros Hd. unfold clamp. destruct (Qle_bool e 1000) eqn:A.
  - apply Qle_bool_iff in A. lra.
  - lra.
Qed.

(** One drain-and-render in double precision. *)
Lemma Double_doInterpolate_spec m (d l t0 now B : Q) (fuel : nat) :
  _frameDuration (self m) = Num d -> 0 < d ->
  _lag (self m) = Num l -> 0 <= l ->
  _startTime (self m) = Num t0 -> t0 <= now ->
  l + d + 1000 <= B ->
  2 * (B * unit_roundoff) <= d ->
  (Z.to_nat (Qfloor (2 * B / d)) + 1 <= fuel)%nat ->
  exists m' l' (n : nat) tree,
    Double.doInterpolate fuel now m = Done m' /\
    settings (self m') = settings (self m) /\
    clock (self m') =
      (Num now, Num l', Num (round53 (l' / d)), _renderStartTime (self m)) /\
    0 <= l' /\ l' < d /\
    trace m' = trace m ++ repeat Update n ++ [Draw tree] /\
    Qabs (inject_Z (Z.of_nat n) * d + l'
          - (l + clamp d (round53 (now - t0))))
      <= (inject_Z (Z.of_nat n) + 1) * (B * unit_roundoff).
Proof.
  intros Hfd Hd Hl Hl0 Ht0 Hnow HB Heta Hfuel.
  set (eta := B * unit_roundoff) in *.
  set (e := clamp d (round53 (now - t0))).
  assert (He0 : 0 <= e).
  { apply clamp_nonneg; [exact Hd|]. apply round53_nonneg. lra. }
  pose proof (clamp_le d (round53 (now - t0)) Hd) as He1. fold e in He1.
  destruct (round53_near (l + e) B) as [N1 N2]; [lra | lra |].
  fold eta in N1, N2.
  pose proof (round53_nonneg (l + e)) as N0.
  set (lag0 := round53 (l + e)) in *.
  set (m0 := on_self (fun s => with_lag s (Num lag0))
               (on_self (fun s => with_startTime s (Num now)) m)).
  destruct (Double_drain_spec d B Hd Heta fuel m0 lag0 eq_refl)
    as (m1 & l' & n & R & S1 & C1 & B0 & B1 & T1 & A1).
  { apply N0. lra. } { fold eta. lra. }
  { assert (Hf : (Qfloor (2 * lag0 / d) <= Qfloor (2 * B / d) + 1)%Z).
    { replace (Qfloor (2 * B / d) + 1)%Z with (Qfloor (2 * B / d) - (-1))%Z by lia.
      rewrite <- (floor_div_shift (2 * B) d (-1) Hd).
      apply floor_div_mono; [exact Hd|].
      change (inject_Z (-1)) with (-1). lra. }
    assert (0 <= Qfloor (2 * B / d))%Z.
    { apply floor_div_nonneg; [exact Hd | lra]. }
    lia. }
  fold eta in A1.
  assert (Hfd1 : _frameDuration (self m1) = Num d).
  { pose proof (f_equal (fun t => snd (fst (fst (snd t)))) S1) as A.
    unfold settings in A; cbn [fst snd] in A. rewrite A. exact Hfd. }
  assert (Hlag1 : _lag (self m1) = Num l').
  { exact (f_equal (fun c => snd (fst (fst c))) C1). }
  exists (render (Num (round53 (l' / d)))
            (on_self (fun s => with_tick s (Num (round53 (l' / d)))) m1)), l', n.
  eexists.
  refine (conj _ (conj _ (conj _ (conj B0 (conj B1 (conj _ _)))))).
  - unfold Double.doInterpolate. rewrite Hfd, Ht0.
    change (Double.jssub (Num now) (Num t0)) with (Num (round53 (now - t0))).
    replace (on_self _ (on_self _ m)) with m0.
    2:{ unfold m0, lag0, e, clamp, on_self; simpl. rewrite Hl.
        destruct (Qle_bool (round53 (now - t0)) 1000); reflexivity. }
    rewrite R. unfold bind, on_self. simpl. rewrite Hlag1. simpl.
    rewrite (Qeq_bool_pos d Hd). reflexivity.
  - rewrite render_self. unfold settings in *; simpl in *.
    destruct (interpolate (self m1)); simpl; exact S1.
  - rewrite render_self. unfold clock in *; simpl in *.
    inversion C1.
    destruct (interpolate (self m1)); simpl; rewrite ?Hlag1; reflexivity.
  - rewrite render_trace. simpl. rewrite T1. simpl.
    rewrite <- app_assoc. reflexivity.
  - pose proof (of_nat_nonneg n) as Hn.
    apply Qabs_Qle_condition in A1. apply Qabs_Qle_condition.
    set (N := inject_Z (Z.of_nat n)) in *.
    split; nra.
Qed.

Lemma of_nat_plus (a b : nat) :
  inject_Z (Z.of_nat (a + b)) == inject_Z (Z.of_nat a) + inject_Z (Z.of_nat b).
Proof. now rewrite Nat2Z.inj_add, inject_Z_plus. Qed.

(** Drains in double precision, fed elapsed times that are doubles. *)
Lemma Double_drains_spec (d B : Q) :
  0 < d -> 2 * (B * unit_roundoff) <= d -> 2 * d + 1000 <= B ->
  forall (ds : list Q) m (l t0 : Q) (fuel : nat),
  _frameDuration (self m) = Num d ->
  _lag (self m) = Num l -> 0 <= l -> l + d + 1000 <= B ->
  _startTime (self m) = Num t0 ->
  Forall (fun e => 0 <= e /\ round53 e == e) ds ->
  (Z.to_nat (Qfloor (2 * B / d)) + 1 <= fuel)%nat ->
  exists m' l' (n : nat),
    Double.drains fuel (clock_readings t0 ds) m = Done m' /\
    settings (self m') = settings (self m) /\
    _lag (self m') = Num l' /\ 0 <= l' /\ (ds <> [] -> l' < d) /\
    count_updates (trace m') = (count_updates (trace m) + n)%nat /\
    count_draws (trace m') = (count_draws (trace m) + List.length ds)%nat /\
    Qabs (inject_Z (Z.of_nat n) * d + l' - (l + Qsum (map (clamp d) ds)))
      <= inject_Z (Z.of_nat (n + List.length ds)) * (B * unit_roundoff).
Proof.
  intros Hd Heta HB. set (eta := B * unit_roundoff) in *.
  induction ds as [|e ds IH]; intros m l t0 fuel Hfd Hl Hl0 HlB Ht0 Hds Hfuel.
  - exists m, l, 0%nat.
    refine (conj eq_refl (conj eq_refl (conj Hl (conj Hl0 (conj _ (conj _ (conj _ _))))))).
    + congruence.
    + lia.
    + cbn [List.length]. lia.
    + cbn [map Qsum fold_right List.length Nat.add].
      change (inject_Z (Z.of_nat 0)) with 0. apply Qabs_Qle_condition. lra.
  - inversion Hds as [|? ? [He0 He] Hds']; subst.
    destruct (Double_doInterpolate_spec m d l t0 (t0 + e) B fuel
                Hfd Hd Hl Hl0 Ht0) as
      (m1 & l1 & n1 & tree & R1 & S1 & C1 & B0 & B1 & T1 & A1);
      [lra | exact HlB | exact Heta | exact Hfuel |].
    fold eta in A1.
    assert (Ec : clamp d (round53 (t0 + e - t0)) == clamp d e).
    { apply clamp_comp. rewrite (round53_comp (t0 + e - t0) e) by ring.
      exact He. }
    rewrite Ec in A1.
    assert (Hfd1 : _frameDuration (self m1) = Num d).
    { pose proof (f_equal (fun t => snd (fst (fst (snd t)))) S1) as A.
      unfold settings in A; cbn [fst snd] in A. rewrite A. exact Hfd. }
    assert (Hl1 : _lag (self m1) = Num l1).
    { exact (f_equal (fun c => snd (fst (fst c))) C1). }
    assert (Ht1 : _startTime (self m1) = Num (t0 + e)).
    { exact (f_equal (fun c => fst (fst (fst c))) C1). }
    destruct (IH m1 l1 (t0 + e) fuel Hfd1 Hl1 B0) as
      (m' & l' & n2 & R & S2 & L2 & B0' & B1' & U2 & D2 & A2);
      [lra | exact Ht1 | exact Hds' | exact Hfuel |].
    exists m', l', (n1 + n2)%nat.
    refine (conj _ (conj _ (conj L2 (conj B0' (conj _ (conj _ (conj _ _))))))).
    + cbn [clock_readings Double.drains]. rewrite R1. simpl bind. exact R.
    + now rewrite S2.
    + intros _. destruct ds as [|e' ds'].
      * simpl in R. injection R as <-. rewrite Hl1 in L2.
        injection L2 as <-. exact B1.
      * apply B1'. discriminate.
    + rewrite U2, T1, !count_updates_app, count_updates_repeat.
      change (count_updates [Draw tree]) with 0%nat. lia.
    + rewrite D2, T1, !count_draws_app, count_draws_repeat.
      change (count_draws [Draw tree]) with 1%nat. cbn [List.length]. lia.
    + cbn [map Qsum fold_right List.length].
      fold (Qsum (map (clamp d) ds)).
      replace (n1 + n2 + S (List.length ds))%nat
        with ((n1 + 1) + (n2 + List.length ds))%nat by lia.
      rewrite !of_nat_plus in *. change (inject_Z (Z.of_nat 1)) with 1.
      apply Qabs_Qle_condition in A1. apply Qabs_Qle_condition in A2.
      apply Qabs_Qle_condition.
      set (N1 := inject_Z (Z.of_nat n1)) in *.
      set (N2 := inject_Z (Z.of_nat n2)) in *.
      set (K := inject_Z (Z.of_nat (List.length ds))) in *.
      set (c := clamp d e) in *. set (S := Qsum (map (clamp d) ds)) in *.
      split; nra.
Qed.

(** A count within the rounding of the floor formula is the floor, one
    less or one more. *)
Lemma count_near_floor (n : nat) (d l' v eps : Q) :
  0 < d -> 0 <= l' -> l' < d -> eps < d ->
  Qabs (inject_Z (Z.of_nat n) * d + l' - v) <= eps ->
  (Qfloor (v / d) - 1 <= Z.of_nat n <= Qfloor (v / d) + 1)%Z.
Proof.
  intros Hd H0 H1 He HA. apply Qabs_Qle_condition in HA.
  destruct (floor_div_bounds v d Hd) as [Flo Fhi].
  set (F := Qfloor (v / d)) in *. set (N := Z.of_nat n) in *.
  split.
  - assert (A : inject_Z (F - 2) < inject_Z N).
    { unfold Z.sub. rewrite inject_Z_plus. change (inject_Z (- (2))) with (-2).
      destruct (Qlt_le_dec (inject_Z F + -2) (inject_Z N)) as [|C]; [assumption|].
      exfalso. nra. }
    rewrite <- Zlt_Qlt in A. lia.
  - assert (A : inject_Z N < inject_Z (F + 2)).
    { rewrite inject_Z_plus. change (inject_Z 2) with 2.
      destruct (Qlt_le_dec (inject_Z N) (inject_Z F + 2)) as [|C]; [assumption|].
      exfalso. nra. }
    rewrite <- Zlt_Qlt in A. lia.
Qed.

(** C1, as the code has it: the count in double precision.  Tick
    duration positive and not negligible, lag not negative beforehand,
    elapsed times that are non-negative doubles, every one above 1000
    counted as one tick duration.  After every drain the lag is in
    [0, tick duration), and the number [n] of calls of the callback made
    so far is such that [n] tick durations plus the lag make the lag
    beforehand plus the counted elapsed times, up to one rounding for
    each addition and subtraction made; as long as these roundings add up
    to less than a tick duration, [n] is
    floor((lag + sum of the counted elapsed times) / tick duration), one
    less or one more. *)
Theorem drains_keep_count_within_rounding m (d l t0 : Q) (ds : list Q)
    (fuel : nat) :
  _frameDuration (self m) = Num d -> 0 < d ->
  _lag (self m) = Num l -> 0 <= l ->
  _startTime (self m) = Num t0 ->
  Forall (fun e => 0 <= e /\ round53 e == e) ds ->
  moderate d l ->
  (Z.to_nat (Qfloor (2 * (l + 2 * d + 1000) / d)) + 1 <= fuel)%nat ->
  forall pre post, ds = pre ++ post -> pre <> [] ->
  exists mk lk (n : nat),
    Double.drains fuel (clock_readings t0 pre) m = Done mk /\
    count_updates (trace mk) = (count_updates (trace m) + n)%nat /\
    _lag (self mk) = Num lk /\ 0 <= lk /\ lk < d /\
    Qabs (inject_Z (Z.of_nat n) * d + lk
          - (l + Qsum (map (clamp d) pre)))
      <= inject_Z (Z.of_nat (n + List.length pre))
         * ((l + 2 * d + 1000) * unit_roundoff) /\
    (inject_Z (Z.of_nat (n + List.length pre))
       * ((l + 2 * d + 1000) * unit_roundoff) < d ->
     (Qfloor ((l + Qsum (map (clamp d) pre)) / d) - 1 <= Z.of_nat n
      <= Qfloor ((l + Qsum (map (clamp d) pre)) / d) + 1)%Z).
Proof.
  intros Hfd Hd Hl Hl0 Ht0 Hds [Hm _] Hfuel pre post -> Hne.
  apply Forall_app in Hds as [Hpre _].
  destruct (Double_drains_spec d (l + 2 * d + 1000) Hd Hm) with
    (ds := pre) (m := m) (l := l) (t0 := t0) (fuel := fuel)
    as (mk & lk & n & R & _ & L & B0 & B1 & U & _ & A);
    try assumption; try lra.
  exists mk, lk, n.
  refine (conj R (conj U (conj L (conj B0 (conj (B1 Hne) (conj A _)))))).
  intros Hsmall.
  apply (count_near_floor n d lk _ _ Hd B0 (B1 Hne) Hsmall A).
Qed.

Lemma Double_drain_frame (fuel : nat) d : forall m m',
  Double.drain fuel d m = Done m' ->
  settings (self m') = settings (self m) /\
  count_draws (trace m') = count_draws (trace m) /\
  _renderStartTime (self m') = _renderStartTime (self m).
Proof.
  induction fuel as [|fuel IH]; intros m m'; simpl;
    destruct (jsge (_lag (self m)) d); try discriminate.
  - intros [= <-]. auto.
  - intros H. apply IH in H as (S1 & D1 & R1).
    pose proof (f_equal snd (Double_catchUp_clock d m)) as C.
    unfold clock in C. cbn [snd] in C.
    rewrite S1, D1, R1, Double_catchUp_settings, Double_catchUp_trace,
      count_draws_app.
    refine (conj eq_refl (conj _ C)).
    change (count_draws [Update]) with 0%nat. lia.
  - intros [= <-]. auto.
Qed.

Lemma Double_doInterpolate_frame (fuel : nat) now m m' :
  Double.doInterpolate fuel now m = Done m' ->
  settings (self m') = settings (self m) /\
  count_draws (trace m') = S (count_draws (trace m)) /\
  _renderStartTime (self m') = _renderStartTime (self m).
Proof.
  unfold Double.doInterpolate.
  match goal with |- context [Double.drain ?a ?b ?c] =>
    destruct (Double.drain a b c) as [m1| |] eqn:R end; simpl; try discriminate.
  intros [= <-]. apply Double_drain_frame in R as (S1 & D1 & R1).
  rewrite render_settings, render_trace, count_draws_app.
  rewrite render_self.
  repeat split.
  - unfold settings in *; simpl in *. exact S1.
  - simpl in *. rewrite D1. change (count_draws [Draw _]) with 1%nat. lia.
  - simpl in *. destruct (self m1); simpl in *. exact R1.
Qed.

Lemma Double_gameLoop_capped (fuel : nat) (timestamp now rd rs : Q) m :
  paused (self m) = false ->
  is_undefined (_fps (self m)) = false ->
  is_undefined (_renderFps (self m)) = false ->
  _renderDuration (self m) = Num rd ->
  _renderStartTime (self m) = Num rs ->
  Double.gameLoop fuel timestamp now m =
  if Qle_bool rs timestamp
  then do m' <- Double.doInterpolate fuel now (emit RequestFrame m);
       Done (on_self (fun s => with_renderStartTime s
                       (Num (round53 (timestamp + rd)))) m')
  else Done (emit RequestFrame m).
Proof.
  intros Hp Hf Hr Hrd Hrs. unfold Double.gameLoop.
  change (self (emit RequestFrame m)) with (self m).
  rewrite Hp, Hf, Hr, Hrd, Hrs. simpl.
  destruct (Qle_bool rs timestamp); [|reflexivity].
  destruct (Double.doInterpolate fuel now (emit RequestFrame m)) as [m1| |] eqn:R;
    simpl; try reflexivity.
  apply Double_doInterpolate_frame in R as (S1 & _ & _).
  pose proof (f_equal (fun t => snd (snd t)) S1) as E. simpl in E.
  unfold on_self. now rewrite E, Hrd.
Qed.

Lemma pow2_53 : pow2 53 == 9007199254740992.
Proof. reflexivity. Qed.

Lemma tick_60 : 16 < round53 (1000 / 60) /\ round53 (1000 / 60) < 17.
Proof. split; reflexivity. Qed.

Lemma tick_30 : 33 < round53 (1000 / 30) /\ round53 (1000 / 30) < 34.
Proof. split; reflexivity. Qed.

(** One notification of a schedule whose notifications are 12 to 30 ms
    apart, under the cap of 30 renders per second. *)
Lemma Double_step_cadence (ts reading : nat -> Q) (a fuel : nat) (j : Phase) m :
  (forall k, reading k <= reading (S k)) ->
  (forall k, ts k + 12 <= ts (S k) /\ ts (S k) <= ts k + 30) ->
  0 <= ts a -> ts a <= pow2 53 ->
  (125 <= fuel)%nat ->
  on_cadence ts reading a j m ->
  exists m' j' (k : nat),
    Double.gameLoop fuel (ts a) (reading a) m = Done m' /\
    on_cadence ts reading (S a) j' m' /\
    count_draws (trace m') = (count_draws (trace m) + k)%nat /\
    (2 * k + rendered j <= 1 + rendered j')%nat /\
    (1 + waited j' <= 3 * k + waited j)%nat.
Proof.
  intros Hmono Hsp Hts0 Hts1 Hfuel
    (Hp & Hf & Hfd & Hrf & Hrd & l & t & rs & Hl & Hl0 & Hl1 & Ht & Htr & Hrs & Hdue).
  rewrite pow2_53 in Hts1.
  pose proof tick_60 as [D1 D2]. pose proof tick_30 as [R1 R2].
  set (d := round53 (1000 / 60)) in *. set (rd := round53 (1000 / 30)) in *.
  rewrite (Double_gameLoop_capped fuel _ (reading a) rd rs m Hp)
    by (rewrite ?Hf, ?Hrf; auto).
  pose proof (Hsp a) as [S1 S2]. pose proof (Hsp (S a)) as [S3 S4].
  pose proof (Hsp (S (S a))) as [S5 S6].
  replace (a + 2)%nat with (S (S a)) in * by lia.
  replace (a + 1)%nat with (S a) in * by lia.
  assert (Hskip : ts a < rs ->
                  forall j', match j' with
                             | JustRendered => False
                             | DueNext => rs <= ts (S (S a))
                             | DueNow => rs <= ts (S a)
                             end ->
                  (rendered j <= 1 + rendered j')%nat ->
                  (1 + waited j' <= waited j)%nat ->
    exists m' j' (k : nat),
      (if Qle_bool rs (ts a)
       then do m' <- Double.doInterpolate fuel (reading a) (emit RequestFrame m);
            Done (on_self (fun s => with_renderStartTime s
                            (Num (round53 (ts a + rd)))) m')
       else Done (emit RequestFrame m)) = Done m' /\
      on_cadence ts reading (S a) j' m' /\
      count_draws (trace m') = (count_draws (trace m) + k)%nat /\
      (2 * k + rendered j <= 1 + rendered j')%nat /\
      (1 + waited j' <= 3 * k + waited j)%nat).
  { intros Hlate j' Hj' P1 P2.
    assert (Q1 : Qle_bool rs (ts a) = false).
    { apply not_true_is_false. intro A. apply Qle_bool_iff in A. lra. }
    rewrite Q1. exists (emit RequestFrame m), j', 0%nat.
    split; [reflexivity|]. split; [|split; [|split]].
    - unfold on_cadence. cbn [self emit].
      refine (conj Hp (conj Hf (conj Hfd (conj Hrf (conj Hrd _))))).
      exists l, t, rs.
      refine (conj Hl (conj Hl0 (conj Hl1 (conj Ht (conj _ (conj Hrs _)))))).
      + eapply Qle_trans; [exact Htr | apply Hmono].
      + replace (S a + 1)%nat with (S (S a)) by lia.
        destruct j'; [contradiction | exact Hj' | exact Hj'].
    - cbn [trace emit]. rewrite count_draws_app.
      change (count_draws [RequestFrame]) with 0%nat. lia.
    - lia.
    - lia. }
  assert (Hdraw : rs <= ts a ->
    exists m' j' (k : nat),
      (if Qle_bool rs (ts a)
       then do m' <- Double.doInterpolate fuel (reading a) (emit RequestFrame m);
            Done (on_self (fun s => with_renderStartTime s
                            (Num (round53 (ts a + rd)))) m')
       else Done (emit RequestFrame m)) = Done m' /\
      on_cadence ts reading (S a) j' m' /\
      count_draws (trace m') = (count_draws (trace m) + k)%nat /\
      (2 * k + rendered j <= 1 + rendered j')%nat /\
      (1 + waited j' <= 3 * k + waited j)%nat).
  { intros Hnow.
    assert (Hj : rendered j = 0%nat /\ (waited j <= 1)%nat).
    { destruct j; simpl; [lra | lia | lia]. }
    assert (Q1 : Qle_bool rs (ts a) = true) by now apply Qle_bool_iff.
    rewrite Q1.
    destruct (Double_doInterpolate_spec (emit RequestFrame m) d l t
                (reading a) (2 * d + 1000) fuel Hfd) as
      (m1 & l' & n & tr & R & St & C1 & B0 & B1 & T1 & _);
      try assumption; try lra.
    { unfold d. vm_compute. discriminate. }
    { replace (Z.to_nat (Qfloor (2 * (2 * d + 1000) / d))) with 123%nat
        by (unfold d; vm_compute; reflexivity).
      lia. }
    rewrite R. simpl bind.
    apply Double_doInterpolate_frame in R as (_ & Dr & _).
    destruct (round53_near (ts a + rd) (9007199254740992 + 34)) as [N1 N2];
      [lra | lra |].
    assert (U : (9007199254740992 + 34) * unit_roundoff <= 2)
      by (vm_compute; discriminate).
    eexists. exists JustRendered, 1%nat.
    split; [reflexivity|]. split; [|split; [|split]].
    - unfold settings in St; cbn [self emit] in St.
      injection St as E1 E2 E3 E4 E5 E6 E7 E8.
      unfold clock in C1. injection C1 as G1 G2 G3 G4.
      unfold on_cadence. cbn [self on_self paused _fps _frameDuration
        _renderFps _renderDuration _lag _startTime _renderStartTime
        with_renderStartTime].
      rewrite E4, E5, E6, E7, E8.
      refine (conj Hp (conj Hf (conj Hfd (conj Hrf (conj Hrd _))))).
      exists l', (reading a), (round53 (ts a + rd)).
      refine (conj G2 (conj B0 (conj B1 (conj G1 (conj (Hmono a) (conj eq_refl _)))))).
      replace (S a + 2)%nat with (S (S (S a))) by lia.
      split; lra.
    - cbn [trace on_self]. rewrite Dr. cbn [trace emit].
      rewrite count_draws_app. change (count_draws [RequestFrame]) with 0%nat. lia.
    - simpl. lia.
    - simpl. lia. }
  destruct j.
  - destruct Hdue as [A B]. apply (Hskip A DueNext); [exact B | simpl; lia | simpl; lia].
  - destruct (Qlt_le_dec (ts a) rs) as [A|A].
    + apply (Hskip A DueNow); [exact Hdue | simpl; lia | simpl; lia].
    + now apply Hdraw.
  - now apply Hdraw.
Qed.

Lemma Double_run_cadence (ts reading : nat -> Q) (fuel n : nat) :
  (forall k, reading k <= reading (S k)) ->
  (forall k, ts k + 12 <= ts (S k) /\ ts (S k) <= ts k + 30) ->
  (125 <= fuel)%nat ->
  forall a j m,
  0 <= ts a -> ts (a + n)%nat <= pow2 53 ->
  on_cadence ts reading a j m ->
  exists m' j' (k : nat),
    Double.run fuel (notifications ts reading a n) m = Done m' /\
    on_cadence ts reading (a + n) j' m' /\
    count_draws (trace m') = (count_draws (trace m) + k)%nat /\
    (2 * k + rendered j <= n + rendered j')%nat /\
    (n + waited j' <= 3 * k + waited j)%nat.
Proof.
  intros Hmono Hsp Hfuel. induction n as [|n IH]; intros a j m H0 H1 Hinv.
  - exists m, j, 0%nat. rewrite Nat.add_0_r. simpl.
    refine (conj eq_refl (conj Hinv (conj _ (conj _ _)))); lia.
  - assert (Hinc : forall i, ts a <= ts (a + i)%nat).
    { induction i as [|i IHi]; [rewrite Nat.add_0_r; apply Qle_refl|].
      rewrite Nat.add_succ_r. pose proof (Hsp (a + i)%nat) as [A _]. lra. }
    assert (Ha1 : ts a <= pow2 53).
    { eapply Qle_trans; [apply (Hinc (S n)) | exact H1]. }
    destruct (Double_step_cadence ts reading a fuel j m Hmono Hsp H0 Ha1 Hfuel Hinv)
      as (m1 & j1 & k1 & R1 & I1 & D1 & P1 & Q1).
    destruct (IH (S a) j1 m1) as (m' & j' & k & R & I & D & P & Q2).
    { pose proof (Hsp a) as [A _]. lra. }
    { now rewrite Nat.add_succ_l, <- Nat.add_succ_r. }
    { exact I1. }
    exists m', j', (k1 + k)%nat. split; [|split; [|split; [|split]]].
    + unfold notifications. cbn [seq map Double.run]. rewrite R1. simpl bind. exact R.
    + now rewrite Nat.add_succ_r.
    + lia.
    + lia.
    + lia.
Qed.

End DoubleDrain.

Section DoubleCapClaim.
Context {W Engine Renderer : Type}.

(** C6, as the code has it, in double precision.  Logic rate set,
    render cap set with a render-tick duration, not paused: a call of the
    game loop drains and renders exactly when its timestamp has reached
    the next render time, and then the next render time becomes the
    timestamp plus the render-tick duration, rounded; otherwise the call
    only re-registers the loop.  With 60 logic steps and at most 30
    renders per second, and notifications 12 to 30 ms apart (at 60 per
    second they are 16.7 ms apart): of the [n] notifications from
    notification [a] on, [k] render with [2 k <= n + 1] and
    [n <= 3 k + 2], that is never two in a row and at least one of any
    three in a row; from the first notification on, [n <= 3 k], so the
    first one renders. *)
Theorem render_cap_gate_and_cadence :
  (forall (m : @Machine W Renderer) (fuel : nat) (timestamp now rd rs : Q),
     paused (self m) = false ->
     _fps (self m) <> undefined ->
     _renderFps (self m) <> undefined ->
     _renderDuration (self m) = Num rd ->
     _renderStartTime (self m) = Num rs ->
     (rs <= timestamp ->
      Double.gameLoop fuel timestamp now m =
      do m' <- Double.doInterpolate fuel now (emit RequestFrame m);
      Done (on_self (fun s => with_renderStartTime s
                      (Num (round53 (timestamp + rd)))) m')) /\
     (timestamp < rs ->
      Double.gameLoop fuel timestamp now m = Done (emit RequestFrame m)) /\
     (forall m',
        Double.gameLoop fuel timestamp now m = Done m' ->
        (count_draws (trace m') = S (count_draws (trace m)) <->
         rs <= timestamp) /\
        (rs <= timestamp ->
         _renderStartTime (self m') = Num (round53 (timestamp + rd))))) /\
  (forall (tc : Q) (options : @SmoothieOptions W Engine Renderer)
          (s : @Smoothie W Renderer) (w : W)
          (ts reading : nat -> Q) (a n fuel : nat),
     Double.new_Smoothie tc options = Done s ->
     o_fps options = Num 60 ->
     o_renderFps options = Num 30 ->
     0 <= ts 0%nat ->
     (forall k, ts k + 12 <= ts (S k) /\ ts (S k) <= ts k + 30) ->
     ts (a + n)%nat <= pow2 53 ->
     tc <= reading 0%nat ->
     (forall k, reading k <= reading (S k)) ->
     (125 <= fuel)%nat ->
     exists ma m' (k : nat),
       Double.run fuel (notifications ts reading 0 a) (mkMachine s w [])
         = Done ma /\
       Double.run fuel (notifications ts reading a n) ma = Done m' /\
       count_draws (trace m') = (count_draws (trace ma) + k)%nat /\
       (2 * k <= n + 1)%nat /\ (n <= 3 * k + 2)%nat /\
       (a = 0%nat -> (n <= 3 * k)%nat)).
Proof.
  split.
  - intros m fuel timestamp now rd rs Hp Hf Hr Hrd Hrs.
    pose proof (Double_gameLoop_capped fuel timestamp now rd rs m Hp
                  (not_undefined _ Hf) (not_undefined _ Hr) Hrd Hrs) as G.
    assert (Hyes : rs <= timestamp -> Qle_bool rs timestamp = true)
      by (intros; now apply Qle_bool_iff).
    assert (Hno : timestamp < rs -> Qle_bool rs timestamp = false).
    { intros H. apply not_true_is_false. intro A.
      apply Qle_bool_iff in A. lra. }
    split; [|split].
    + intros H. now rewrite G, Hyes.
    + intros H. now rewrite G, Hno.
    + intros m' R. rewrite G in R.
      destruct (Qlt_le_dec timestamp rs) as [Lt|Le].
      * rewrite (Hno Lt) in R. injection R as <-.
        split; [split|]; intros H; [|lra|lra].
        unfold emit in H; cbn [trace] in H.
        rewrite count_draws_app in H.
        change (count_draws [RequestFrame]) with 0%nat in H. lia.
      * rewrite (Hyes Le) in R.
        destruct (Double.doInterpolate fuel now (emit RequestFrame m))
          as [m1| |] eqn:R1; simpl in R; try discriminate.
        injection R as <-.
        apply Double_doInterpolate_frame in R1 as (_ & D1 & _).
        split; [split|]; intros _; auto.
        unfold on_self; cbn [trace]. rewrite D1.
        unfold emit; cbn [trace]. rewrite count_draws_app.
        change (count_draws [RequestFrame]) with 0%nat. lia.
  - intros tc options s w ts reading a n fuel Hnew Hfps Hrfps Ht0 Hsp Hbound
      Htc Hmono Hfuel.
    assert (Hinv : on_cadence ts reading 0 DueNow (mkMachine s w [])).
    { unfold Double.new_Smoothie, new_Smoothie in Hnew.
      destruct (o_engine options), (o_renderer options), (o_root options),
        (o_update options); try discriminate.
      simpl in Hnew. injection Hnew as <-.
      unfold on_cadence; cbn [self paused _fps Double.with_durations
        _frameDuration _renderFps _renderDuration _lag _startTime
        _renderStartTime].
      rewrite Hfps, Hrfps.
      refine (conj eq_refl (conj eq_refl (conj eq_refl
                (conj eq_refl (conj eq_refl _))))).
      exists 0, tc, 0.
      refine (conj eq_refl (conj _ (conj _ (conj eq_refl
                (conj Htc (conj eq_refl Ht0)))))).
      - apply Qle_refl.
      - reflexivity. }
    assert (Hinc : forall i k, ts i <= ts (i + k)%nat).
    { intros i k. induction k as [|k IHk]; [rewrite Nat.add_0_r; apply Qle_refl|].
      rewrite Nat.add_succ_r. pose proof (Hsp (i + k)%nat) as [A _]. lra. }
    destruct (Double_run_cadence ts reading fuel a Hmono Hsp Hfuel 0%nat DueNow
                (mkMachine s w []) Ht0) as (ma & ja & ka & Ra & Ia & Da & Pa & Qa).
    { simpl. eapply Qle_trans; [apply (Hinc a n) | exact Hbound]. }
    { exact Hinv. }
    simpl in Ia.
    destruct (Double_run_cadence ts reading fuel n Hmono Hsp Hfuel a ja ma)
      as (m' & j' & k & R & I & D & P & Q2).
    { eapply Qle_trans; [exact Ht0 | apply (Hinc 0%nat a)]. }
    { exact Hbound. }
    { exact Ia. }
    exists ma, m', k.
    refine (conj Ra (conj R (conj D (conj _ (conj _ _))))).
    + destruct j'; simpl in P; lia.
    + destruct ja; simpl in Q2; lia.
    + intros ->. simpl in Ra. injection Ra as <-.
      destruct (Double_run_cadence ts reading fuel n Hmono Hsp Hfuel 0%nat DueNow
                  (mkMachine s w []) Ht0 Hbound Hinv)
        as (m2 & j2 & k2 & R2 & _ & D2 & _ & Q3).
      rewrite R in R2. injection R2 as <-.
      simpl in Q3. lia.
Qed.

End DoubleCapClaim.

Section DoublePause.
Context {W Renderer : Type}.
Implicit Types (m : @Machine W Renderer) (s : @Smoothie W Renderer).



End DoublePause.

(* ------------------------------------------------------------------ *)
(** ** The walks on the sprites of the rendering library *)

Lemma Pixi_interpolateFields_plain p tick b f :
  flag (Properties.size p) = false ->
  Pixi.interpolateFields p tick b f = interpolateFields p tick b f.
Proof.
  intros H. unfold Pixi.interpolateFields, interpolateFields.
  rewrite H. reflexivity.
Qed.

Lemma Pixi_restoreFields_plain p b f :
  flag (Properties.size p) = false ->
  Pixi.restoreFields p b f = restoreFields p b f.
Proof.
  intros H. unfold Pixi.restoreFields, restoreFields.
  rewrite H. reflexivity.
Qed.

Lemma observe_walk_ext g h n :
  (forall b f, live_fields (g b f) = live_fields (h b f)) ->
  observe (walk g n) = observe (walk h n).
Proof.
  intros E. induction n as [b f cs IH] using Node_forall_ind; simpl.
  rewrite E, !map_map. f_equal. now apply map_ext_Forall.
Qed.

Lemma seen_live_fields b f f' :
  live_fields f' = live_fields f ->
  live_fields (Pixi.seen_fields b f') = live_fields (Pixi.seen_fields b f).
Proof.
  unfold live_fields. intros [= E1 E2 E3 E4 E5 E6 E7 E8].
  unfold Pixi.seen_fields, Pixi.get_width, Pixi.get_height,
    Pixi.texture_width, Pixi.texture_height; simpl.
  now rewrite E1, E2, E3, E4, E5, E6, E7, E8.
Qed.

(** With size interpolation off the restore walk puts back what a reader
    finds on a sprite of the library, the width and the height
    included. *)
Lemma library_sprites_restored_without_size (p : SmoothieProperties)
    (i : bool) (tick : jsnum) (stage : Node) :
  flag (Properties.size p) = false ->
  observe (Pixi.seen (Pixi.render p i tick stage)) = observe (Pixi.seen stage).
Proof.
  intros H. unfold Pixi.render, Pixi.drawn. destruct i; [|reflexivity].
  rewrite overStage_overStage. destruct stage as [b f cs].
  unfold Pixi.seen. simpl. rewrite !map_map. f_equal.
  apply map_ext. intros c. rewrite !walk_walk.
  apply observe_walk_ext. intros b' f'.
  rewrite Pixi_interpolateFields_plain, Pixi_restoreFields_plain by exact H.
  apply seen_live_fields, restore_interpolateFields.
Qed.

(** X5.  On the sprites of the rendering library, with size
    interpolation off (as it is unless asked for), rendering again before
    the next logic step is harmless: the second render, at whatever
    fraction, hands the renderer the tree a single render at that
    fraction would, and leaves the tree as the first one left it. *)
Theorem render_twice_without_size (p : SmoothieProperties) (i : bool)
    (t1 t2 : jsnum) (stage : Node) :
  flag (Properties.size p) = false ->
  Pixi.drawn p i t2 (Pixi.render p i t1 stage) = Pixi.drawn p i t2 stage /\
  Pixi.render p i t2 (Pixi.render p i t1 stage) = Pixi.render p i t1 stage.
Proof.
  intros H. unfold Pixi.render, Pixi.drawn.
  destruct i; [|split; reflexivity].
  rewrite !overStage_overStage. split; apply overStage_ext; intros n;
    rewrite !walk_walk; apply walk_ext; intros b f;
    rewrite !Pixi_interpolateFields_plain, !Pixi_restoreFields_plain by exact H.
  - apply interpolateFields_again.
  - apply restoreFields_again.
Qed.

Lemma untied_capture p c b f :
  untied p b c = true ->
  attrs_of c (Pixi.seen_fields b (Pixi.captureFields p b f)) =
  attrs_of c (Pixi.seen_fields b f).
Proof.
  destruct p as [po ro [si|] [sc|] [al|]], c; unfold untied, enabled;
    cbn [flag Properties.position Properties.rotation Properties.size
         Properties.scale Properties.alpha];
    repeat match goal with b0 : bool |- _ => destruct b0 end;
    cbn [negb andb]; intros H; try discriminate H; reflexivity.
Qed.

Lemma untied_interpolate p c tick b f :
  untied p b c = true ->
  attrs_of c (Pixi.seen_fields b (Pixi.interpolateFields p tick b f)) =
  attrs_of c (Pixi.seen_fields b f).
Proof.
  destruct p as [po ro [si|] [sc|] [al|]], c; unfold untied, enabled;
    cbn [flag Properties.position Properties.rotation Properties.size
         Properties.scale Properties.alpha];
    repeat match goal with b0 : bool |- _ => destruct b0 end;
    cbn [negb andb]; intros H; try discriminate H; reflexivity.
Qed.

Lemma untied_restore p c b f :
  untied p b c = true ->
  attrs_of c (Pixi.seen_fields b (Pixi.restoreFields p b f)) =
  attrs_of c (Pixi.seen_fields b f).
Proof.
  destruct p as [po ro [si|] [sc|] [al|]], c; unfold untied, enabled;
    cbn [flag Properties.position Properties.rotation Properties.size
         Properties.scale Properties.alpha];
    repeat match goal with b0 : bool |- _ => destruct b0 end;
    cbn [negb andb]; intros H; try discriminate H; reflexivity.
Qed.

(** X19.  On the sprites of the rendering library, a category that is
    switched off and not tied to one that is on (the size and the scale
    of a sprite are one quantity: each needs the other off as well; the
    width of a container is left out) is left alone by the three walks:
    what a reader finds for the live value and both shadow values of its
    attributes is as it was, on every node below the root. *)
Theorem untied_category_is_untouched
    (p : SmoothieProperties) (c : Category) (tick : jsnum) (stage : Node)
    (i : nat) (rest : list nat) (n : Node) :
  untied p (isSprite n) c = true ->
  descend (i :: rest) stage = Some n ->
  (exists n',
     descend (i :: rest) (Pixi.capturePreviousSpriteProperties p stage)
       = Some n' /\
     attrs_of c (Pixi.seen_fields (isSprite n') (fields n')) =
     attrs_of c (Pixi.seen_fields (isSprite n) (fields n))) /\
  (exists n',
     descend (i :: rest)
       (overStage (walk (Pixi.interpolateFields p tick)) stage) = Some n' /\
     attrs_of c (Pixi.seen_fields (isSprite n') (fields n')) =
     attrs_of c (Pixi.seen_fields (isSprite n) (fields n))) /\
  (exists n',
     descend (i :: rest) (overStage (walk (Pixi.restoreFields p)) stage)
       = Some n' /\
     attrs_of c (Pixi.seen_fields (isSprite n') (fields n')) =
     attrs_of c (Pixi.seen_fields (isSprite n) (fields n))).
Proof.
  intros Hc Hn.
  split; [|split]; eexists; (split; [apply descend_overStage_walk; exact Hn|]);
    destruct n as [b f cs]; simpl in *.
  - now apply untied_capture.
  - now apply untied_interpolate.
  - now apply untied_restore.
Qed.


(* ------------------------------------------------------------------ *)
(** ** The scheduler on the small scene *)

(** The scenario of the specification: 60 steps per second and elapsed
    times of 16, 16 and 17 ms give 0, 1 and 1 calls of the callback. *)
Example updates_16_16_17 :
  updates_per_drain 5 (clock_readings 0 [16; 16; 17]) fixed_rate
  = [0; 1; 1]%nat.
Proof. vm_compute. reflexivity. Qed.

(** The demo's sprite is drawn half-way and left where it was. *)
Example render_draws_halfway :
  option_map (fun n => (live (x (fields n)), live (y (fields n))))
    (descend [0%nat] (drawn (Num (1 # 2)) fixed_rate))
  = Some (Num (10 # 2), Num (20 # 2)) /\
  option_map (fun n => (live (x (fields n)), live (y (fields n))))
    (descend [0%nat] (stage (self (render (Num (1 # 2)) fixed_rate))))
  = Some (Num 10, Num 20).
Proof. split; vm_compute; reflexivity. Qed.

(** C1 as stated fails on a long gap: 5000 ms elapsed at 60 steps per
    second give one call of the callback, not floor(5000 / (1000/60)) =
    300. *)
Lemma long_gap_breaks_floor_formula :
  _frameDuration (self fixed_rate) = Num (1000 / 60) /\
  _lag (self fixed_rate) = Num 0 /\
  _startTime (self fixed_rate) = Num 0 /\
  exists m',
    drains 300 (clock_readings 0 [5000]) fixed_rate = Done m' /\
    count_updates (trace m') = 1%nat /\
    count_updates (trace fixed_rate) = 0%nat /\
    Qfloor ((0 + Qsum [5000]) / (1000 / 60)) = 300%Z /\
    (Z.of_nat (count_updates (trace m'))
     - Z.of_nat (count_updates (trace fixed_rate)))%Z
    <> Qfloor ((0 + Qsum [5000]) / (1000 / 60)).
Proof.
  repeat (split; [reflexivity|]).
  eexists. split; [vm_compute; reflexivity|].
  repeat (split; [vm_compute; reflexivity|]).
  vm_compute. discriminate.
Qed.

(** A clock that goes back makes the lag negative: the reason for the
    elapsed times of C1 to be non-negative. *)
Example clock_going_back :
  exists m',
    drains 5 (clock_readings 0 [-20]) fixed_rate = Done m' /\
    _lag (self m') = Num (0 + (0 + -20 - 0)).
Proof. eexists. split; vm_compute; reflexivity. Qed.


(** C4 as stated fails after a drain-and-render made with a clock that
    went back, and after one made with a logic rate of 0.  At 60 steps per
    second, a drain at 100 ms followed by one at 80 ms leaves the lag at
    -20 and [dt] at -20 / (1000/60) = -6/5.  With the rate 0 the tick
    duration is undefined and the drain-and-render leaves [dt] not a
    number. *)
Lemma dt_outside_the_unit_interval :
  (exists m1 m' f,
     drains 10 [100] fixed_rate = Done m1 /\
     _frameDuration (self m1) = Num (1000 / 60) /\
     doInterpolate 10 80 m1 = Done m' /\
     count_draws (trace m') = S (count_draws (trace m1)) /\
     dt (self m') = Num f /\ f == - (6 # 5) /\ ~ 0 <= f) /\
  (exists m',
     gameLoop 10 16 16 (demo (container [ball]) (Num 0) undefined) = Done m' /\
     count_draws (trace m') = 1%nat /\
     dt (self m') = NaN).
Proof.
  split.
  - eexists. eexists. eexists. split; [vm_compute; reflexivity|].
    split; [reflexivity|].
    split; [vm_compute; reflexivity|].
    split; [reflexivity|]. split; [reflexivity|].
    split; [reflexivity|]. vm_compute. intro H. now apply H.
  - eexists. split; [vm_compute; reflexivity|]. split; reflexivity.
Qed.


Lemma dt_is_a_proper_fraction_witness :
  let m := fixed_rate in
  (_frameDuration (self m) = Num (1000 / 60) /\ 0 < 1000 / 60 /\
   _lag (self m) = Num 0 /\ _startTime (self m) = Num 0 /\ 0 <= 40) /\
  exists m' f,
    doInterpolate 2 40 m = Done m' /\
    dt (self m') = jsdiv (_lag (self m')) (_frameDuration (self m')) /\
    dt (self m') = Num f /\ 0 <= f /\ f < 1.
Proof.
  intros m. split.
  - repeat split; try reflexivity. discriminate.
  - apply (dt_is_a_proper_fraction m (1000 / 60) 0 0 40 2).
    + reflexivity.
    + reflexivity.
    + reflexivity.
    + discriminate.
    + reflexivity.
    + discriminate.
    + vm_compute. lia.
Defined.

(** The sprite of the demo, half-way between its previous and its live
    position. *)
Lemma render_halfway_position_witness :
  let m := fixed_rate in
  (interpolate (self m) = true /\
   Properties.position (properties (self m)) = true /\
   descend [0%nat] (stage (self m)) = Some ball /\
   _previous (x (fields ball)) = Num 0 /\
   live (x (fields ball)) = Num 10) /\
  exists tree during after,
    trace (render (Num (1 # 2)) m) = trace m ++ [Draw tree] /\
    descend [0%nat] tree = Some during /\
    jseq (live (x (fields during))) (Num 5) /\
    descend [0%nat] (stage (self (render (Num (1 # 2)) m))) = Some after /\
    live (x (fields after)) = Num 10.
Proof.
  intros m. split.
  - repeat split; reflexivity.
  - apply (render_halfway_position m 0 [] ball); reflexivity.
Defined.

(** C6 as stated fails when no logic rate is set: the render cap is
    set, the object is not paused and the timestamp 100 has reached the
    next render time 0, yet the call does not drain.  It calls the
    callback and renders once, and leaves the start time, the lag and the
    next render time as they were. *)
Lemma render_cap_without_logic_rate :
  let m := free_running_capped in
  paused (self m) = false /\
  _fps (self m) = undefined /\
  _renderFps (self m) = Num 30 /\
  _renderDuration (self m) = Num (1000 / 30) /\
  _renderStartTime (self m) = Num 0 /\
  0 <= 100 /\
  exists m' tree,
    gameLoop 10 100 100 m = Done m' /\
    trace m' = [RequestFrame; Update; Draw tree] /\
    clock (self m') = clock (self m) /\
    _renderStartTime (self m') <> Num (100 + 1000 / 30) /\
    gameLoop 10 100 100 m <>
      (do d <- doInterpolate 10 100 (emit RequestFrame m);
       Done (on_self (fun s => with_renderStartTime s (Num (100 + 1000 / 30)))
               d)).
Proof.
  intros m. repeat (split; [reflexivity || discriminate|]).
  eexists. eexists.
  split; [vm_compute; reflexivity|].
  split; [reflexivity|].
  split; [reflexivity|].
  split; vm_compute; discriminate.
Qed.

Lemma uncapped_updates_then_renders_once_witness :
  let m := free_running in
  (paused (self m) = false /\ _fps (self m) = undefined) /\
  exists m' tree,
    gameLoop 0 16 16 m = Done m' /\
    m' = render (Num 1) (callUpdate (emit RequestFrame m)) /\
    trace m' = trace m ++ [RequestFrame; Update; Draw tree] /\
    clock (self m') = clock (self m) /\
    (Forall numeric
       (children (stage (self (callUpdate (emit RequestFrame m))))) ->
     live_equiv (observe tree)
       (observe (stage (self (callUpdate (emit RequestFrame m)))))).
Proof.
  intros m. split.
  - split; reflexivity.
  - apply (uncapped_updates_then_renders_once m 0 16 16); reflexivity.
Defined.

(** C8 as stated fails on the rendering engine: with the renderer, the
    root and the update callback given but no engine, the constructor
    throws. *)
Lemma constructor_needs_the_engine :
  let options : @SmoothieOptions unit unit unit :=
    mkOptions None (Some tt) (Some (container [ball])) (Some idle)
      (Some true) (Num 60) undefined None in
  o_renderer options <> None /\
  o_root options <> None /\
  o_update options <> None /\
  new_Smoothie 0 options =
    Throw "Please assign a rendering engine as Smoothie's engine option".
Proof. intros options. repeat split; discriminate. Qed.

Lemma paused_is_inert_witness :
  let m := on_self pause fixed_rate in
  let calls := [(0, 0); (17, 17); (5000, 5000)] in
  paused (self m) = true /\
  (gameLoop 5 6000 6000 m =
     Done (mkMachine (self m) (world m) (trace m ++ [RequestFrame])) /\
   run 5 calls m =
     Done (mkMachine (self m) (world m)
             (trace m ++ repeat RequestFrame (List.length calls))) /\
   (forall s : @Smoothie unit unit,
      pause s = with_paused s true /\ resume s = with_paused s false /\
      clock (pause s) = clock s /\ clock (resume s) = clock s /\
      stage (pause s) = stage s /\ stage (resume s) = stage s /\
      paused (pause s) = true /\ paused (resume s) = false /\
      (forall b,
         (properties (with_paused s b), update (with_paused s b),
          interpolate (with_paused s b), renderer (with_paused s b)) =
         (properties s, update s, interpolate s, renderer s) /\
         (_fps (with_paused s b), _frameDuration (with_paused s b),
          _renderFps (with_paused s b), _renderDuration (with_paused s b)) =
         (_fps s, _frameDuration s, _renderFps s, _renderDuration s))) /\
   _startTime (resume (self m)) = _startTime (self m)).
Proof.
  intros m calls. split.
  - reflexivity.
  - apply (paused_is_inert m 5 6000 6000 calls). reflexivity.
Defined.

Lemma never_configured_never_blends_witness :
  let options := demo_options (container [container [new_ball]])
                   undefined undefined in
  let s := self free_running in
  let ops := [CallGameLoop 0 0; CallPause; CallGameLoop 16 16; CallResume;
              SetRenderFps (Num 30); SetFps undefined;
              CallGameLoop 33 33] in
  (new_Smoothie 0 options = Done s /\
   o_fps options = undefined /\
   stage_no_previous (stage s) /\
   keeps_no_previous (update s) /\
   Forall keeps_fps_unset ops) /\
  exists m',
    perform 0 ops (mkMachine s tt []) = Done m' /\
    _fps (self m') = undefined /\
    stage_no_previous (stage (self m')) /\
    (forall tick, observe (drawn tick m') = observe (stage (self m'))) /\
    (forall timestamp now',
       paused (self m') = false ->
       exists m'' tree,
         gameLoop 0 timestamp now' m' = Done m'' /\
         trace m'' = trace m' ++ [RequestFrame; Update; Draw tree] /\
         observe tree =
           observe (stage (self (callUpdate (emit RequestFrame m')))) /\
         stage_no_previous (stage (self m''))).
Proof.
  intros options s ops.
  assert (H1 : stage_no_previous (stage s)).
  { repeat constructor. }
  assert (H2 : keeps_no_previous (update s)).
  { intros w t H. exact H. }
  assert (H3 : Forall keeps_fps_unset ops).
  { repeat constructor. }
  split.
  - repeat split; try reflexivity; assumption.
  - apply (never_configured_never_blends 0 options s tt ops 0);
      try reflexivity; assumption.
Defined.

(* ------------------------------------------------------------------ *)
(** ** Further properties on the small scene *)



Lemma fraction_zero_draws_previous_witness :
  let m := fixed_rate in
  (interpolate (self m) = true /\
   descend [0%nat] (stage (self m)) = Some ball /\
   interpolated (properties (self m)) (isSprite ball) Position = true) /\
  exists n',
    descend [0%nat] (drawn (Num 0) m) = Some n' /\
    Forall2 jseq (map live (attrs_of Position (fields n')))
                 (map _previous (attrs_of Position (fields ball))).
Proof.
  intros m. split.
  - repeat split; reflexivity.
  - apply (fraction_zero_draws_previous m Position 0 [] ball);
      try reflexivity.
    repeat constructor; eexists; eexists; split; reflexivity.
Defined.


Lemma zero_rate_fraction_is_not_a_number_witness :
  let m := fixed_rate in
  (paused (self m) = false /\ _renderFps (self m) = undefined) /\
  exists m',
    gameLoop 0 16 16 (on_self (fun s => set_fps s (Num 0)) m) = Done m' /\
    dt (self m') = NaN /\
    count_draws (trace m') = S (count_draws (trace m)) /\
    count_updates (trace m') = count_updates (trace m).
Proof.
  intros m. split.
  - split; reflexivity.
  - apply (zero_rate_fraction_is_not_a_number m 0 16 16); reflexivity.
Defined.

Lemma negative_rate_hangs_witness :
  let m := fixed_rate in
  (- (60) < 0 /\ _lag (self m) = Num 0 /\ _startTime (self m) = Num 0 /\
   0 <= 16) /\
  (_frameDuration (self (on_self (fun s => set_fps s (Num (- (60)))) m))
     = Num (1000 / - (60)) /\
   doInterpolate 1000 16 (on_self (fun s => set_fps s (Num (- (60)))) m)
     = Diverge).
Proof.
  intros m. split.
  - repeat split; try reflexivity; discriminate.
  - apply (negative_rate_hangs m (- (60)) 0 0 16 1000);
      try reflexivity; discriminate.
Defined.

Lemma falsy_render_rate_lifts_the_cap_witness :
  let m := capped in
  (truthy (Num 0) = false /\ paused (self m) = false /\
   _fps (self m) <> undefined) /\
  gameLoop 5 1 16 (on_self (fun s => set_renderFps s (Num 0)) m) =
  doInterpolate 5 16
    (emit RequestFrame (on_self (fun s => set_renderFps s (Num 0)) m)).
Proof.
  intros m. split.
  - repeat split; try reflexivity; discriminate.
  - apply (falsy_render_rate_lifts_the_cap m (Num 0) 5 1 16);
      try reflexivity; discriminate.
Defined.


Lemma drain_accounts_for_the_time_witness :
  let m := fixed_rate in
  (_frameDuration (self m) = Num (1000 / 60) /\ 0 < 1000 / 60 /\
   _lag (self m) = Num 0 /\ _startTime (self m) = Num 0 /\
   0 <= 40 /\ 40 - 0 <= 1000) /\
  exists m' l',
    doInterpolate 2 40 m = Done m' /\
    _lag (self m') = Num l' /\
    _startTime (self m') = Num 40 /\
    inject_Z (Z.of_nat (count_updates (trace m') - count_updates (trace m)))
      * (1000 / 60) + l' == 0 + (40 - 0).
Proof.
  intros m. split.
  - repeat split; try reflexivity; discriminate.
  - apply (drain_accounts_for_the_time m (1000 / 60) 0 0 40 2);
      try reflexivity; discriminate.
Defined.

Lemma scheduler_always_returns_witness :
  let options := demo_options (container [ball]) (Num 60) undefined in
  let ops := [CallGameLoop 0 5; CallPause; CallGameLoop 16 20; CallResume;
              SetFps (Num 30); SetRenderFps (Num 30);
              CallGameLoop 33 4000] in
  (new_Smoothie 0 options = Done (self fixed_rate) /\
   rate_ok (o_fps options) /\ clock_ok 0 ops) /\
  exists (n : nat) m',
    (forall fuel, (n <= fuel)%nat ->
       perform fuel ops (mkMachine (self fixed_rate) tt []) = Done m') /\
    healthy (last_reading 0 ops) m'.
Proof.
  intros options ops.
  assert (H1 : rate_ok (o_fps options))
    by (right; exists 60; split; reflexivity).
  assert (H2 : clock_ok 0 ops).
  { simpl. repeat split; try discriminate.
    right. exists 30. split; reflexivity. }
  split.
  - split; [reflexivity | split; [exact H1 | exact H2]].
  - apply (scheduler_always_returns 0 options (self fixed_rate) tt ops);
      [reflexivity | exact H1 | exact H2].
Defined.

Lemma fixed_rate_is_healthy : healthy 0 fixed_rate.
Proof.
  split.
  - right. exists (1000 / 60). split; reflexivity.
  - exists 0, 0. repeat split; discriminate.
Qed.

Lemma one_frame_request_per_call_witness :
  let m := fixed_rate in
  let ops := [CallGameLoop 0 5; CallPause; CallGameLoop 16 20; CallResume;
              CallGameLoop 33 4000] in
  (healthy 0 m /\ clock_ok 0 ops) /\
  exists (n : nat) m',
    (forall fuel, (n <= fuel)%nat -> perform fuel ops m = Done m') /\
    count_frames (trace m')
      = (count_frames (trace m) + game_loop_calls ops)%nat /\
    (count_draws (trace m')
       <= count_draws (trace m) + game_loop_calls ops)%nat.
Proof.
  intros m ops.
  assert (H2 : clock_ok 0 ops) by (simpl; repeat split; discriminate).
  split.
  - split; [exact fixed_rate_is_healthy | exact H2].
  - apply (one_frame_request_per_call 0 ops m);
      [exact fixed_rate_is_healthy | exact H2].
Defined.


Lemma ball_slows_down_and_turns_witness :
  let sprite := sprite_at 10 20 in
  (App.velX (App.ball board) = Num 5 /\
   App.velY (App.ball board) = Num (-4) /\
   App.friction (App.ball board) = Num (95 # 100) /\
   live (rotation sprite) = Num 0) /\
  exists vx' vy' r',
    App.velX (App.ball (fst (App.steps 3 board sprite))) = Num vx' /\
    App.velY (App.ball (fst (App.steps 3 board sprite))) = Num vy' /\
    live (rotation (snd (App.steps 3 board sprite))) = Num r' /\
    Qabs vx' == Qabs 5 * Qpow (Qabs (95 # 100)) 3 /\
    Qabs vy' == Qabs (-4) * Qpow (Qabs (95 # 100)) 3 /\
    r' == 0 + inject_Z (Z.of_nat 3) * (1 # 10).
Proof.
  intros sprite. split.
  - repeat split; reflexivity.
  - apply (ball_slows_down_and_turns 3 board sprite 5 (-4) (95 # 100) 0);
      reflexivity.
Defined.

Lemma bounce_ignores_the_direction_witness :
  let w := App.mkWorld
             (App.mkBoardObject (Num (-5)) (Num 0) (Num 10) (Num (95 # 100)))
             (Num 600) (Num 600) in
  let sprite := sprite_at 590 300 in
  (live (x sprite) = Num 590 /\ live (width sprite) = Num 80 /\
   App.screen_width w = Num 600 /\
   App.velX (App.ball w) = Num (-5) /\
   App.friction (App.ball w) = Num (95 # 100) /\
   600 <= 590 + 80 / 2) /\
  exists px' v',
    live (x (snd (App.smoothie_update w sprite))) = Num px' /\
    App.velX (App.ball (fst (App.smoothie_update w sprite))) = Num v' /\
    px' == 590 - -5 /\
    v' == - -5 * (95 # 100) /\
    (-5 < 0 -> 590 < px').
Proof.
  intros w sprite. split.
  - repeat split; try reflexivity; discriminate.
  - apply (bounce_ignores_the_direction w sprite 590 80 600 (-5) (95 # 100));
      try reflexivity; discriminate.
Defined.

Lemma previous_is_the_state_before_the_step_witness :
  let m := fixed_rate in
  (keeps_previous (update (self m)) /\
   descend [0%nat] (stage (self m)) = Some ball) /\
  exists n',
    descend [0%nat] (stage (self (catchUp (Num (1000 / 60)) m))) = Some n' /\
    forall c, enabled (properties (self m)) c = true ->
      map _previous (attrs_of c (fields n'))
      = map live (attrs_of c (fields ball)).
Proof.
  intros m.
  assert (H : keeps_previous (update (self m))) by (intros w t; reflexivity).
  split.
  - split; [exact H | reflexivity].
  - apply (previous_is_the_state_before_the_step m (Num (1000 / 60)) 0 []
             ball); [exact H | reflexivity].
Defined.

Lemma clock_gone_back_takes_time_off_witness :
  let m := fixed_rate in
  (_frameDuration (self m) = Num (1000 / 60) /\ 0 < 1000 / 60 /\
   _lag (self m) = Num 0 /\ 0 < 1000 / 60 /\
   _startTime (self m) = Num 0 /\ - (20) < 0) /\
  exists m' f,
    doInterpolate 0 (- (20)) m = Done m' /\
    count_updates (trace m') = count_updates (trace m) /\
    count_draws (trace m') = S (count_draws (trace m)) /\
    _lag (self m') = Num (0 + (- (20) - 0)) /\
    _startTime (self m') = Num (- (20)) /\
    dt (self m') = Num f /\ f < 1 /\
    (0 + (- (20) - 0) < 0 -> f < 0).
Proof.
  intros m. split.
  - repeat split; reflexivity.
  - apply (clock_gone_back_takes_time_off m (1000 / 60) 0 0 (- (20)) 0);
      reflexivity.
Defined.

(* ------------------------------------------------------------------ *)
(** ** Doubles and library sprites on the small scene *)

(** The rounding on known doubles: one tenth; a tie, which goes to the
    even significand; the two tick durations of the scenarios. *)
Example round53_on_known_doubles :
  round53 (1 # 10) = 3602879701896397 # 36028797018963968 /\
  round53 9007199254740993 = 9007199254740992 /\
  round53 9007199254740995 = 9007199254740996 /\
  round53 (1000 / 60) = 4691249611844267 # 281474976710656 /\
  round53 (1000 / 30) = 4691249611844267 # 140737488355328.
Proof. repeat split; vm_compute; reflexivity. Qed.

(** In doubles the floor formula of C1 is missed by one on ordinary
    inputs: at 24 steps per second, 500 ms are 12 tick durations and a
    little more, yet the drain calls the callback 11 times. *)
Example rounding_drops_a_tick :
  let m := demo_in_doubles (container [ball]) (Num 24) undefined in
  _frameDuration (self m) = Num (round53 (1000 / 24)) /\
  Qfloor ((0 + Qsum (map (clamp (round53 (1000 / 24))) [500]))
          / round53 (1000 / 24)) = 12%Z /\
  exists m',
    Double.drains 20 (clock_readings 0 [500]) m = Done m' /\
    count_updates (trace m') = 11%nat.
Proof.
  intros m. split; [reflexivity|]. split; [vm_compute; reflexivity|].
  eexists. split; vm_compute; reflexivity.
Qed.

(** In doubles the cap of 30 renders per second does not pick every
    other of the notifications that come 1000/60 ms apart from 100 ms on:
    a timestamp can fall short of the next render time by one rounding,
    and the render waits for the notification after. *)
Example capped_cadence_in_doubles :
  let m := demo_in_doubles (container [ball]) (Num 60) (Num 30) in
  let ts := fun k : nat =>
    round53 (100 + round53 (inject_Z (Z.of_nat k) * round53 (1000 / 60))) in
  draws_per_call 125 (notifications ts ts 0 14) m
  = [1; 0; 1; 0; 1; 0; 0; 1; 0; 0; 1; 0; 1; 0]%nat.
Proof. vm_compute. reflexivity. Qed.

Lemma drains_keep_count_within_rounding_witness :
  let m := demo_in_doubles (container [ball]) (Num 60) undefined in
  let d := round53 (1000 / 60) in
  let ds := [16; 16; 17; 5000] in
  (_frameDuration (self m) = Num d /\ 0 < d /\
   _lag (self m) = Num 0 /\ _startTime (self m) = Num 0 /\
   Forall (fun e => 0 <= e /\ round53 e == e) ds /\ moderate d 0) /\
  exists mk lk (n : nat),
    Double.drains 125 (clock_readings 0 ds) m = Done mk /\
    count_updates (trace mk) = (count_updates (trace m) + n)%nat /\
    _lag (self mk) = Num lk /\ 0 <= lk /\ lk < d /\
    Qabs (inject_Z (Z.of_nat n) * d + lk
          - (0 + Qsum (map (clamp d) ds)))
      <= inject_Z (Z.of_nat (n + List.length ds))
         * ((0 + 2 * d + 1000) * unit_roundoff) /\
    (inject_Z (Z.of_nat (n + List.length ds))
       * ((0 + 2 * d + 1000) * unit_roundoff) < d ->
     (Qfloor ((0 + Qsum (map (clamp d) ds)) / d) - 1 <= Z.of_nat n
      <= Qfloor ((0 + Qsum (map (clamp d) ds)) / d) + 1)%Z).
Proof.
  intros m d ds.
  assert (H : Forall (fun e => 0 <= e /\ round53 e == e) ds).
  { repeat (apply Forall_cons; [split; [discriminate | reflexivity]|]).
    apply Forall_nil. }
  assert (M : moderate d 0) by (split; vm_compute; discriminate).
  split.
  - refine (conj eq_refl (conj eq_refl (conj eq_refl (conj eq_refl (conj H M))))).
  - apply (drains_keep_count_within_rounding m d 0 0 ds 125
             eq_refl eq_refl eq_refl) with (post := []).
    + discriminate.
    + reflexivity.
    + exact H.
    + exact M.
    + vm_compute. lia.
    + now rewrite app_nil_r.
    + discriminate.
Defined.

Lemma render_cap_gate_and_cadence_witness :
  let m := demo_in_doubles (container [ball]) (Num 60) (Num 30) in
  let ts := fun k : nat => 100 + inject_Z (Z.of_nat k) * 17 in
  (paused (self m) = false /\ _fps (self m) <> undefined /\
   _renderFps (self m) <> undefined /\
   _renderDuration (self m) = Num (round53 (1000 / 30)) /\
   _renderStartTime (self m) = Num 0 /\
   Double.new_Smoothie 0 (demo_options (container [ball]) (Num 60) (Num 30))
     = Done (self m) /\
   0 <= 100 /\ 0 <= ts 0%nat /\ ts (4 + 3)%nat <= pow2 53) /\
  ((0 <= 100 ->
    Double.gameLoop 125 100 100 m =
    do m' <- Double.doInterpolate 125 100 (emit RequestFrame m);
    Done (on_self (fun s => with_renderStartTime s
                    (Num (round53 (100 + round53 (1000 / 30))))) m'))
   /\
   exists ma m' (k : nat),
     Double.run 125 (notifications ts ts 0 4) (mkMachine (self m) tt [])
       = Done ma /\
     Double.run 125 (notifications ts ts 4 3) ma = Done m' /\
     count_draws (trace m') = (count_draws (trace ma) + k)%nat /\
     (2 * k <= 3 + 1)%nat /\ (3 <= 3 * k + 2)%nat /\
     (4%nat = 0%nat -> (3 <= 3 * k)%nat)).
Proof.
  intros m ts.
  destruct (@render_cap_gate_and_cadence unit unit unit) as [A B].
  split.
  - repeat split; try reflexivity; discriminate.
  - split.
    + apply (A m 125%nat 100 100 (round53 (1000 / 30)) 0);
        try reflexivity; discriminate.
    + apply (B 0 (demo_options (container [ball]) (Num 60) (Num 30))
               (self m) tt ts ts 4%nat 3%nat 125%nat);
        try reflexivity; try discriminate; try lia.
      * intros k. unfold ts. rewrite of_nat_succ. split; lra.
      * intros k. unfold ts. rewrite of_nat_succ. lra.
Defined.


(** C2 fails on a sprite of the rendering library with size and scale
    both interpolated.  A sprite with an 80 px texture is captured at
    scale 1/2 (width 40), the logic step brings it to scale 1 (width 80),
    and [render(0.5)] follows.  The size block writes the width 60, which
    sets the scale to 3/4; the scale block saves that 3/4 as the current
    scale and blends it to 5/8: the sprite is drawn 50 wide.  The restore
    walk writes the width 80 back and then the saved scale 3/4: the sprite
    is left 60 wide at scale 3/4, not 80 wide at scale 1. *)
Theorem size_and_scale_are_left_blended :
  let p := every_category in
  let captured :=
    Pixi.capturePreviousSpriteProperties p (container [textured (1 # 2)]) in
  let stage := grow captured in
  (exists w s, size_and_scale captured = Some (Num w, Num s) /\
               w == 40 /\ s == 1 # 2) /\
  (exists w s, size_and_scale stage = Some (Num w, Num s) /\
               w == 80 /\ s == 1) /\
  (exists w s,
     size_and_scale (Pixi.drawn p true (Num (1 # 2)) stage)
       = Some (Num w, Num s) /\
     w == 50 /\ s == 5 # 8) /\
  (exists w s,
     size_and_scale (Pixi.render p true (Num (1 # 2)) stage)
       = Some (Num w, Num s) /\
     w == 60 /\ s == 3 # 4 /\ ~ w == 80 /\ ~ s == 1).
Proof.
  intros p captured stage.
  split; [|split; [|split]]; eexists; eexists;
    (split; [vm_compute; reflexivity|]); repeat split; try reflexivity;
    vm_compute; discriminate.
Qed.

Lemma render_twice_without_size_witness :
  let p := Properties.mk true true None (Some true) None in
  let stage := container [textured (1 # 2); ball] in
  flag (Properties.size p) = false /\
  (Pixi.drawn p true (Num (1 # 4))
     (Pixi.render p true (Num (3 # 4)) stage)
   = Pixi.drawn p true (Num (1 # 4)) stage /\
   Pixi.render p true (Num (1 # 4))
     (Pixi.render p true (Num (3 # 4)) stage)
   = Pixi.render p true (Num (3 # 4)) stage).
Proof.
  intros p stage. split.
  - reflexivity.
  - apply (render_twice_without_size p true (Num (3 # 4)) (Num (1 # 4)) stage).
    reflexivity.
Defined.

Lemma untied_category_is_untouched_witness :
  let p := Properties.mk true true None None None in
  let stage := container [ball] in
  (untied p (isSprite ball) Scale = true /\
   descend [0%nat] stage = Some ball) /\
  ((exists n',
      descend [0%nat] (Pixi.capturePreviousSpriteProperties p stage)
        = Some n' /\
      attrs_of Scale (Pixi.seen_fields (isSprite n') (fields n')) =
      attrs_of Scale (Pixi.seen_fields (isSprite ball) (fields ball))) /\
   (exists n',
      descend [0%nat]
        (overStage (walk (Pixi.interpolateFields p (Num (1 # 2)))) stage)
        = Some n' /\
      attrs_of Scale (Pixi.seen_fields (isSprite n') (fields n')) =
      attrs_of Scale (Pixi.seen_fields (isSprite ball) (fields ball))) /\
   (exists n',
      descend [0%nat] (overStage (walk (Pixi.restoreFields p)) stage)
        = Some n' /\
      attrs_of Scale (Pixi.seen_fields (isSprite n') (fields n')) =
      attrs_of Scale (Pixi.seen_fields (isSprite ball) (fields ball)))).
Proof.
  intros p stage. split.
  - split; reflexivity.
  - apply (untied_category_is_untouched p Scale (Num (1 # 2)) stage
             0 [] ball); reflexivity.
Defined.
